(** * Portfolify resume-parsing pipeline: shallow embedding and properties

    The parsing core of the repository is embedded function by function:
    - [SectionDetector] (sectionDetector.js: detectName ... detectSections),
    - [Normalizer]      (normalizer.js:      normalizeName ... createPortfolioSchema),
    - [TextExtractor]   (textExtractor.js:   normalizeText, extractText),
    - [ResumeParser]    (the parsing service: parseResume),
    - [ErrorHandler]    (errorHandler.js: the error-handling middleware),
    on top of [JS] (strings) and [Regex] (regular expressions), followed by
    [Json] (the portfolio record as a tree) and [Sample] (concrete inputs).

    JavaScript strings are sequences of UTF-16 code units, so a string is a
    [list N] and [length] is the JavaScript [.length].  Regular expressions
    are values of an abstract syntax interpreted by a backtracking matcher
    that follows the ECMAScript matcher (leftmost match, greedy quantifiers,
    ordered alternatives); the two module-level regular expressions that
    carry the [g] flag keep their [lastIndex] in an explicit state. *)

From Stdlib Require Import String Ascii.
From Stdlib Require Import List NArith ZArith Arith Bool Lia Permutation.
Import ListNotations.

(** ** JavaScript strings *)

Module JS.

Definition jsstring := list N.

(** A source literal (ASCII only) as a sequence of code units. *)
Definition u (s : string) : jsstring :=
  List.map N_of_ascii (list_ascii_of_string s).

Arguments u s%_string.

Definition str_eqb (a b : jsstring) : bool :=
  if list_eq_dec N.eq_dec a b then true else false.

(** WhiteSpace and LineTerminator code units: what [trim] strips and what
    [\s] matches. *)
Definition isWhiteSpace (c : N) : bool :=
  ((9 <=? c) && (c <=? 13) || (c =? 32) || (c =? 160) || (c =? 5760)
   || ((8192 <=? c) && (c <=? 8202)) || (c =? 8232) || (c =? 8233)
   || (c =? 8239) || (c =? 8287) || (c =? 12288) || (c =? 65279))%N.

Fixpoint trimStart (s : jsstring) : jsstring :=
  match s with
  | c :: s' => if isWhiteSpace c then trimStart s' else s
  | [] => []
  end.

Definition trimEnd (s : jsstring) : jsstring := rev (trimStart (rev s)).

Definition trim (s : jsstring) : jsstring := trimEnd (trimStart s).

(** [s.startsWith(p)] *)
Fixpoint startsWith (p s : jsstring) : bool :=
  match p, s with
  | [], _ => true
  | a :: p', b :: s' => (a =? b)%N && startsWith p' s'
  | _ :: _, [] => false
  end.

(** [s.includes(sub)] *)
Fixpoint includes (s sub : jsstring) : bool :=
  startsWith sub s ||
  match s with
  | [] => false
  | _ :: s' => includes s' sub
  end.

(** [s.substring(b, e)] for [b <= e]. *)
Definition substring (b e : nat) (s : jsstring) : jsstring :=
  firstn (e - b) (skipn b s).

(** [s.split(sep)] for a non-empty string separator.  [skip] counts the
    code units of a separator occurrence still to be passed over, [cur]
    is the piece being read, reversed. *)
Fixpoint split_go (sep : jsstring) (skip : nat) (cur s : jsstring)
  : list jsstring :=
  match s with
  | [] => [rev cur]
  | c :: s' =>
      match skip with
      | S k => split_go sep k cur s'
      | O =>
          if startsWith sep s
          then rev cur :: split_go sep (length sep - 1) [] s'
          else split_go sep 0 (c :: cur) s'
      end
  end.

Definition split (sep s : jsstring) : list jsstring := split_go sep 0 [] s.

(** [arr.join(sep)] *)
Fixpoint join (sep : jsstring) (l : list jsstring) : jsstring :=
  match l with
  | [] => []
  | [x] => x
  | x :: l' => x ++ sep ++ join sep l'
  end.

(** Truthiness of a string: non-empty. *)
Definition truthy (s : jsstring) : bool :=
  match s with [] => false | _ => true end.

(** [x || d] where [x] is a string, [null] or [undefined]. *)
Definition orElse (x : option jsstring) (d : jsstring) : jsstring :=
  match x with
  | Some s => if truthy s then s else d
  | None => d
  end.

(** [x || null] *)
Definition orNull (x : option jsstring) : option jsstring :=
  match x with
  | Some s => if truthy s then Some s else None
  | None => None
  end.

End JS.

Import JS.

(** ** Regular expressions *)

Module Regex.

Inductive regex : Type :=
| Eps
| Chr (p : N -> bool)
| Bol
| Seq (r1 r2 : regex)
| Alt (r1 r2 : regex)
| Rep (mn : nat) (mx : option nat) (r : regex).

(** The matcher, in continuation-passing style as in the ECMAScript
    semantics: [i] is the current index, [s] the input from [i] on, and [k]
    continues with what follows the pattern; the result is the end index
    of the whole match.  [Rep] is the greedy RepeatMatcher, with its check
    that an iteration past the minimum consumes input; the fuel
    [mn + length s + 1] bounds the number of iterations. *)
Fixpoint rmatch (r : regex) (i : nat) (s : jsstring)
  (k : nat -> jsstring -> option nat) {struct r} : option nat :=
  match r with
  | Eps => k i s
  | Chr p =>
      match s with
      | c :: s' => if p c then k (S i) s' else None
      | [] => None
      end
  | Bol => if i =? 0 then k i s else None
  | Seq r1 r2 => rmatch r1 i s (fun i' s' => rmatch r2 i' s' k)
  | Alt r1 r2 =>
      match rmatch r1 i s k with
      | Some e => Some e
      | None => rmatch r2 i s k
      end
  | Rep mn mx r' =>
      (fix loop (fuel mn : nat) (mx : option nat) (i : nat) (s : jsstring)
         {struct fuel} : option nat :=
         match fuel with
         | O => None
         | S fuel' =>
             match mx with
             | Some O => k i s
             | _ =>
                 let d := fun i' s' =>
                   if (mn =? 0) && (i' =? i) then None
                   else loop fuel' (pred mn) (option_map pred mx) i' s' in
                 match mn with
                 | S _ => rmatch r' i s d
                 | O =>
                     match rmatch r' i s d with
                     | Some e => Some e
                     | None => k i s
                     end
                 end
             end
         end) (mn + length s + 1) mn mx i s
  end.

(** A match that starts exactly at index [i]; [s] is the input from [i]. *)
Definition match_at (r : regex) (i : nat) (s : jsstring) : option nat :=
  rmatch r i s (fun e _ => Some e).

(** Leftmost match at or after index [i]: start and end index. *)
Fixpoint search_from (r : regex) (i : nat) (s : jsstring)
  : option (nat * nat) :=
  match match_at r i s with
  | Some e => Some (i, e)
  | None =>
      match s with
      | [] => None
      | _ :: s' => search_from r (S i) s'
      end
  end.

(** RegExpBuiltinExec from [lastIndex]: fails beyond the end of the input. *)
Definition exec (r : regex) (lastIndex : nat) (s : jsstring)
  : option (nat * nat) :=
  if length s <? lastIndex then None
  else search_from r lastIndex (skipn lastIndex s).

(** [re.test(s)] for a regular expression without the [g] flag. *)
Definition test (r : regex) (s : jsstring) : bool :=
  match exec r 0 s with Some _ => true | None => false end.

(** [re.test(s)] for a regular expression with the [g] flag: the search
    starts at [lastIndex], which becomes the end of the match, or 0 when
    there is none. *)
Definition test_g (r : regex) (s : jsstring) (lastIndex : nat) : bool * nat :=
  match exec r lastIndex s with
  | Some (_, e) => (true, e)
  | None => (false, 0)
  end.

(** [s.match(re)] without the [g] flag: the matched text [m[0]] and its
    start index. *)
Definition match1 (r : regex) (s : jsstring) : option (nat * jsstring) :=
  match exec r 0 s with
  | Some (b, e) => Some (b, substring b e s)
  | None => None
  end.

(** The loop every [g] operation runs from [lastIndex]: each exec
    continues from the end of the previous match, one further after an
    empty match, and the exec that fails sets [lastIndex] to 0.  The
    result is the list of matched spans and the final [lastIndex];
    [length s + 2] iterations are enough from index 0. *)
Fixpoint exec_all (r : regex) (fuel lastIndex : nat) (s : jsstring)
  : list (nat * nat) * nat :=
  match fuel with
  | O => ([], lastIndex)
  | S fuel' =>
      match exec r lastIndex s with
      | None => ([], 0)
      | Some (b, e) =>
          let (l, final) := exec_all r fuel' (if e =? b then S e else e) s in
          ((b, e) :: l, final)
      end
  end.

(** [s.match(re)] with the [g] flag: [lastIndex] is set to 0 first and
    every match is collected; the result is the array of matched texts,
    or [None] for JavaScript's [null] when there is no match, and the
    [lastIndex] the regular expression is left with. *)
Definition match_g (r : regex) (s : jsstring) : option (list jsstring) * nat :=
  let (l, final) := exec_all r (length s + 2) 0 s in
  (match l with
   | [] => None
   | _ => Some (List.map (fun be => substring (fst be) (snd be) s) l)
   end, final).

(** [s.replace(re, repl)] without the [g] flag: the first match only. *)
Definition replace1 (r : regex) (repl s : jsstring) : jsstring :=
  match exec r 0 s with
  | Some (b, e) => firstn b s ++ repl ++ skipn e s
  | None => s
  end.

(** [s.replace(re, repl)] with the [g] flag. *)
Fixpoint rebuild (repl : jsstring) (pos : nat) (l : list (nat * nat))
  (s : jsstring) : jsstring :=
  match l with
  | [] => skipn pos s
  | (b, e) :: l' => substring pos b s ++ repl ++ rebuild repl e l' s
  end.

Definition replace_g (r : regex) (repl s : jsstring) : jsstring :=
  rebuild repl 0 (fst (exec_all r (length s + 2) 0 s)) s.

(** [s.split(re)] (RegExp.prototype[Symbol.split]): [p] is the start of
    the piece being read and [q] the index at which a separator is tried. *)
Fixpoint split_re_go (r : regex) (fuel p q : nat) (s : jsstring)
  : list jsstring :=
  match fuel with
  | O => [substring p (length s) s]
  | S fuel' =>
      if q <? length s then
        match match_at r q (skipn q s) with
        | None => split_re_go r fuel' p (S q) s
        | Some e =>
            let e := Nat.min e (length s) in
            if e =? p then split_re_go r fuel' p (S q) s
            else substring p q s :: split_re_go r fuel' e e s
        end
      else [substring p (length s) s]
  end.

Definition split_re (r : regex) (s : jsstring) : list jsstring :=
  match s with
  | [] => match match_at r 0 [] with Some _ => [] | None => [[]] end
  | _ => split_re_go r (2 * length s + 2) 0 0 s
  end.

(** *** Pattern syntax *)

Definition seqs (l : list regex) : regex := fold_right Seq Eps l.

Fixpoint alts (l : list regex) : regex :=
  match l with
  | [] => Chr (fun _ => false)
  | [r] => r
  | r :: l' => Alt r (alts l')
  end.

Definition star r := Rep 0 None r.
Definition plus r := Rep 1 None r.
Definition opt r := Rep 0 (Some 1) r.
Definition times n r := Rep n (Some n) r.

Definition inRange (a b c : N) : bool := ((a <=? c) && (c <=? b))%N.
Definition isDigit := inRange 48 57.
Definition isUpper := inRange 65 90.
Definition isLower := inRange 97 122.
Definition isAlnum c := isLower c || isUpper c || isDigit c.
Definition isWord c := isAlnum c || (c =? 95)%N.
Definition oneOf (l : list N) (c : N) : bool := existsb (N.eqb c) l.
Definition code (a : ascii) : N := N_of_ascii a.

(** A literal character, and the same under the [i] flag: without the
    [u] flag a code unit outside ASCII never canonicalizes to an ASCII
    one, so only the two ASCII cases of a letter match. *)
Definition ch (a : ascii) : regex := Chr (N.eqb (code a)).

Definition chi (a : ascii) : regex :=
  let c := code a in
  Chr (fun x =>
         (x =? c) || (isLower c && (x =? c - 32)) || (isUpper c && (x =? c + 32)))%N.

Definition lit (s : string) : regex := seqs (List.map ch (list_ascii_of_string s)).
Definition liti (s : string) : regex := seqs (List.map chi (list_ascii_of_string s)).

End Regex.

Import Regex.

(** ** Section detector (sectionDetector.js) *)

Module SectionDetector.

(** The keys of [SECTION_PATTERNS] and of the [sections] object. *)
Module Key.
Inductive SectionName := summary | skills | experience | projects | education.
End Key.

Definition SectionName : Set := Key.SectionName.

Definition SectionName_eqb (a b : SectionName) : bool :=
  match a, b with
  | Key.summary, Key.summary | Key.skills, Key.skills
  | Key.experience, Key.experience | Key.projects, Key.projects
  | Key.education, Key.education => true
  | _, _ => false
  end.

(** [SECTION_PATTERNS], in the order of [Object.entries]. *)
Definition SECTION_PATTERNS : list (SectionName * regex) :=
  [ (Key.summary, Seq Bol (alts [liti "summary"; liti "objective"; liti "profile";
        liti "about"; liti "about me"; liti "professional summary"]));
    (Key.skills, Seq Bol (alts [liti "skills"; liti "technical skills";
        liti "core competencies"; liti "expertise"; liti "technologies"]));
    (Key.experience, Seq Bol (alts [liti "experience"; liti "work experience";
        liti "employment"; liti "professional experience"; liti "work history"]));
    (Key.projects, Seq Bol (alts [liti "projects"; liti "personal projects";
        liti "key projects"; liti "portfolio"]));
    (Key.education, Seq Bol (alts [liti "education"; liti "academic";
        liti "qualifications"; liti "academic background"])) ].

(** [[a-zA-Z0-9._-]] and [[a-zA-Z0-9_-]] *)
Definition handleDot : regex := Chr (fun c => isAlnum c || oneOf [46; 95; 45]%N c).
Definition handle : regex := Chr (fun c => isAlnum c || oneOf [95; 45]%N c).
Definition digit : regex := Chr isDigit.
Definition word : regex := Chr isWord.
Definition space : regex := Chr isWhiteSpace.
Definition nonSpace : regex := Chr (fun c => negb (isWhiteSpace c)).
(** [[-.\s]] *)
Definition phoneSep : regex := Chr (fun c => oneOf [45; 46]%N c || isWhiteSpace c).
(** [[•\-\*]] and [[-–]] *)
Definition bullet : regex := Chr (oneOf [8226; 45; 42]%N).
Definition dash : regex := Chr (oneOf [45; 8211]%N).

(** [EMAIL_PATTERN] (flags [gi]) and [PHONE_PATTERN] (flag [g]). *)
Definition EMAIL_PATTERN : regex :=
  seqs [plus handleDot; ch "@"; plus handleDot; ch "."; plus handle].

Definition PHONE_PATTERN : regex :=
  seqs [opt (seqs [opt (ch "+"); Rep 1 (Some 3) digit; opt phoneSep]);
        opt (ch "("); times 3 digit; opt (ch ")"); opt phoneSep;
        times 3 digit; opt phoneSep; times 4 digit].

(** [URL_PATTERNS]: github and linkedin (flag [i]), website (flags [gi]). *)
Definition URL_github : regex := Seq (liti "github.com/") (plus handle).
Definition URL_linkedin : regex := Seq (liti "linkedin.com/in/") (plus handle).
Definition URL_website : regex :=
  seqs [liti "http"; opt (chi "s"); lit "://"; plus nonSpace].

(** [/https?:\/\//], [/\s+/], [/^[A-Z]/], [/^[•\-\*]\s*/], [/^[•\-\*]/] *)
Definition urlScheme : regex := seqs [lit "http"; opt (ch "s"); lit "://"].
Definition spaces : regex := plus space.
Definition startsUpper : regex := Seq Bol (Chr isUpper).
Definition bulletPrefix : regex := seqs [Bol; bullet; star space].
Definition bulletStart : regex := Seq Bol bullet.
(** [/(https?:\/\/[^\s]+)/] *)
Definition urlPattern : regex := seqs [lit "http"; opt (ch "s"); lit "://"; plus nonSpace].

(** *** The state shared between calls

    The three regular expressions with the [g] flag are module-level
    objects; each keeps its [lastIndex] from one use to the next. *)
Record PatternState := {
  EMAIL_lastIndex : nat;
  PHONE_lastIndex : nat;
  website_lastIndex : nat
}.

(** The state when the module has just been loaded. *)
Definition initialState : PatternState :=
  {| EMAIL_lastIndex := 0; PHONE_lastIndex := 0; website_lastIndex := 0 |}.

Definition M (A : Type) : Type := PatternState -> A * PatternState.
Definition ret {A} (a : A) : M A := fun st => (a, st).
Definition bind {A B} (m : M A) (f : A -> M B) : M B :=
  fun st => let (a, st') := m st in f a st'.

Notation "x <- m ;; k" := (bind m (fun x => k))
  (at level 61, m at next level, right associativity).

(** [EMAIL_PATTERN.test(line)], [PHONE_PATTERN.test(line)] *)
Definition EMAIL_test (line : jsstring) : M bool := fun st =>
  let (b, e) := test_g EMAIL_PATTERN line (EMAIL_lastIndex st) in
  (b, {| EMAIL_lastIndex := e; PHONE_lastIndex := PHONE_lastIndex st;
         website_lastIndex := website_lastIndex st |}).

Definition PHONE_test (line : jsstring) : M bool := fun st =>
  let (b, e) := test_g PHONE_PATTERN line (PHONE_lastIndex st) in
  (b, {| EMAIL_lastIndex := EMAIL_lastIndex st; PHONE_lastIndex := e;
         website_lastIndex := website_lastIndex st |}).

(** [text.match(EMAIL_PATTERN)], [text.match(PHONE_PATTERN)],
    [text.match(URL_PATTERNS.website)] *)
Definition EMAIL_match (text : jsstring) : M (option (list jsstring)) := fun st =>
  let (r, e) := match_g EMAIL_PATTERN text in
  (r, {| EMAIL_lastIndex := e; PHONE_lastIndex := PHONE_lastIndex st;
         website_lastIndex := website_lastIndex st |}).

Definition PHONE_match (text : jsstring) : M (option (list jsstring)) := fun st =>
  let (r, e) := match_g PHONE_PATTERN text in
  (r, {| EMAIL_lastIndex := EMAIL_lastIndex st; PHONE_lastIndex := e;
         website_lastIndex := website_lastIndex st |}).

Definition website_match (text : jsstring) : M (option (list jsstring)) := fun st =>
  let (r, e) := match_g URL_website text in
  (r, {| EMAIL_lastIndex := EMAIL_lastIndex st; PHONE_lastIndex := PHONE_lastIndex st;
         website_lastIndex := e |}).

(** *** detectName *)

(** [Object.values(SECTION_PATTERNS).some(pattern => pattern.test(line))] *)
Definition matchesSectionHeader (line : jsstring) : bool :=
  existsb (fun p => test (snd p) line) SECTION_PATTERNS.

(** [line.split(/\s+/).filter(w => w.length > 0)] *)
Definition wordsOf (line : jsstring) : list jsstring :=
  filter (fun w => 0 <? length w) (split_re spaces line).

(** The body of the [for] loop over the lines still to visit: [Some line]
    when the loop returns, [None] when it runs to its end. *)
Fixpoint detectName_loop (ls : list jsstring) : M (option jsstring) :=
  match ls with
  | [] => ret None
  | l :: rest =>
      let line := trim l in
      isEmail <- EMAIL_test line ;;
      isContact <- (if isEmail then ret true else PHONE_test line) ;;
      if isContact then detectName_loop rest
      else if test urlScheme line then detectName_loop rest
      else if 50 <? length line then detectName_loop rest
      else if matchesSectionHeader line then detectName_loop rest
      else
        let words := wordsOf line in
        if (2 <=? length words) && (length words <=? 4) then
          if forallb (test startsUpper) words then ret (Some line)
          else detectName_loop rest
        else detectName_loop rest
  end.

(** The loop visits indices [0 .. Math.min(5, lines.length) - 1]; the
    fallback is [lines[0] || 'Unknown']. *)
Definition detectName (lines : list jsstring) : M jsstring :=
  found <- detectName_loop (firstn 5 lines) ;;
  match found with
  | Some line => ret line
  | None => ret (orElse (nth_error lines 0) (u "Unknown"))
  end.

(** *** detectContact, detectLinks *)

Record Contact := { email : option jsstring; phone : option jsstring }.

Definition detectContact (text : jsstring) : M Contact :=
  emails <- EMAIL_match text ;;
  phones <- PHONE_match text ;;
  ret {| email := match emails with Some l => nth_error l 0 | None => None end;
         phone := match phones with Some l => nth_error l 0 | None => None end |}.

Record Links := {
  github : option jsstring;
  linkedin : option jsstring;
  website : option jsstring
}.

(** The capture group of the github and linkedin patterns is what the
    match has after the literal prefix (11 and 16 code units). *)
Definition detectLinks (text : jsstring) : M Links :=
  let githubMatch := match1 URL_github text in
  let linkedinMatch := match1 URL_linkedin text in
  websiteMatches <- website_match text ;;
  ret {| github :=
           match githubMatch with
           | Some (_, m) => Some (u "https://github.com/" ++ skipn 11 m)
           | None => None
           end;
         linkedin :=
           match linkedinMatch with
           | Some (_, m) => Some (u "https://linkedin.com/in/" ++ skipn 16 m)
           | None => None
           end;
         website :=
           match websiteMatches with
           | Some l =>
               nth_error
                 (filter (fun url => negb (includes url (u "github.com"))
                                     && negb (includes url (u "linkedin.com"))) l) 0
           | None => None
           end |}.

(** *** findSections *)

(** The [sections] object: the five keys are always present. *)
Definition Sections := SectionName -> list jsstring.

Definition emptySections : Sections := fun _ => [].

(** [sections[name] = content] *)
Definition setSection (sections : Sections) (name : SectionName)
  (content : list jsstring) : Sections :=
  fun n => if SectionName_eqb n name then content else sections n.

(** [lines.slice(b, e)] and [lines.slice(b)] for indices within bounds
    or beyond the end. *)
Definition slice {A} (b e : nat) (l : list A) : list A := firstn (e - b) (skipn b l).
Definition sliceFrom {A} (b : nat) (l : list A) : list A := skipn b l.

(** The inner loop over [Object.entries(SECTION_PATTERNS)]: the first
    pattern that matches, in declaration order. *)
Definition foundSection (line : jsstring) : option SectionName :=
  option_map fst (find (fun p => test (snd p) line) SECTION_PATTERNS).

Record FindState := {
  sections : Sections;
  currentSection : option SectionName;
  sectionStartIndex : Z
}.

(** One pass of the loop body at index [i]. *)
Definition findSections_step (lines : list jsstring) (i : nat) (l : jsstring)
  (st : FindState) : FindState :=
  let line := trim l in
  match foundSection line with
  | Some found =>
      {| sections :=
           match currentSection st with
           | Some cur =>
               if (0 <=? sectionStartIndex st)%Z
               then setSection (sections st) cur
                      (slice (Z.to_nat (sectionStartIndex st)) i lines)
               else sections st
           | None => sections st
           end;
         currentSection := Some found;
         sectionStartIndex := Z.of_nat i + 1 |}
  | None => st
  end.

(** The loop from index [i] on, [todo] being [lines] from [i]. *)
Fixpoint findSections_loop (lines : list jsstring) (i : nat)
  (todo : list jsstring) (st : FindState) : FindState :=
  match todo with
  | [] => st
  | l :: todo' =>
      findSections_loop lines (S i) todo' (findSections_step lines i l st)
  end.

(** The variables before the loop. *)
Definition findSections_init : FindState :=
  {| sections := emptySections; currentSection := None;
     sectionStartIndex := (-1)%Z |}.

Definition findSections (lines : list jsstring) : Sections :=
  let st := findSections_loop lines 0 lines findSections_init in
  match currentSection st with
  | Some cur =>
      if (0 <=? sectionStartIndex st)%Z
      then setSection (sections st) cur
             (sliceFrom (Z.to_nat (sectionStartIndex st)) lines)
      else sections st
  | None => sections st
  end.

(** *** Entries of the detected sections *)

Module Exp.
Record t := mk {
  role : jsstring;
  company : option jsstring;   (* [undefined] when the split on ' at ' has one part *)
  duration : jsstring;
  description : jsstring;
  highlights : list jsstring
}.
End Exp.

Module Proj.
Record t := mk {
  title : jsstring;
  tech : list jsstring;
  description : jsstring;
  link : option jsstring
}.
End Proj.

Module Edu.
Record t := mk {
  degree : jsstring;
  institution : jsstring;
  year : jsstring;
  details : jsstring
}.
End Edu.

Record DetectedSections := {
  name : option jsstring;
  contact : Contact;
  links : Links;
  summary : option jsstring;
  skills : list jsstring;
  experience : list Exp.t;
  projects : list Proj.t;
  education : list Edu.t
}.

Section Detectors.

(** [String.prototype.toLowerCase] of the host. *)
Variable toLowerCase : jsstring -> jsstring.

Definition nonBlank (line : jsstring) : bool := 0 <? length (trim line).

(** [line.replace(/^[•\-\*]\s*/, '')] *)
Definition stripBullet (line : jsstring) : jsstring := replace1 bulletPrefix [] line.

Definition detectSummary (sectionLines : list jsstring) : option jsstring :=
  match sectionLines with
  | [] => None
  | _ => Some (trim (join (u " ") (filter nonBlank sectionLines)))
  end.

Definition detectSkills (sectionLines : list jsstring) : list jsstring :=
  match sectionLines with
  | [] => []
  | _ =>
      let text := join (u " ") sectionLines in
      if includes text (u ",")
      then filter (fun s => 0 <? length s) (map trim (split (u ",") text))
      else filter (fun s => 0 <? length s)
             (map (fun line => stripBullet (trim line)) sectionLines)
  end.

(** [/(\d{4}|\w+\s+\d{4}|present|current)/i] *)
Definition datePattern : regex :=
  alts [times 4 digit; seqs [plus word; plus space; times 4 digit];
        liti "present"; liti "current"].

(** [/\||,|\(/] *)
Definition partSeparator : regex := alts [ch "|"; ch ","; ch "("].

(** The duration pattern of detectExperience (flag [i]). *)
Definition durationPattern : regex :=
  let monthYear := seqs [plus word; plus space; times 4 digit] in
  let sep := seqs [star space; dash; star space] in
  alts [seqs [monthYear; sep; monthYear];
        seqs [monthYear; sep; liti "present"];
        seqs [times 4 digit; sep; times 4 digit]].

(** The entry a header line opens. *)
Definition experienceHeader (trimmed : jsstring) : Exp.t :=
  let parts := map trim (split_re partSeparator trimmed) in
  let '(role, company) :=
    match parts with
    | firstPart :: _ =>
        if includes (toLowerCase firstPart) (u " at ")
        then
          let rc := map trim (split (u " at ") firstPart) in
          (nth 0 rc [], nth_error rc 1)
        else (firstPart, Some [])
    | [] => ([], Some [])
    end in
  let duration :=
    match match1 durationPattern trimmed with
    | Some (_, m) => m
    | None => []
    end in
  Exp.mk role company duration [] [].

Definition pushOpt {A} (l : list A) (x : option A) : list A :=
  match x with Some a => l ++ [a] | None => l end.

(** The [for] loop of detectExperience: the entries pushed so far and
    the open entry. *)
Fixpoint detectExperience_loop (todo : list jsstring)
  (experiences : list Exp.t) (currentExp : option Exp.t)
  : list Exp.t * option Exp.t :=
  match todo with
  | [] => (experiences, currentExp)
  | line :: todo' =>
      let trimmed := trim line in
      if negb (truthy trimmed) then detectExperience_loop todo' experiences currentExp
      else if test datePattern trimmed then
        detectExperience_loop todo' (pushOpt experiences currentExp)
          (Some (experienceHeader trimmed))
      else
        match currentExp with
        | Some e =>
            let cleaned := stripBullet trimmed in
            let e' :=
              if 0 <? length cleaned
              then Exp.mk (Exp.role e) (Exp.company e)
                     (Exp.duration e) (Exp.description e)
                     (Exp.highlights e ++ [cleaned])
              else e in
            detectExperience_loop todo' experiences (Some e')
        | None => detectExperience_loop todo' experiences currentExp
        end
  end.

Definition detectExperience (sectionLines : list jsstring) : list Exp.t :=
  match sectionLines with
  | [] => []
  | _ =>
      let '(experiences, currentExp) := detectExperience_loop sectionLines [] None in
      map (fun e => Exp.mk (Exp.role e) (Exp.company e)
                      (Exp.duration e)
                      (join (u " ") (Exp.highlights e))
                      (Exp.highlights e))
          (pushOpt experiences currentExp)
  end.

(** One description or tech-stack line of an open project. *)
Definition projectLine (cleaned : jsstring) (p : Proj.t) : Proj.t :=
  let lower := toLowerCase cleaned in
  let p1 :=
    if includes lower (u "technologies:") || includes lower (u "tech stack:")
       || includes lower (u "built with:")
    then
      match nth_error (split (u ":") cleaned) 1 with
      | Some techPart =>
          if truthy techPart
          then Proj.mk (Proj.title p) (map trim (split (u ",") techPart))
                 (Proj.description p) (Proj.link p)
          else p
      | None => p
      end
    else
      Proj.mk (Proj.title p) (Proj.tech p)
        (Proj.description p
           ++ (if truthy (Proj.description p) then u " " else []) ++ cleaned)
        (Proj.link p) in
  match match1 urlPattern cleaned with
  | Some (_, m) =>
      Proj.mk (Proj.title p1) (Proj.tech p1) (Proj.description p1) (Some m)
  | None => p1
  end.

Fixpoint detectProjects_loop (todo : list jsstring)
  (projects : list Proj.t) (currentProject : option Proj.t)
  : list Proj.t * option Proj.t :=
  match todo with
  | [] => (projects, currentProject)
  | line :: todo' =>
      let trimmed := trim line in
      if negb (truthy trimmed) then detectProjects_loop todo' projects currentProject
      else
        let isBullet := test bulletStart trimmed in
        if negb isBullet && (5 <? length trimmed) && negb (includes trimmed (u ":"))
        then detectProjects_loop todo' (pushOpt projects currentProject)
               (Some (Proj.mk trimmed [] [] None))
        else
          match currentProject with
          | Some p =>
              detectProjects_loop todo' projects
                (Some (projectLine (stripBullet trimmed) p))
          | None => detectProjects_loop todo' projects currentProject
          end
  end.

Definition detectProjects (sectionLines : list jsstring) : list Proj.t :=
  match sectionLines with
  | [] => []
  | _ =>
      let '(projects, currentProject) := detectProjects_loop sectionLines [] None in
      pushOpt projects currentProject
  end.

(** The degree keywords (flag [i]) and [/\d{4}/]. *)
Definition degreePattern : regex :=
  alts [liti "bachelor"; liti "master"; liti "phd"; liti "doctorate";
        liti "b.s."; liti "m.s."; liti "b.a."; liti "m.a.";
        liti "b.tech"; liti "m.tech"].

Definition yearPattern : regex := times 4 digit.

Fixpoint detectEducation_loop (todo : list jsstring)
  (education : list Edu.t) (currentEdu : option Edu.t)
  : list Edu.t * option Edu.t :=
  match todo with
  | [] => (education, currentEdu)
  | line :: todo' =>
      let trimmed := trim line in
      if negb (truthy trimmed) then detectEducation_loop todo' education currentEdu
      else if test degreePattern trimmed then
        let year :=
          match match1 yearPattern trimmed with
          | Some (_, m) => m
          | None => []
          end in
        detectEducation_loop todo' (pushOpt education currentEdu)
          (Some (Edu.mk trimmed [] year []))
      else
        match currentEdu with
        | Some e =>
            if negb (truthy (Edu.institution e)) && (5 <? length trimmed)
            then detectEducation_loop todo' education
                   (Some (Edu.mk (Edu.degree e) trimmed
                            (Edu.year e) (Edu.details e)))
            else detectEducation_loop todo' education
                   (Some (Edu.mk (Edu.degree e) (Edu.institution e)
                            (Edu.year e)
                            (Edu.details e
                               ++ (if truthy (Edu.details e) then u " " else [])
                               ++ trimmed)))
        | None => detectEducation_loop todo' education currentEdu
        end
  end.

Definition detectEducation (sectionLines : list jsstring) : list Edu.t :=
  match sectionLines with
  | [] => []
  | _ =>
      let '(education, currentEdu) := detectEducation_loop sectionLines [] None in
      pushOpt education currentEdu
  end.

(** *** detectSections *)

Definition detectSections (text : jsstring) : M DetectedSections :=
  let lines := filter nonBlank (split [10%N] text) in
  name <- detectName lines ;;
  contact <- detectContact text ;;
  links <- detectLinks text ;;
  let sections := findSections lines in
  ret {| name := Some name;
         contact := contact;
         links := links;
         summary := detectSummary (sections Key.summary);
         skills := detectSkills (sections Key.skills);
         experience := detectExperience (sections Key.experience);
         projects := detectProjects (sections Key.projects);
         education := detectEducation (sections Key.education) |}.

End Detectors.

End SectionDetector.

Module SD := SectionDetector.

(** ** Normalizer (normalizer.js) *)

Module Normalizer.

Module SkillGroup.
Record t := mk { category : jsstring; items : list jsstring }.
End SkillGroup.

Module Exp.
Record t := mk {
  role : jsstring;
  company : jsstring;
  duration : jsstring;
  description : jsstring;
  highlights : list jsstring
}.
End Exp.

Module Proj.
Record t := mk {
  title : jsstring;
  tech : list jsstring;
  description : jsstring;
  link : option jsstring;
  image : option jsstring
}.
End Proj.

Module Edu.
Record t := mk {
  degree : jsstring;
  institution : jsstring;
  year : jsstring;
  details : jsstring
}.
End Edu.

Record Links := {
  github : option jsstring;
  linkedin : option jsstring;
  email : option jsstring;
  phone : option jsstring;
  website : option jsstring
}.

Record Colors := { primary : jsstring; secondary : jsstring; accent : jsstring }.
Record Fonts := { heading : jsstring; body : jsstring }.
Record Customizations := { colors : Colors; fonts : Fonts; layout : jsstring }.

Record PortfolioRecord := {
  name : jsstring;
  headline : jsstring;
  summary : jsstring;
  skills : list SkillGroup.t;
  experience : list Exp.t;
  projects : list Proj.t;
  education : list Edu.t;
  links : Links;
  theme : jsstring;
  customizations : Customizations
}.

Definition normalizeName (rawName : option jsstring) : jsstring :=
  match rawName with
  | None => u "Portfolio Owner"
  | Some n =>
      if negb (truthy n) || str_eqb n (u "Unknown") then u "Portfolio Owner"
      else trim n
  end.

Definition generateHeadline (name : jsstring) (experience : list Exp.t) : jsstring :=
  match experience with
  | e :: _ => if truthy (Exp.role e) then Exp.role e else u "Professional"
  | [] => u "Professional"
  end.

Section Skills.

Variable toLowerCase : jsstring -> jsstring.

(** The keyword table, in the order of [Object.entries(categories)]. *)
Definition categories : list (jsstring * list jsstring) :=
  [ (u "Languages", map u ["javascript"; "python"; "java"; "c++"; "c#"; "ruby";
        "go"; "rust"; "typescript"; "php"; "swift"; "kotlin"]%string);
    (u "Frontend", map u ["react"; "vue"; "angular"; "html"; "css"; "tailwind";
        "bootstrap"; "sass"; "less"]%string);
    (u "Backend", map u ["node"; "express"; "django"; "flask"; "spring";
        "laravel"; ".net"; "fastapi"; "nestjs"]%string);
    (u "Database", map u ["mongodb"; "postgresql"; "mysql"; "redis"; "dynamodb";
        "sql"; "nosql"; "firebase"]%string);
    (u "DevOps", map u ["docker"; "kubernetes"; "aws"; "azure"; "gcp"; "ci/cd";
        "jenkins"; "github actions"]%string);
    (u "Tools", map u ["git"; "github"; "gitlab"; "jira"; "figma"; "postman";
        "vscode"]%string) ].

(** The [categorized] object, keys in insertion order. *)
Definition Categorized := list (jsstring * list jsstring).

Definition categorized0 : Categorized :=
  map (fun c => (u c, [])) ["Languages"; "Frontend"; "Backend"; "Database";
                            "DevOps"; "Tools"; "Other"]%string.

(** [categorized[category].push(skill)] *)
Definition pushSkill (category skill : jsstring) (c : Categorized) : Categorized :=
  map (fun e => if str_eqb (fst e) category then (fst e, snd e ++ [skill]) else e) c.

(** The body of [rawSkills.forEach]. *)
Definition categorize (c : Categorized) (skill : jsstring) : Categorized :=
  let skillLower := toLowerCase skill in
  match find (fun e => existsb (fun keyword => includes skillLower keyword) (snd e))
          categories with
  | Some e => pushSkill (fst e) skill c
  | None => pushSkill (u "Other") skill c
  end.

Definition normalizeSkills (rawSkills : list jsstring) : list SkillGroup.t :=
  match rawSkills with
  | [] => []
  | _ =>
      map (fun e => SkillGroup.mk (fst e) (snd e))
        (filter (fun e => 0 <? length (snd e))
           (fold_left categorize rawSkills categorized0))
  end.

End Skills.

Definition normalizeExperience (rawExperience : list SD.Exp.t) : list Exp.t :=
  match rawExperience with [] => [] | _ =>
  map (fun exp =>
         Exp.mk (orElse (Some (SD.Exp.role exp)) (u "Position"))
                (orElse (SD.Exp.company exp) [])
                (orElse (Some (SD.Exp.duration exp)) [])
                (orElse (Some (SD.Exp.description exp)) [])
                (SD.Exp.highlights exp))
      rawExperience
  end.

Definition normalizeProjects (rawProjects : list SD.Proj.t) : list Proj.t :=
  match rawProjects with [] => [] | _ =>
  map (fun project =>
         Proj.mk (orElse (Some (SD.Proj.title project)) (u "Untitled Project"))
                 (SD.Proj.tech project)
                 (orElse (Some (SD.Proj.description project)) [])
                 (orNull (SD.Proj.link project))
                 None)
      rawProjects
  end.

Definition normalizeEducation (rawEducation : list SD.Edu.t) : list Edu.t :=
  match rawEducation with [] => [] | _ =>
  map (fun edu =>
         Edu.mk (orElse (Some (SD.Edu.degree edu)) [])
                (orElse (Some (SD.Edu.institution edu)) [])
                (orElse (Some (SD.Edu.year edu)) [])
                (orElse (Some (SD.Edu.details edu)) []))
      rawEducation
  end.

Definition normalizeLinks (contact : SD.Contact) (links : SD.Links) : Links :=
  {| github := orNull (SD.github links);
     linkedin := orNull (SD.linkedin links);
     email := orNull (SD.email contact);
     phone := orNull (SD.phone contact);
     website := orNull (SD.website links) |}.

Definition createPortfolioSchema (toLowerCase : jsstring -> jsstring)
  (detectedSections : SD.DetectedSections) : PortfolioRecord :=
  let name := normalizeName (SD.name detectedSections) in
  let skills := normalizeSkills toLowerCase (SD.skills detectedSections) in
  let experience := normalizeExperience (SD.experience detectedSections) in
  let projects := normalizeProjects (SD.projects detectedSections) in
  let education := normalizeEducation (SD.education detectedSections) in
  let links := normalizeLinks (SD.contact detectedSections) (SD.links detectedSections) in
  {| name := name;
     headline := generateHeadline name experience;
     summary := orElse (SD.summary detectedSections) [];
     skills := skills;
     experience := experience;
     projects := projects;
     education := education;
     links := links;
     theme := u "modern";
     customizations :=
       {| colors := {| primary := u "#3B82F6"; secondary := u "#1E40AF";
                       accent := u "#60A5FA" |};
          fonts := {| heading := u "Inter"; body := u "Inter" |};
          layout := u "default" |} |}.

End Normalizer.

Module NZ := Normalizer.

(** ** Text extractor (textExtractor.js) *)

Module TextExtractor.

(** What the host provides: reading and decoding a file either gives
    its text or raises an error with a message. *)
Record Host := {
  pdfText : jsstring -> jsstring + jsstring;     (* fs.readFile, then pdf-parse *)
  docxText : jsstring -> jsstring + jsstring;    (* mammoth.extractRawText *)
  readUtf8 : jsstring -> jsstring + jsstring     (* fs.readFile(path, 'utf-8') *)
}.

(** The calls made to the host and the lines written to the console, in
    order. *)
Inductive Event :=
| ReadPDF (filePath : jsstring)
| ReadDOCX (filePath : jsstring)
| ReadTXT (filePath : jsstring)
| LogStart | LogStep1 | LogStep2 | LogStep3 | LogStep4 | LogCompleted
| LogFailed (message : jsstring).

(** A computation that performs events and returns or throws ([inl] is
    the message of the thrown [Error]). *)
Definition IO (A : Type) : Type := list Event * (jsstring + A).

Definition extractFromPDF (h : Host) (filePath : jsstring) : IO jsstring :=
  ([ReadPDF filePath],
   match pdfText h filePath with
   | inl message => inl (u "Failed to extract text from PDF: " ++ message)
   | inr text => inr text
   end).

Definition extractFromDOCX (h : Host) (filePath : jsstring) : IO jsstring :=
  ([ReadDOCX filePath],
   match docxText h filePath with
   | inl message => inl (u "Failed to extract text from DOCX: " ++ message)
   | inr text => inr text
   end).

Definition extractFromTXT (h : Host) (filePath : jsstring) : IO jsstring :=
  ([ReadTXT filePath],
   match readUtf8 h filePath with
   | inl message => inl (u "Failed to read TXT file: " ++ message)
   | inr text => inr text
   end).

Definition newline : jsstring := [10%N].

(** [/\n{3,}/g] *)
Definition newlines3 : regex := Rep 3 None (Chr (N.eqb 10)).

Definition normalizeText (rawText : jsstring) : jsstring :=
  replace_g newlines3 (newline ++ newline)
    (join newline
       (filter (fun line => 0 <? length line)
          (map trim (split newline rawText)))).

Definition extractText (h : Host) (filePath mimetype : jsstring) : IO jsstring :=
  let '(events, rawText) :=
    if str_eqb mimetype (u "application/pdf") then extractFromPDF h filePath
    else if str_eqb mimetype
              (u "application/vnd.openxmlformats-officedocument.wordprocessingml.document")
    then extractFromDOCX h filePath
    else if str_eqb mimetype (u "text/plain") then extractFromTXT h filePath
    else ([], inl (u "Unsupported file type: " ++ mimetype)) in
  (events,
   match rawText with
   | inl message => inl message
   | inr text => inr (normalizeText text)
   end).

End TextExtractor.

Module TE := TextExtractor.

(** ** Parsing service (parseResume) *)

Module ResumeParser.

Import TextExtractor.

Record Options := { useAI : option bool }.

(** [process.env] *)
Record Env := { OPENAI_API_KEY : option jsstring }.

Record SectionsFound := {
  hasName : bool;
  hasContact : bool;
  hasSkills : bool;
  hasExperience : bool;
  hasProjects : bool;
  hasEducation : bool
}.

Record Metadata := { textLength : nat; sectionsFound : SectionsFound }.

(** The object [parseResume] resolves to; a key the object does not have
    is [None], and so is [data: null]. *)
Record ParseResult := {
  success : bool;
  data : option Normalizer.PortfolioRecord;
  metadata : option Metadata;
  error : option jsstring
}.

Definition truthyOpt (x : option jsstring) : bool :=
  match x with Some s => truthy s | None => false end.

Definition tooShort : jsstring :=
  u "Extracted text is too short. Please ensure the resume has readable content.".

Definition failure (events : list Event) (message : jsstring)
  : list Event * ParseResult :=
  (events ++ [LogFailed message],
   {| success := false; data := None; metadata := None; error := Some message |}).

Section Parse.

Variable toLowerCase : jsstring -> jsstring.
Variable host : Host.
Variable env : Env.

(** [parseResume]: the events performed, the result, and the state in
    which the section detector's regular expressions are left. *)
Definition parseResume (filePath mimetype : jsstring) (options : Options)
  (st : SD.PatternState) : list Event * ParseResult * SD.PatternState :=
  let '(ev1, extracted) := extractText host filePath mimetype in
  let events := [LogStart; LogStep1] ++ ev1 in
  match extracted with
  | inl message => (failure events message, st)
  | inr rawText =>
      if negb (truthy rawText) || (length rawText <? 50)
      then (failure events tooShort, st)
      else
        let '(detectedSections, st') := SD.detectSections toLowerCase rawText st in
        let portfolioData :=
          Normalizer.createPortfolioSchema toLowerCase detectedSections in
        let step4 :=
          match useAI options with
          | Some true => if truthyOpt (OPENAI_API_KEY env) then [LogStep4] else []
          | _ => []
          end in
        (events ++ [LogStep2; LogStep3] ++ step4 ++ [LogCompleted],
         {| success := true;
            data := Some portfolioData;
            metadata :=
              Some {| textLength := length rawText;
                      sectionsFound :=
                        {| hasName := truthyOpt (SD.name detectedSections);
                           hasContact :=
                             truthyOpt (SD.email (SD.contact detectedSections))
                             || truthyOpt (SD.phone (SD.contact detectedSections));
                           hasSkills := 0 <? length (SD.skills detectedSections);
                           hasExperience := 0 <? length (SD.experience detectedSections);
                           hasProjects := 0 <? length (SD.projects detectedSections);
                           hasEducation := 0 <? length (SD.education detectedSections) |} |};
            error := None |},
         st')
  end.

End Parse.

End ResumeParser.

Module RP := ResumeParser.

(** ** Error-handling middleware (errorHandler.js) *)

Module ErrorHandler.

(** The properties of [err] that the handler reads.  [message] is a
    string, as it is for every [Error]; [code] and [name] are [None] when
    they are not strings; [statusCode], a number when it is there, and
    [stack] are [None] when they are [undefined]. *)
Module Err.
Record t := mk {
  code : option jsstring;
  message : jsstring;
  name : option jsstring;
  statusCode : option nat;
  stack : option jsstring
}.
End Err.

(** The JSON body of the response; a key that is not written is
    [None]. *)
Module Body.
Record t := mk {
  success : bool;
  error : jsstring;
  details : option jsstring;
  stack : option jsstring
}.
End Body.

(** [res.status(status).json(body)], after [console.error] of [err]. *)
Record Outcome := {
  consoleError : Err.t;
  status : nat;
  body : Body.t
}.

(** [x === s] for a string literal [s]. *)
Definition strictEq (x : option jsstring) (s : jsstring) : bool :=
  match x with Some v => str_eqb v s | None => false end.

(** [process.env.NODE_ENV] is [NODE_ENV]. *)
Definition errorHandler (NODE_ENV : option jsstring) (err : Err.t) : Outcome :=
  let respond := Build_Outcome err in
  if strictEq (Err.code err) (u "LIMIT_FILE_SIZE") then
    respond 400 (Body.mk false (u "File size too large. Maximum size is 5MB.")
                   None None)
  else if includes (Err.message err) (u "Invalid file type") then
    respond 400 (Body.mk false (Err.message err) None None)
  else if strictEq (Err.name err) (u "ValidationError") then
    respond 400 (Body.mk false (u "Invalid data provided")
                   (Some (Err.message err)) None)
  else if strictEq (Err.name err) (u "CastError") then
    respond 400 (Body.mk false (u "Invalid ID format") None None)
  else
    let statusCode :=
      match Err.statusCode err with
      | Some 0 | None => 500
      | Some n => n
      end in
    let message :=
      if strictEq NODE_ENV (u "production") then u "An error occurred. Please try again."
      else Err.message err in
    respond statusCode
      (Body.mk false message None
         (if strictEq NODE_ENV (u "development") then Err.stack err else None)).

End ErrorHandler.

Module EH := ErrorHandler.

(** ** The portfolio record as a JSON value

    The object literals of normalizer.js, key by key, as a tree whose
    leaves are strings and [null]; [nullPaths] lists where the [null]s
    are. *)

Module Json.

Local Unset Elimination Schemes.

Inductive value :=
| Null
| Str (s : jsstring)
| Arr (elements : list value)
| Obj (fields : list (string * value)).

Local Set Elimination Schemes.

Inductive step := Key (k : string) | Index (i : nat).

Definition path := list step.

Fixpoint nullPaths (v : value) : list path :=
  match v with
  | Null => [[]]
  | Str _ => []
  | Arr l =>
      (fix elements (i : nat) (l : list value) : list path :=
         match l with
         | [] => []
         | x :: l' => map (cons (Index i)) (nullPaths x) ++ elements (S i) l'
         end) 0 l
  | Obj fs =>
      (fix fields (fs : list (string * value)) : list path :=
         match fs with
         | [] => []
         | kx :: fs' => map (cons (Key (fst kx))) (nullPaths (snd kx)) ++ fields fs'
         end) fs
  end.

(** The same two traversals as functions of their own. *)
Fixpoint elementPaths (i : nat) (l : list value) : list path :=
  match l with
  | [] => []
  | x :: l' => map (cons (Index i)) (nullPaths x) ++ elementPaths (S i) l'
  end.

Fixpoint fieldPaths (fs : list (string * value)) : list path :=
  match fs with
  | [] => []
  | kx :: fs' => map (cons (Key (fst kx))) (nullPaths (snd kx)) ++ fieldPaths fs'
  end.

(** [v[k]] *)
Definition field (k : string) (v : value) : option value :=
  match v with
  | Obj fs => option_map snd (find (fun kx => String.eqb (fst kx) k) fs)
  | _ => None
  end.

Definition ofOption (x : option jsstring) : value :=
  match x with Some s => Str s | None => Null end.

Definition ofStrings (l : list jsstring) : value := Arr (map Str l).

Import Normalizer.

Definition ofSkillGroup (g : SkillGroup.t) : value :=
  Obj [("category", Str (SkillGroup.category g));
       ("items", ofStrings (SkillGroup.items g))]%string.

Definition ofExperience (e : Exp.t) : value :=
  Obj [("role", Str (Exp.role e)); ("company", Str (Exp.company e));
       ("duration", Str (Exp.duration e));
       ("description", Str (Exp.description e));
       ("highlights", ofStrings (Exp.highlights e))]%string.

Definition ofProject (p : Proj.t) : value :=
  Obj [("title", Str (Proj.title p)); ("tech", ofStrings (Proj.tech p));
       ("description", Str (Proj.description p));
       ("link", ofOption (Proj.link p)); ("image", ofOption (Proj.image p))]%string.

Definition ofEducation (e : Edu.t) : value :=
  Obj [("degree", Str (Edu.degree e)); ("institution", Str (Edu.institution e));
       ("year", Str (Edu.year e)); ("details", Str (Edu.details e))]%string.

Definition ofLinks (l : Links) : value :=
  Obj [("github", ofOption (github l)); ("linkedin", ofOption (linkedin l));
       ("email", ofOption (email l)); ("phone", ofOption (phone l));
       ("website", ofOption (website l))]%string.

Definition ofCustomizations (c : Customizations) : value :=
  Obj [("colors", Obj [("primary", Str (primary (colors c)));
                       ("secondary", Str (secondary (colors c)));
                       ("accent", Str (accent (colors c)))]);
       ("fonts", Obj [("heading", Str (heading (fonts c)));
                      ("body", Str (body (fonts c)))]);
       ("layout", Str (layout c))]%string.

Definition ofPortfolio (r : PortfolioRecord) : value :=
  Obj [("name", Str (name r));
       ("headline", Str (headline r));
       ("summary", Str (summary r));
       ("skills", Arr (map ofSkillGroup (skills r)));
       ("experience", Arr (map ofExperience (experience r)));
       ("projects", Arr (map ofProject (projects r)));
       ("education", Arr (map ofEducation (education r)));
       ("links", ofLinks (links r));
       ("theme", Str (theme r));
       ("customizations", ofCustomizations (customizations r))]%string.

(** The value at the end of a path, if the path leads somewhere. *)
Fixpoint get (p : path) (v : value) : option value :=
  match p with
  | [] => Some v
  | Key k :: p' =>
      match field k v with Some x => get p' x | None => None end
  | Index i :: p' =>
      match v with
      | Arr l => match nth_error l i with Some x => get p' x | None => None end
      | _ => None
      end
  end.

End Json.

(** ** Inputs on which the model is run *)

Module Sample.

(** [toLowerCase] on ASCII text. *)
Definition toLowerCase (s : jsstring) : jsstring :=
  map (fun c => if isUpper c then (c + 32)%N else c) s.

(** The DetectedSections with every field absent or empty. *)
Definition allNull : SectionDetector.DetectedSections :=
  {| SectionDetector.name := None;
     SectionDetector.contact :=
       {| SectionDetector.email := None; SectionDetector.phone := None |};
     SectionDetector.links :=
       {| SectionDetector.github := None; SectionDetector.linkedin := None;
          SectionDetector.website := None |};
     SectionDetector.summary := None;
     SectionDetector.skills := [];
     SectionDetector.experience := [];
     SectionDetector.projects := [];
     SectionDetector.education := [] |}.

(** A DetectedSections with values present, empty and absent. *)
Definition partlyDetected : SectionDetector.DetectedSections :=
  {| SectionDetector.name := Some (u "Jane Doe");
     SectionDetector.contact :=
       {| SectionDetector.email := Some (u "jane@doe.io");
          SectionDetector.phone := Some [] |};
     SectionDetector.links :=
       {| SectionDetector.github := Some (u "https://github.com/jane");
          SectionDetector.linkedin := None;
          SectionDetector.website := None |};
     SectionDetector.summary := None;
     SectionDetector.skills := [u "Rust"];
     SectionDetector.experience := [];
     SectionDetector.projects :=
       [SectionDetector.Proj.mk (u "Parser") [u "Rust"] (u "A parser.")
          (Some (u "https://parser.dev"));
        SectionDetector.Proj.mk (u "Lexer") [] [] None];
     SectionDetector.education := [] |}.

(** A resume of 50 code units whose only experience header has nothing
    before its date, the same without its last character (49 code
    units), and the first as a file would hold it, with blank lines and
    padding. *)
Definition resume50 : jsstring :=
  join [10%N] [u "Jane Doe"; u "Experience"; u "| 2020 - 2023"; u "- Built parsers."].

Definition resume49 : jsstring :=
  join [10%N] [u "Jane Doe"; u "Experience"; u "| 2020 - 2023"; u "- Built parsers"].

Definition resumeFile : jsstring :=
  join [10%N] [u "  Jane Doe  "; []; []; []; u "Experience"; u "   ";
               u "| 2020 - 2023"; u "- Built parsers."; []].

(** A host with three text files and no readable PDF or DOCX. *)
Definition host : TextExtractor.Host :=
  {| TextExtractor.pdfText := fun _ => inl (u "Invalid PDF structure");
     TextExtractor.docxText := fun _ => inl (u "Could not find file in options");
     TextExtractor.readUtf8 := fun filePath =>
       if str_eqb filePath (u "resume.txt") then inr resumeFile
       else if str_eqb filePath (u "short.txt") then inr resume49
       else inl (u "ENOENT: no such file or directory") |}.

Definition noKey : ResumeParser.Env := {| ResumeParser.OPENAI_API_KEY := None |}.

(** Two sections one after the other, and a section opened twice. *)
Definition twoSections : list jsstring :=
  [u "Skills"; u "Python, Rust"; u "Education"; u "MIT"].

Definition reopened : list jsstring :=
  [u "Skills"; u "Python"; u "Education"; u "MIT"; u "Skills"; u "Rust"].

(** Lines on which two calls of detectName in a row differ. *)
Definition contactLines : list jsstring :=
  [u "a@b.co c@d.co"; u "Jane Doe J@x.io"; u "x"; u "q@r.st"].

End Sample.

(** ** Vocabulary of the properties *)

(** A continuation is within bounds when the end index it returns lies
    between the index it is called at and the length [L] of the input. *)
Definition within (L i : nat) (k : nat -> jsstring -> option nat) : Prop :=
  forall i' s' e, i <= i' -> i' + length s' = L -> k i' s' = Some e ->
                  i' <= e <= L.

(** The section a line opens, if it is a header. *)
Definition headerAt (lines : list jsstring) (k : nat) : option SD.SectionName :=
  match nth_error lines k with
  | Some l => SD.foundSection (trim l)
  | None => None
  end.

(** The state of the loop of findSections once it has gone through the
    first [n] lines. *)
Definition findSections_after (lines : list jsstring) (n : nat) : SD.FindState :=
  SD.findSections_loop lines 0 (firstn n lines) SD.findSections_init.

(** A detected value that [x || null] turns into [null]: [null],
    [undefined] or the empty string. *)
Definition absent (x : option jsstring) : Prop := x = None \/ x = Some [].

(** The detected value that normalizeLinks reads for each key of
    [links]. *)
Definition detectedLinks (d : SD.DetectedSections) : list (string * option jsstring) :=
  [("github", SD.github (SD.links d)); ("linkedin", SD.linkedin (SD.links d));
   ("email", SD.email (SD.contact d)); ("phone", SD.phone (SD.contact d));
   ("website", SD.website (SD.links d))]%string.

(** The [null] leaves of the record made from [d]: a key of [links] whose
    detected value is absent or empty, the [link] of a project whose
    detected link is absent or empty, and the [image] of every
    project. *)
Definition nullLeaf (d : SD.DetectedSections) (p : Json.path) : Prop :=
  (exists k x, In (k, x) (detectedLinks d) /\ absent x
               /\ p = [Json.Key "links"; Json.Key k])
  \/ (exists i project,
        nth_error (SD.projects d) i = Some project
        /\ ((absent (SD.Proj.link project)
             /\ p = [Json.Key "projects"; Json.Index i; Json.Key "link"])
            \/ p = [Json.Key "projects"; Json.Index i; Json.Key "image"])).

(** The object returned for a failure. *)
Definition failed (message : jsstring) : RP.ParseResult :=
  {| RP.success := false; RP.data := None; RP.metadata := None;
     RP.error := Some message |}.

(** The three MIME types extractText accepts. *)
Definition supported (mimetype : jsstring) : Prop :=
  mimetype = u "application/pdf"
  \/ mimetype
     = u "application/vnd.openxmlformats-officedocument.wordprocessingml.document"
  \/ mimetype = u "text/plain".

(** A string that [trimStart] leaves alone: empty, or starting with a
    code unit that is not white space. *)
Definition startsClean (s : jsstring) : Prop :=
  match s with [] => True | c :: _ => isWhiteSpace c = false end.

(** A line of a normalized text: not empty, without a line break, and
    already trimmed. *)
Definition cleanLine (l : jsstring) : Prop :=
  l <> [] /\ ~ In 10%N l /\ trim l = l.

(** No two line breaks next to each other. *)
Fixpoint noDoubleBreak (s : jsstring) : bool :=
  match s with
  | a :: (b :: _) as s' => negb ((a =? 10) && (b =? 10))%N && noDoubleBreak s'
  | _ => true
  end.

(** The lines normalizeText keeps, before they are joined. *)
Definition keptLines (rawText : jsstring) : list jsstring :=
  filter (fun line => 0 <? length line) (map trim (split TE.newline rawText)).

(** What the loop keeps true at index [i]: every stored line is a line of
    the input that is not a header, and when a section is open, no line
    from its start index up to [i] is a header. *)
Definition contentInvariant (lines : list jsstring) (i : nat) (st : SD.FindState)
  : Prop :=
  (forall name l, In l (SD.sections st name) ->
                  In l lines /\ SD.foundSection (trim l) = None) /\
  (forall cur, SD.currentSection st = Some cur ->
               exists start, SD.sectionStartIndex st = Z.of_nat start /\ start <= S i /\
                             forall k, start <= k < i -> headerAt lines k = None).

(** The lower case of an ASCII letter; any other code unit as it is. *)
Definition foldCase (c : N) : N := if isUpper c then (c + 32)%N else c.

(** The alternatives of each pattern of [SECTION_PATTERNS]. *)
Definition headerWords (name : SD.SectionName) : list string :=
  match name with
  | SD.Key.summary =>
      ["summary"; "objective"; "profile"; "about"; "about me";
       "professional summary"]
  | SD.Key.skills =>
      ["skills"; "technical skills"; "core competencies"; "expertise";
       "technologies"]
  | SD.Key.experience =>
      ["experience"; "work experience"; "employment";
       "professional experience"; "work history"]
  | SD.Key.projects =>
      ["projects"; "personal projects"; "key projects"; "portfolio"]
  | SD.Key.education =>
      ["education"; "academic"; "qualifications"; "academic background"]
  end%string.

Definition sectionNames : list SD.SectionName :=
  [SD.Key.summary; SD.Key.skills; SD.Key.experience; SD.Key.projects;
   SD.Key.education].

(** A line begins, letter case apart, with one of the header words of
    the section. *)
Definition beginsWithHeader (name : SD.SectionName) (line : jsstring) : bool :=
  existsb (fun w => startsWith (u w) (map foldCase line)) (headerWords name).

(** A match at the start of the line. *)
Definition matchesAtStart (r : regex) (line : jsstring) : bool :=
  match match_at r 0 line with Some _ => true | None => false end.

(** No header word of one section begins a header word of another. *)
Definition wordsApart (n m : SD.SectionName) : bool :=
  forallb (fun a =>
             forallb (fun b => negb (startsWith (u a) (u b))
                               && negb (startsWith (u b) (u a)))
                     (headerWords m))
          (headerWords n).

(** The lines that open an entry in each of the three detectors. *)
Definition opensExperience (line : jsstring) : bool :=
  truthy (trim line) && test SD.datePattern (trim line).

Definition opensProject (line : jsstring) : bool :=
  truthy (trim line) && negb (test SD.bulletStart (trim line))
  && (5 <? length (trim line)) && negb (includes (trim line) (u ":")).

Definition opensEducation (line : jsstring) : bool :=
  truthy (trim line) && test SD.degreePattern (trim line).

(** The keys of [categorized], in insertion order. *)
Definition categoryNames : list jsstring :=
  map u ["Languages"; "Frontend"; "Backend"; "Database"; "DevOps"; "Tools";
         "Other"]%string.

(** The category a skill goes to: the first one with a keyword that the
    lower-cased skill includes, or else [Other]. *)
Definition categoryOf (toLowerCase : jsstring -> jsstring) (skill : jsstring)
  : jsstring :=
  match find (fun e => existsb (fun keyword => includes (toLowerCase skill) keyword)
                         (snd e)) NZ.categories with
  | Some e => fst e
  | None => u "Other"
  end.

(** The raw skills of one category, in the order of the input. *)
Definition skillsOf (toLowerCase : jsstring -> jsstring) (category : jsstring)
  (rawSkills : list jsstring) : list jsstring :=
  filter (fun skill => str_eqb (categoryOf toLowerCase skill) category) rawSkills.

(** The strings a pattern can match when the match starts at index [i].
    A quantifier matches a sequence of pieces of its body; their number
    is the least the matcher accepts, or more, up to the maximum. *)
Fixpoint lang (r : regex) (i : nat) (s : jsstring) {struct r} : Prop :=
  match r with
  | Eps => s = []
  | Chr p => exists c, s = [c] /\ p c = true
  | Bol => s = [] /\ i = 0
  | Seq r1 r2 =>
      exists s1 s2, s = s1 ++ s2 /\ lang r1 i s1 /\ lang r2 (i + length s1) s2
  | Alt r1 r2 => lang r1 i s \/ lang r2 i s
  | Rep mn mx r' =>
      exists pieces,
        s = concat pieces /\
        (mn <= length pieces \/ mx = Some (length pieces)) /\
        (forall m, mx = Some m -> length pieces <= m) /\
        (fix each (i : nat) (l : list jsstring) : Prop :=
           match l with
           | [] => True
           | x :: l' => lang r' i x /\ each (i + length x) l'
           end) i pieces
  end.

(** What the continuation is given, and what it answers, when the
    matcher succeeds on [r]. *)
Definition matchedBy (r : regex) (i : nat) (s : jsstring)
  (k : nat -> jsstring -> option nat) (e : nat) : Prop :=
  exists s1 s2, s = s1 ++ s2 /\ lang r i s1 /\ k (i + length s1) s2 = Some e.

(** [[a-zA-Z0-9_-]] and [[a-zA-Z0-9._-]] as sets of code units. *)
Definition handleChar (c : N) : bool := isAlnum c || oneOf [95; 45]%N c.
Definition handleDotChar (c : N) : bool := isAlnum c || oneOf [46; 95; 45]%N c.

(** [s] is a piece of [text]. *)
Definition occursIn (s text : jsstring) : Prop :=
  exists pre post, text = pre ++ s ++ post.

(** A profile path in [text]: [host], letter case apart, followed by a
    code unit of a handle. *)
Definition hasProfile (host : string) (text : jsstring) : Prop :=
  exists pre h c post,
    text = pre ++ h ++ c :: post /\ map foldCase h = u host /\ handleChar c = true.

(** What detectLinks makes of a profile path: the canonical [prefix]
    followed by the handle that follows [host] somewhere in [text]. *)
Definition profileLink (prefix host : string) (text link : jsstring) : Prop :=
  exists h user,
    occursIn (h ++ user) text /\ map foldCase h = u host
    /\ user <> [] /\ Forall (fun c => handleChar c = true) user
    /\ link = u prefix ++ user.

(** A URL as detectLinks takes it from the text: [http://] or
    [https://] in any letter case, then code units that are not white
    space, at least one. *)
Definition webUrl (url : jsstring) : Prop :=
  exists scheme rest,
    url = scheme ++ rest
    /\ (map foldCase scheme = u "http://" \/ map foldCase scheme = u "https://")
    /\ rest <> [] /\ Forall (fun c => isWhiteSpace c = false) rest.

(** An address of the shape [local@domain.tld]. *)
Definition emailShape (e : jsstring) : Prop :=
  exists local domain tld,
    e = local ++ [64%N] ++ domain ++ [46%N] ++ tld
    /\ local <> [] /\ domain <> [] /\ tld <> []
    /\ Forall (fun c => handleDotChar c = true) local
    /\ Forall (fun c => handleDotChar c = true) domain
    /\ Forall (fun c => handleChar c = true) tld.

(** The code units a phone number is made of: digits, [+], [(], [)],
    [-], [.] and white space. *)
Definition phoneChar (c : N) : bool :=
  isDigit c || oneOf [43; 40; 41; 45; 46]%N c || isWhiteSpace c.

(** The digits of a string. *)
Definition digitsOf (s : jsstring) : jsstring := filter isDigit s.

(** A string made of code units of a phone number, with between [lo]
    and [hi] digits. *)
Definition piece (lo hi : nat) (s : jsstring) : Prop :=
  Forall (fun c => phoneChar c = true) s
  /\ lo <= length (digitsOf s) <= hi.

(** What an entry of detectEducation is made of, given the lines of the
    section: its degree is a trimmed line with a degree keyword; its year
    is empty or four digits of the degree line; its institution is empty
    or a later trimmed line of more than five code units. *)
Definition educationEntry (sectionLines : list jsstring) (e : SD.Edu.t) : Prop :=
  (exists l, In l sectionLines /\ opensEducation l = true
             /\ SD.Edu.degree e = trim l)
  /\ (SD.Edu.year e = []
      \/ (length (SD.Edu.year e) = 4
          /\ Forall (fun c => isDigit c = true) (SD.Edu.year e)
          /\ occursIn (SD.Edu.year e) (SD.Edu.degree e)))
  /\ (SD.Edu.institution e = []
      \/ exists l, In l sectionLines /\ opensEducation l = false
                   /\ SD.Edu.institution e = trim l /\ 5 < length (trim l)).

(** The same for detectExperience: the entry comes from a dated line, its
    duration is empty or a piece of that line, and its highlights are
    lines of the section without their bullet, none of them empty. *)
Definition experienceEntry (sectionLines : list jsstring) (e : SD.Exp.t) : Prop :=
  (exists l, In l sectionLines /\ opensExperience l = true
             /\ (SD.Exp.duration e = [] \/ occursIn (SD.Exp.duration e) (trim l)))
  /\ Forall (fun h => h <> []
                      /\ exists l, In l sectionLines /\ opensExperience l = false
                                   /\ h = SD.stripBullet (trim l))
            (SD.Exp.highlights e).

(** The same for detectProjects: the title is a trimmed line that opens
    a project, and the link, if any, starts with [http://] or [https://]
    and has no white space. *)
Definition projectEntry (sectionLines : list jsstring) (p : SD.Proj.t) : Prop :=
  (exists l, In l sectionLines /\ opensProject l = true
             /\ SD.Proj.title p = trim l)
  /\ (forall link, SD.Proj.link p = Some link ->
        (exists rest, rest <> []
                      /\ (link = u "http://" ++ rest \/ link = u "https://" ++ rest))
        /\ Forall (fun c => isWhiteSpace c = false) link).

(** An error of one of the kinds whose message the handler passes on to
    the client by design: a rejected file type, or a validation error. *)
Definition messageForClient (err : EH.Err.t) : bool :=
  includes (EH.Err.message err) (u "Invalid file type")
  || EH.strictEq (EH.Err.name err) (u "ValidationError").

(** * Properties *)

(** ** The examples of the specification, run on the model *)

Example skills_comma_priority :
  SD.detectSkills [u "Python, React, Docker"] = [u "Python"; u "React"; u "Docker"]
  /\ NZ.normalizeSkills Sample.toLowerCase [u "Python"; u "React"; u "Docker"]
     = [NZ.SkillGroup.mk (u "Languages") [u "Python"];
        NZ.SkillGroup.mk (u "Frontend") [u "React"];
        NZ.SkillGroup.mk (u "DevOps") [u "Docker"]].
Proof. vm_compute. split; reflexivity. Qed.

Example experience_header_splitting :
  SD.experienceHeader Sample.toLowerCase
    (u "Software Engineer at Acme | Jan 2020 - Present")
  = SD.Exp.mk (u "Software Engineer") (Some (u "Acme")) (u "Jan 2020 - Present")
      [] [].
Proof. vm_compute. reflexivity. Qed.

Example link_canonicalization :
  SD.github (fst (SD.detectLinks (u "code at github.com/octocat, see it")
                    SD.initialState))
  = Some (u "https://github.com/octocat").
Proof. vm_compute. reflexivity. Qed.

(** ** The matcher stays within the input *)

Section MatcherBounds.


Lemma within_mono L i j k : i <= j -> within L i k -> within L j k.
Proof. intros Hij Hk i' s' e Hi. apply Hk. lia. Qed.

Lemma rmatch_bounds (r : regex) :
  forall L i s k e,
    i + length s = L -> within L i k -> rmatch r i s k = Some e -> i <= e <= L.
Proof.
  induction r as [ | p | | r1 IH1 r2 IH2 | r1 IH1 r2 IH2 | mn mx r IH ];
    intros L i s k e HL Hk; simpl.
  - intros H. eapply Hk; eauto.
  - destruct s as [ | c s']; [discriminate | ].
    destruct (p c); [ | discriminate ].
    intros H. simpl in HL.
    assert (S i <= e <= L) by (eapply Hk; eauto; lia). lia.
  - destruct (i =? 0); [ | discriminate ]. intros H. eapply Hk; eauto.
  - apply IH1; [exact HL | ].
    unfold within. intros i' s' e' Hi HL'.
    apply IH2; [exact HL' | ]. eapply within_mono; eauto.
  - destruct (rmatch r1 i s k) eqn:E1.
    + intros H; injection H as <-. revert E1. apply IH1; auto.
    + apply IH2; auto.
  - generalize (mn + length s + 1) as fuel. intros fuel.
    revert mn mx i s e HL Hk.
    induction fuel as [ | fuel IHf ]; intros mn mx i s e HL Hk; [discriminate | ].
    assert (Hd : forall m' x',
               within L i
                 (fun i' s' =>
                    if (mn =? 0) && (i' =? i) then None
                    else (fix loop (fuel mn : nat) (mx : option nat) (i : nat)
                            (s : jsstring) {struct fuel} : option nat :=
                            match fuel with
                            | O => None
                            | S fuel' =>
                                match mx with
                                | Some O => k i s
                                | _ =>
                                    let d := fun i' s' =>
                                      if (mn =? 0) && (i' =? i) then None
                                      else loop fuel' (pred mn) (option_map pred mx) i' s' in
                                    match mn with
                                    | S _ => rmatch r i s d
                                    | O =>
                                        match rmatch r i s d with
                                        | Some e => Some e
                                        | None => k i s
                                        end
                                    end
                                end
                            end) fuel m' x' i' s')).
    { unfold within. intros m' x' i' s' e' Hi HL'.
      destruct ((mn =? 0) && (i' =? i)); [discriminate | ].
      apply IHf; [exact HL' | ]. eapply within_mono; eauto. }
    destruct mx as [ [ | m ] | ]; simpl.
    + intros H. eapply Hk; eauto.
    + destruct mn as [ | mn' ].
      * match goal with |- match ?X with _ => _ end = _ -> _ => destruct X eqn:E1 end.
        -- intros H; injection H as <-. revert E1. apply IH; [exact HL | apply Hd].
        -- intros H. eapply Hk; eauto.
      * apply IH; [exact HL | apply Hd].
    + destruct mn as [ | mn' ].
      * match goal with |- match ?X with _ => _ end = _ -> _ => destruct X eqn:E1 end.
        -- intros H; injection H as <-. revert E1. apply IH; [exact HL | apply Hd].
        -- intros H. eapply Hk; eauto.
      * apply IH; [exact HL | apply Hd].
Qed.

Lemma match_at_bounds r i s e :
  match_at r i s = Some e -> i <= e <= i + length s.
Proof.
  unfold match_at. intros H.
  eapply rmatch_bounds with (L := i + length s) in H; auto.
  unfold within. intros i' s' e' Hi HL H'. inversion H'; subst. lia.
Qed.

Lemma search_from_bounds r s :
  forall i b e, search_from r i s = Some (b, e) ->
                i <= b /\ b <= e /\ e <= i + length s.
Proof.
  induction s as [ | c s IH ]; intros i b e; simpl.
  - destruct (match_at r i []) eqn:E; [ | discriminate ].
    intros H; inversion H; subst. apply match_at_bounds in E. simpl in E. lia.
  - destruct (match_at r i (c :: s)) eqn:E.
    + intros H; inversion H; subst. apply match_at_bounds in E. simpl in E. lia.
    + intros H. apply IH in H. lia.
Qed.

Lemma exec_bounds r lastIndex s b e :
  exec r lastIndex s = Some (b, e) ->
  lastIndex <= b /\ b <= e /\ e <= length s.
Proof.
  unfold exec. destruct (length s <? lastIndex) eqn:E; [discriminate | ].
  apply Nat.ltb_ge in E. intros H. apply search_from_bounds in H.
  rewrite length_skipn in H. lia.
Qed.

(** The loop of a [g] operation ends on a failing exec, which leaves
    [lastIndex] at 0. *)
Lemma exec_all_final r s :
  forall fuel lastIndex,
    length s + 2 <= fuel + lastIndex -> lastIndex <= length s + 1 ->
    snd (exec_all r fuel lastIndex s) = 0.
Proof.
  induction fuel as [ | fuel IH ]; intros lastIndex Hf Hl; [lia | ].
  simpl. destruct (exec r lastIndex s) as [ [b e] | ] eqn:E; [ | reflexivity ].
  apply exec_bounds in E.
  set (next := if e =? b then S e else e).
  assert (Hnext : lastIndex < next <= length s + 1).
  { unfold next. destruct (e =? b) eqn:Eb;
      [apply Nat.eqb_eq in Eb | apply Nat.eqb_neq in Eb]; lia. }
  specialize (IH next).
  destruct (exec_all r fuel next s) as [l final].
  simpl in *. apply IH; lia.
Qed.

Lemma match_g_lastIndex r s : snd (match_g r s) = 0.
Proof.
  unfold match_g.
  pose proof (exec_all_final r s (length s + 2) 0) as H.
  destruct (exec_all r (length s + 2) 0 s) as [l final].
  simpl in *. apply H; lia.
Qed.

End MatcherBounds.

(** ** The section detector and its shared regular expressions *)

Lemma detectContact_state text st :
  snd (SD.detectContact text st) =
  {| SD.EMAIL_lastIndex := 0; SD.PHONE_lastIndex := 0;
     SD.website_lastIndex := SD.website_lastIndex st |}.
Proof.
  unfold SD.detectContact, SD.bind, SD.ret, SD.EMAIL_match, SD.PHONE_match.
  pose proof (match_g_lastIndex SD.EMAIL_PATTERN text) as He.
  pose proof (match_g_lastIndex SD.PHONE_PATTERN text) as Hp.
  destruct (match_g SD.EMAIL_PATTERN text) as [emails e].
  destruct (match_g SD.PHONE_PATTERN text) as [phones p].
  simpl in *. subst. reflexivity.
Qed.

Lemma detectLinks_state text st :
  snd (SD.detectLinks text st) =
  {| SD.EMAIL_lastIndex := SD.EMAIL_lastIndex st;
     SD.PHONE_lastIndex := SD.PHONE_lastIndex st;
     SD.website_lastIndex := 0 |}.
Proof.
  unfold SD.detectLinks, SD.bind, SD.ret, SD.website_match.
  pose proof (match_g_lastIndex SD.URL_website text) as Hw.
  destruct (match_g SD.URL_website text) as [sites w].
  simpl in *. subst. reflexivity.
Qed.

(** Whatever state a run of detectSections starts in, it leaves the
    three regular expressions as they were when the module was loaded. *)
Lemma detectSections_state toLowerCase text st :
  snd (SD.detectSections toLowerCase text st) = SD.initialState.
Proof.
  unfold SD.detectSections, SD.bind.
  destruct (SD.detectName _ st) as [name st1].
  pose proof (detectContact_state text st1) as Hc.
  destruct (SD.detectContact text st1) as [contact st2].
  pose proof (detectLinks_state text st2) as Hl.
  destruct (SD.detectLinks text st2) as [links st3].
  simpl in *. subst. reflexivity.
Qed.

(** C2: two runs of the section detector on the same text give the same
    DetectedSections.  The module-level regular expressions do keep a
    [lastIndex], but every run of detectSections ends with them reset, so
    a run always starts from the state of a freshly loaded module: a
    second run in succession repeats the first, and so does a run that
    comes after a run on any other text. *)
Theorem detectSections_repeatable toLowerCase text :
  (forall st, snd (SD.detectSections toLowerCase text st) = SD.initialState) /\
  (let (first, st) := SD.detectSections toLowerCase text SD.initialState in
   let (second, _) := SD.detectSections toLowerCase text st in
   second = first) /\
  (forall text' st,
      fst (SD.detectSections toLowerCase text
             (snd (SD.detectSections toLowerCase text' st)))
      = fst (SD.detectSections toLowerCase text SD.initialState)).
Proof.
  split; [ | split ].
  - intros st. apply detectSections_state.
  - pose proof (detectSections_state toLowerCase text SD.initialState) as H.
    destruct (SD.detectSections toLowerCase text SD.initialState) as [first st]
      eqn:E.
    simpl in H. subst st. rewrite E. reflexivity.
  - intros text' st. rewrite detectSections_state. reflexivity.
Qed.

(** detectName on its own is another matter: called twice in a row on
    the same lines, with nothing in between to reset the regular
    expressions, it can return two different names. *)
Lemma detectName_alone_not_repeatable :
  let (first, st) := SD.detectName Sample.contactLines SD.initialState in
  let (second, _) := SD.detectName Sample.contactLines st in
  first = u "a@b.co c@d.co" /\ SD.EMAIL_lastIndex st = 6 /\
  second = u "Jane Doe J@x.io".
Proof. vm_compute. repeat split. Qed.

(** ** detectName *)

Lemma wordsOf_empty : SD.wordsOf [] = [].
Proof. reflexivity. Qed.

Lemma detectName_loop_some ls :
  forall st line st',
    SD.detectName_loop ls st = (Some line, st') ->
    exists l, In l ls /\ line = trim l /\
              2 <= length (SD.wordsOf line) <= 4.
Proof.
  induction ls as [ | l rest IH ]; intros st line st';
    cbn [SD.detectName_loop].
  - unfold SD.ret. discriminate.
  - unfold SD.bind.
    destruct (SD.EMAIL_test (trim l) st) as [isEmail st1].
    assert (Hrest : forall st0,
               SD.detectName_loop rest st0 = (Some line, st') ->
               exists l0, (l = l0 \/ In l0 rest) /\ line = trim l0 /\
                          2 <= length (SD.wordsOf line) <= 4).
    { intros st0 H. apply IH in H. destruct H as (l0 & Hin & Hl).
      exists l0. tauto. }
    destruct (if isEmail then SD.ret true st1 else SD.PHONE_test (trim l) st1)
      as [isContact st2] eqn:E.
    replace ((if isEmail then SD.ret true else SD.PHONE_test (trim l)) st1)
      with (isContact, st2) by (destruct isEmail; auto).
    destruct isContact; [apply Hrest | ].
    destruct (test SD.urlScheme (trim l)); [apply Hrest | ].
    destruct (50 <? length (trim l)); [apply Hrest | ].
    destruct (SD.matchesSectionHeader (trim l)); [apply Hrest | ].
    destruct ((2 <=? length (SD.wordsOf (trim l)))
              && (length (SD.wordsOf (trim l)) <=? 4)) eqn:Ew; [ | apply Hrest ].
    destruct (forallb (test SD.startsUpper) (SD.wordsOf (trim l)));
      [ | apply Hrest ].
    unfold SD.ret. intros H. inversion H; subst.
    apply andb_true_iff in Ew. destruct Ew as [E2 E4].
    apply Nat.leb_le in E2. apply Nat.leb_le in E4.
    exists l. split; [left; reflexivity | split; [reflexivity | lia]].
Qed.

(** ** The normalizer *)

Section NullLeaves.

Import Json.

Lemma nullPaths_Arr l : nullPaths (Arr l) = elementPaths 0 l.
Proof. reflexivity. Qed.

Lemma nullPaths_Obj fs : nullPaths (Obj fs) = fieldPaths fs.
Proof. reflexivity. Qed.

Lemma elementPaths_none {A} (f : A -> value) (l : list A) :
  (forall x, nullPaths (f x) = []) ->
  forall i, elementPaths i (map f l) = [].
Proof.
  intros Hf. induction l as [ | x l IH ]; intros i; simpl.
  - reflexivity.
  - rewrite Hf, IH. reflexivity.
Qed.

Lemma nullPaths_ofStrings l : nullPaths (ofStrings l) = [].
Proof.
  unfold ofStrings. rewrite nullPaths_Arr.
  apply (elementPaths_none Str). reflexivity.
Qed.

Lemma nullPaths_ofSkillGroup g : nullPaths (ofSkillGroup g) = [].
Proof.
  unfold ofSkillGroup. rewrite nullPaths_Obj. cbn [fieldPaths fst snd].
  rewrite nullPaths_ofStrings. reflexivity.
Qed.

Lemma nullPaths_ofExperience e : nullPaths (ofExperience e) = [].
Proof.
  unfold ofExperience. rewrite nullPaths_Obj. cbn [fieldPaths fst snd].
  rewrite nullPaths_ofStrings. reflexivity.
Qed.

Lemma nullPaths_ofEducation e : nullPaths (ofEducation e) = [].
Proof. reflexivity. Qed.

Lemma nullPaths_ofCustomizations c : nullPaths (ofCustomizations c) = [].
Proof. reflexivity. Qed.

(** [x || null] is [null] exactly when [x] is absent or empty, and is
    [x] otherwise. *)
Lemma orNull_absent x : orNull x = None <-> absent x.
Proof.
  unfold absent. destruct x as [ [ | c s ] | ]; simpl; split; intros H;
    try discriminate H; auto.
  destruct H as [H | H]; discriminate H.
Qed.

Lemma orNull_kept (s : jsstring) : s <> [] -> orNull (Some s) = Some s.
Proof. destruct s; [intros H; contradiction H; reflexivity | reflexivity]. Qed.

Lemma nullPaths_ofOption x p :
  In p (nullPaths (ofOption x)) <-> x = None /\ p = [].
Proof.
  destruct x; simpl; split.
  - intros [].
  - intros [H _]. discriminate H.
  - intros [<- | []]. auto.
  - intros [_ ->]. auto.
Qed.

Lemma nullPaths_ofProject pr p :
  In p (nullPaths (ofProject pr)) <->
  (NZ.Proj.link pr = None /\ p = [Key "link"])
  \/ (NZ.Proj.image pr = None /\ p = [Key "image"]).
Proof.
  unfold ofProject. rewrite nullPaths_Obj. cbn [fieldPaths fst snd].
  rewrite nullPaths_ofStrings. cbn [nullPaths map app]. rewrite app_nil_r.
  rewrite in_app_iff, !in_map_iff. split.
  - intros [(q & <- & Hq) | (q & <- & Hq)];
      apply nullPaths_ofOption in Hq; destruct Hq as [Hn ->]; auto.
  - intros [[Hn ->] | [Hn ->]]; [left | right];
      exists []; (split; [reflexivity | ]);
      apply nullPaths_ofOption; auto.
Qed.

Lemma elementPaths_projects l :
  forall i p,
    In p (elementPaths i (map ofProject l)) <->
    exists j pr, nth_error l j = Some pr
      /\ ((NZ.Proj.link pr = None /\ p = [Index (i + j); Key "link"])
          \/ (NZ.Proj.image pr = None /\ p = [Index (i + j); Key "image"])).
Proof.
  induction l as [ | pr l IH ]; intros i p; cbn [map elementPaths].
  - split; [intros [] | ]. intros (j & pr & H & _). destruct j; discriminate H.
  - rewrite in_app_iff, in_map_iff, IH. split.
    + intros [(q & <- & Hq) | (j & pr' & Hj & H)].
      * apply nullPaths_ofProject in Hq. exists 0, pr. rewrite Nat.add_0_r.
        split; [reflexivity | ].
        destruct Hq as [[Hn ->] | [Hn ->]]; auto.
      * exists (S j), pr'. rewrite Nat.add_succ_r. auto.
    + intros (j & pr' & Hj & H). destruct j as [ | j ].
      * injection Hj as <-. rewrite Nat.add_0_r in H. left.
        destruct H as [[Hn ->] | [Hn ->]]; eexists; (split; [reflexivity | ]);
          apply nullPaths_ofProject; auto.
      * right. exists j, pr'. rewrite Nat.add_succ_r in H. auto.
Qed.

(** The entry normalizeProjects makes of a detected project. *)
Lemma normalizeProjects_nth rawProjects i :
  nth_error (NZ.normalizeProjects rawProjects) i = None
  /\ nth_error rawProjects i = None
  \/ exists project pr,
       nth_error rawProjects i = Some project
       /\ nth_error (NZ.normalizeProjects rawProjects) i = Some pr
       /\ NZ.Proj.link pr = orNull (SD.Proj.link project)
       /\ NZ.Proj.image pr = None.
Proof.
  assert (E : exists f, NZ.normalizeProjects rawProjects = map f rawProjects
                        /\ forall project,
                             NZ.Proj.link (f project) = orNull (SD.Proj.link project)
                             /\ NZ.Proj.image (f project) = None).
  { unfold NZ.normalizeProjects. eexists. split.
    - destruct rawProjects; reflexivity.
    - intros project. split; reflexivity. }
  destruct E as (f & -> & Hf). rewrite nth_error_map.
  destruct (nth_error rawProjects i) as [project | ]; [right | left; auto].
  exists project, (f project). destruct (Hf project). auto.
Qed.

Lemma length_normalizeProjects rawProjects :
  length (NZ.normalizeProjects rawProjects) = length rawProjects.
Proof.
  unfold NZ.normalizeProjects. destruct rawProjects; [reflexivity | ].
  apply length_map.
Qed.

Lemma length_normalizeExperience rawExperience :
  length (NZ.normalizeExperience rawExperience) = length rawExperience.
Proof.
  unfold NZ.normalizeExperience. destruct rawExperience; [reflexivity | ].
  apply length_map.
Qed.

Lemma length_normalizeEducation rawEducation :
  length (NZ.normalizeEducation rawEducation) = length rawEducation.
Proof.
  unfold NZ.normalizeEducation. destruct rawEducation; [reflexivity | ].
  apply length_map.
Qed.

Lemma nullPaths_normalizeProjects rawProjects p :
  In p (elementPaths 0 (map ofProject (NZ.normalizeProjects rawProjects))) <->
  exists i project,
    nth_error rawProjects i = Some project
    /\ ((absent (SD.Proj.link project) /\ p = [Index i; Key "link"])
        \/ p = [Index i; Key "image"]).
Proof.
  rewrite elementPaths_projects. cbn [Nat.add]. split.
  - intros (j & pr & Hj & H).
    destruct (normalizeProjects_nth rawProjects j)
      as [[Hn _] | (project & pr' & Hraw & Hpr & Hlink & Himage)];
      [congruence | ].
    assert (pr' = pr) as -> by congruence.
    exists j, project. split; [exact Hraw | ].
    destruct H as [[Hn ->] | [_ ->]]; [left | right; reflexivity].
    split; [ | reflexivity ]. apply orNull_absent. congruence.
  - intros (i & project & Hraw & H).
    destruct (normalizeProjects_nth rawProjects i)
      as [[_ Hn] | (project' & pr & Hraw' & Hpr & Hlink & Himage)];
      [congruence | ].
    assert (project' = project) as -> by congruence.
    exists i, pr. split; [exact Hpr | ].
    destruct H as [[Ha ->] | ->]; [left | right; auto].
    split; [ | reflexivity ]. rewrite Hlink. apply orNull_absent. exact Ha.
Qed.

Lemma nullPaths_normalizeLinks d p :
  In p (nullPaths (ofLinks (NZ.normalizeLinks (SD.contact d) (SD.links d)))) <->
  exists k x, In (k, x) (detectedLinks d) /\ absent x /\ p = [Key k].
Proof.
  unfold ofLinks, NZ.normalizeLinks. rewrite nullPaths_Obj.
  cbn [fieldPaths fst snd NZ.github NZ.linkedin NZ.email NZ.phone NZ.website].
  rewrite app_nil_r, !in_app_iff, !in_map_iff. split.
  - intros H.
    repeat (destruct H as [H | H]);
      destruct H as (q & <- & Hq);
      apply nullPaths_ofOption in Hq; destruct Hq as [Hn ->];
      apply orNull_absent in Hn;
      eexists; eexists; (split; [ | split; [exact Hn | reflexivity] ]);
      unfold detectedLinks; simpl; auto 6.
  - intros (k & x & Hin & Ha & ->).
    apply orNull_absent in Ha.
    assert (Hq : In [] (nullPaths (ofOption (orNull x))))
      by (apply nullPaths_ofOption; auto).
    unfold detectedLinks in Hin. simpl in Hin.
    destruct Hin as [E | [E | [E | [E | [E | []]]]]]; injection E as <- <-;
      [ left | right; left | do 2 right; left | do 3 right; left | do 4 right ];
      exists []; auto.
Qed.

Lemma nullPaths_createPortfolioSchema toLowerCase d p :
  In p (nullPaths (ofPortfolio (NZ.createPortfolioSchema toLowerCase d))) <->
  nullLeaf d p.
Proof.
  unfold ofPortfolio, NZ.createPortfolioSchema.
  cbn [NZ.name NZ.headline NZ.summary NZ.skills NZ.experience NZ.projects
       NZ.education NZ.links NZ.theme NZ.customizations].
  rewrite nullPaths_Obj. cbn [fieldPaths fst snd].
  rewrite !nullPaths_Arr.
  rewrite (elementPaths_none ofSkillGroup _ nullPaths_ofSkillGroup).
  rewrite (elementPaths_none ofExperience _ nullPaths_ofExperience).
  rewrite (elementPaths_none ofEducation _ nullPaths_ofEducation).
  rewrite nullPaths_ofCustomizations.
  cbn [nullPaths map app]. rewrite app_nil_r.
  rewrite in_app_iff, !in_map_iff. unfold nullLeaf. split.
  - intros [(q & <- & Hq) | (q & <- & Hq)].
    + apply nullPaths_normalizeProjects in Hq.
      destruct Hq as (i & project & Hraw & H). right. exists i, project.
      split; [exact Hraw | ].
      destruct H as [[Ha ->] | ->]; auto.
    + apply nullPaths_normalizeLinks in Hq.
      destruct Hq as (k & x & Hin & Ha & ->). left. exists k, x. auto.
  - intros [(k & x & Hin & Ha & ->) | (i & project & Hraw & H)].
    + right. eexists. split; [reflexivity | ].
      apply nullPaths_normalizeLinks. exists k, x. auto.
    + left. destruct H as [[Ha ->] | ->];
        (eexists; split; [reflexivity | ]);
        apply nullPaths_normalizeProjects; exists i, project; auto.
Qed.

End NullLeaves.

(** C1, as the code has it.  For every DetectedSections the normalizer
    returns a record, and
    - the [null] leaves of the record are exactly these: a key of [links]
      (github, linkedin, email, phone, website) whose detected value is
      absent or empty, the [link] of a project whose detected link is
      absent or empty, and the [image] of every project;
    - a detected link value, and a detected project link, that is present
      and not empty is in the record as it was detected;
    - the four list fields skills, experience, projects and education are
      arrays: empty when no skill was detected, and with one entry for
      each detected entry;
    - [image] is [null] in every project of the record. *)
Theorem createPortfolioSchema_null_leaves toLowerCase detectedSections :
  let r := NZ.createPortfolioSchema toLowerCase detectedSections in
  let json := Json.ofPortfolio r in
  (forall p, In p (Json.nullPaths json) <-> nullLeaf detectedSections p) /\
  (forall k x s,
      In (k, x) (detectedLinks detectedSections) -> x = Some s -> s <> [] ->
      Json.get [Json.Key "links"; Json.Key k] json = Some (Json.Str s)) /\
  (forall i project s,
      nth_error (SD.projects detectedSections) i = Some project ->
      SD.Proj.link project = Some s -> s <> [] ->
      Json.get [Json.Key "projects"; Json.Index i; Json.Key "link"] json
      = Some (Json.Str s)) /\
  (exists skills experience projects education,
      Json.field "skills" json = Some (Json.Arr skills)
      /\ Json.field "experience" json = Some (Json.Arr experience)
      /\ Json.field "projects" json = Some (Json.Arr projects)
      /\ Json.field "education" json = Some (Json.Arr education)
      /\ (SD.skills detectedSections = [] -> skills = [])
      /\ length experience = length (SD.experience detectedSections)
      /\ length projects = length (SD.projects detectedSections)
      /\ length education = length (SD.education detectedSections)) /\
  (forall pr, In pr (NZ.projects r) -> NZ.Proj.image pr = None).
Proof.
  intros r json. split; [ | split; [ | split; [ | split ] ] ].
  - intros p. apply nullPaths_createPortfolioSchema.
  - intros k x s Hin -> Hs.
    unfold detectedLinks in Hin. simpl in Hin.
    destruct Hin as [E | [E | [E | [E | [E | []]]]]]; injection E as <- E;
      unfold json, r, Json.ofPortfolio, NZ.createPortfolioSchema, NZ.normalizeLinks;
      cbn -[orNull]; rewrite E; rewrite (orNull_kept s Hs); reflexivity.
  - intros i project s Hraw Hlink Hs.
    change (Json.get [Json.Key "projects"; Json.Index i; Json.Key "link"] json)
      with (match nth_error (map Json.ofProject
                               (NZ.normalizeProjects (SD.projects detectedSections))) i
            with
            | Some x => Json.get [Json.Key "link"] x
            | None => None
            end).
    rewrite nth_error_map.
    destruct (normalizeProjects_nth (SD.projects detectedSections) i)
      as [[_ Hn] | (project' & pr & Hraw' & -> & Hl & _)]; [congruence | ].
    assert (project' = project) as -> by congruence.
    cbn -[orNull]. rewrite Hl, Hlink, (orNull_kept s Hs). reflexivity.
  - exists (map Json.ofSkillGroup (NZ.skills r)),
           (map Json.ofExperience (NZ.experience r)),
           (map Json.ofProject (NZ.projects r)),
           (map Json.ofEducation (NZ.education r)).
    repeat (split; [reflexivity | ]).
    rewrite !length_map. unfold r, NZ.createPortfolioSchema.
    cbn [NZ.skills NZ.experience NZ.projects NZ.education].
    split; [intros ->; reflexivity | ].
    rewrite length_normalizeExperience, length_normalizeProjects,
      length_normalizeEducation. auto.
  - intros pr. unfold r, NZ.createPortfolioSchema. simpl.
    unfold NZ.normalizeProjects.
    destruct (SD.projects detectedSections) as [ | x l ]; [intros [] | ].
    intros H. apply in_map_iff in H. destruct H as (q & <- & _). reflexivity.
Qed.

Lemma createPortfolioSchema_null_leaves_witness :
  let json :=
    Json.ofPortfolio (NZ.createPortfolioSchema Sample.toLowerCase Sample.partlyDetected) in
  In [Json.Key "links"; Json.Key "phone"] (Json.nullPaths json)
  /\ ~ In [Json.Key "links"; Json.Key "github"] (Json.nullPaths json)
  /\ Json.get [Json.Key "links"; Json.Key "github"] json
     = Some (Json.Str (u "https://github.com/jane"))
  /\ Json.get [Json.Key "projects"; Json.Index 0; Json.Key "link"] json
     = Some (Json.Str (u "https://parser.dev")).
Proof.
  destruct (createPortfolioSchema_null_leaves Sample.toLowerCase Sample.partlyDetected)
    as (Hnull & Hlinks & Hproject & _).
  split; [ | split; [ | split ] ].
  - apply Hnull. left. exists "phone"%string, (Some []).
    split; [simpl; auto 6 | split; [right; reflexivity | reflexivity]].
  - intros H. apply Hnull in H.
    destruct H as [(k & x & Hin & Ha & E) | (i & project & _ & [[_ E] | E])];
      try discriminate E.
    injection E as <-. simpl in Hin.
    destruct Hin as [E | [E | [E | [E | [E | []]]]]]; try discriminate E.
    injection E as <-. destruct Ha as [Ha | Ha]; discriminate Ha.
  - apply (Hlinks "github"%string (Some (u "https://github.com/jane")));
      [simpl; auto | reflexivity | discriminate].
  - apply (Hproject 0 (SD.Proj.mk (u "Parser") [u "Rust"] (u "A parser.")
                         (Some (u "https://parser.dev"))));
      [reflexivity | reflexivity | discriminate].
Defined.

(** C1 as stated fails on the all-null DetectedSections: the five keys
    of [links] are [null] in the record. *)
Lemma createPortfolioSchema_has_null_leaves :
  Json.nullPaths
    (Json.ofPortfolio (NZ.createPortfolioSchema Sample.toLowerCase Sample.allNull))
  = map (fun k => [Json.Key "links"; Json.Key k])
        ["github"; "linkedin"; "email"; "phone"; "website"]%string
  /\ ~ (forall ds,
          Json.nullPaths
            (Json.ofPortfolio (NZ.createPortfolioSchema Sample.toLowerCase ds)) = []).
Proof.
  split; [reflexivity | ].
  intros H. specialize (H Sample.allNull). discriminate H.
Qed.

(** C5 at an input the pipeline produces: the experience header
    [| 2020 - 2023] of the sample resume has an empty detected role, the
    normalizer turns the role into ["Position"] before the headline is
    generated, and the headline is ["Position"], not ["Professional"]. *)
Theorem headline_of_empty_detected_role :
  let detected :=
    fst (SD.detectSections Sample.toLowerCase Sample.resume50 SD.initialState) in
  map SD.Exp.role (SD.experience detected) = [[]] /\
  NZ.headline (NZ.createPortfolioSchema Sample.toLowerCase detected) = u "Position" /\
  NZ.headline (NZ.createPortfolioSchema Sample.toLowerCase detected)
    <> u "Professional".
Proof.
  vm_compute. split; [reflexivity | split; [reflexivity | discriminate]].
Qed.

(** The headline in general: the role of the first normalized entry. *)
Lemma headline_is_normalized_role toLowerCase detectedSections :
  NZ.headline (NZ.createPortfolioSchema toLowerCase detectedSections) =
  match SD.experience detectedSections with
  | [] => u "Professional"
  | e :: _ => if truthy (SD.Exp.role e) then SD.Exp.role e else u "Position"
  end.
Proof.
  unfold NZ.createPortfolioSchema. simpl.
  destruct (SD.experience detectedSections) as [ | e l ]; [reflexivity | ].
  simpl. destruct (SD.Exp.role e); reflexivity.
Qed.

(** ** Names *)


Lemma str_eqb_eq a b : str_eqb a b = true <-> a = b.
Proof.
  unfold str_eqb. destruct (list_eq_dec N.eq_dec a b); split; congruence.
Qed.

(** What detectName returns: a trimmed line among the first five that has
    two to four words, or else [lines[0]], or else ["Unknown"]. *)
Lemma detectName_cases lines st :
  let n := fst (SD.detectName lines st) in
  (exists l, In l (firstn 5 lines) /\ n = trim l
             /\ 2 <= length (SD.wordsOf n) <= 4)
  \/ (nth_error lines 0 = Some n /\ n <> [])
  \/ (n = u "Unknown" /\ (lines = [] \/ nth_error lines 0 = Some [])).
Proof.
  unfold SD.detectName, SD.bind.
  destruct (SD.detectName_loop (firstn 5 lines) st) as [found st1] eqn:E.
  destruct found as [line | ]; unfold SD.ret; simpl.
  - left. apply detectName_loop_some in E. exact E.
  - right. destruct lines as [ | [ | c l0 ] rest ]; simpl; auto.
    left. split; [reflexivity | discriminate].
Qed.



(** C8: on the one-line document ["Unknown"] the detected name is
    ["Unknown"] and the normalized name is ["Portfolio Owner"];
    normalizeName returns the trimmed name when it is present (neither
    null nor empty) and not the literal ["Unknown"], and
    ["Portfolio Owner"] otherwise. *)
Theorem name_fallback :
  (forall st, fst (SD.detectName [u "Unknown"] st) = u "Unknown") /\
  (forall toLowerCase,
      let detected := fst (SD.detectSections toLowerCase (u "Unknown") SD.initialState) in
      SD.name detected = Some (u "Unknown") /\
      NZ.name (NZ.createPortfolioSchema toLowerCase detected) = u "Portfolio Owner") /\
  (forall n, n <> [] -> n <> u "Unknown" -> NZ.normalizeName (Some n) = trim n) /\
  NZ.normalizeName None = u "Portfolio Owner" /\
  NZ.normalizeName (Some []) = u "Portfolio Owner" /\
  NZ.normalizeName (Some (u "Unknown")) = u "Portfolio Owner".
Proof.
  assert (H1 : forall st, fst (SD.detectName [u "Unknown"] st) = u "Unknown").
  { intros st.
    destruct (detectName_cases [u "Unknown"] st)
      as [(l & Hin & Hn & Hw) | [[H _] | [H _]]].
    - simpl in Hin. destruct Hin as [<- | []].
      rewrite Hn in Hw. vm_compute in Hw. lia.
    - simpl in H. congruence.
    - exact H. }
  split; [exact H1 | ].
  split.
  { intros toLowerCase. unfold SD.detectSections, SD.bind.
    change (filter SD.nonBlank (split [10%N] (u "Unknown")))
      with [u "Unknown"].
    pose proof (H1 SD.initialState) as Hn.
    destruct (SD.detectName [u "Unknown"] SD.initialState) as [n st1].
    destruct (SD.detectContact (u "Unknown") st1) as [contact st2].
    destruct (SD.detectLinks (u "Unknown") st2) as [links st3].
    simpl in Hn. subst n. simpl. split; reflexivity. }
  split.
  { intros n Hne Hu. unfold NZ.normalizeName.
    destruct (truthy n) eqn:Et.
    - destruct (str_eqb n (u "Unknown")) eqn:Eu; [ | reflexivity ].
      apply str_eqb_eq in Eu. contradiction.
    - destruct n; [contradiction | discriminate]. }
  repeat split; reflexivity.
Qed.

Lemma name_fallback_witness :
  NZ.normalizeName (Some (u "  Ada Lovelace ")) = trim (u "  Ada Lovelace ").
Proof.
  apply (proj1 (proj2 (proj2 name_fallback))); discriminate.
Defined.

(** ** The parsing service *)



Lemma str_eqb_neq a b : a <> b -> str_eqb a b = false.
Proof.
  intros H. destruct (str_eqb a b) eqn:E; [ | reflexivity ].
  apply str_eqb_eq in E. contradiction.
Qed.

(** C3: the result of parseResume with [useAI] set is the result with
    [useAI] absent, whatever the environment holds; and when no
    credential is configured the two runs also write the same console
    lines and make the same host calls. *)
Theorem parseResume_useAI_noop toLowerCase host env filePath mimetype st :
  let on := RP.parseResume toLowerCase host env filePath mimetype
              {| RP.useAI := Some true |} st in
  let off := RP.parseResume toLowerCase host env filePath mimetype
               {| RP.useAI := None |} st in
  snd (fst on) = snd (fst off) /\
  snd on = snd off /\
  (RP.OPENAI_API_KEY env = None -> on = off).
Proof.
  unfold RP.parseResume.
  destruct (TE.extractText host filePath mimetype) as [ev [msg | rawText]];
    [simpl; auto | ].
  destruct (negb (truthy rawText) || (length rawText <? 50)); [simpl; auto | ].
  destruct (SD.detectSections toLowerCase rawText st) as [detected st'].
  simpl. split; [reflexivity | split; [reflexivity | ]].
  intros Hkey. rewrite Hkey. reflexivity.
Qed.

Lemma parseResume_useAI_noop_witness :
  RP.parseResume Sample.toLowerCase Sample.host Sample.noKey (u "resume.txt")
    (u "text/plain") {| RP.useAI := Some true |} SD.initialState
  = RP.parseResume Sample.toLowerCase Sample.host Sample.noKey (u "resume.txt")
      (u "text/plain") {| RP.useAI := None |} SD.initialState.
Proof.
  apply (proj2 (proj2 (parseResume_useAI_noop Sample.toLowerCase Sample.host
                         Sample.noKey (u "resume.txt") (u "text/plain")
                         SD.initialState))).
  reflexivity.
Defined.

(** What parseResume returns once the text is extracted. *)
Lemma parseResume_extracted toLowerCase host env filePath mimetype options st
  events text :
  TE.extractText host filePath mimetype = (events, inr text) ->
  let r := snd (fst (RP.parseResume toLowerCase host env filePath mimetype
                       options st)) in
  (length text < 50 -> r = failed RP.tooShort) /\
  (50 <= length text ->
   RP.success r = true /\ RP.error r = None /\
   RP.data r = Some (NZ.createPortfolioSchema toLowerCase
                       (fst (SD.detectSections toLowerCase text st)))).
Proof.
  intros Hx. unfold RP.parseResume. rewrite Hx.
  destruct (length text <? 50) eqn:E.
  - apply Nat.ltb_lt in E. rewrite orb_true_r. simpl.
    split; [reflexivity | lia].
  - apply Nat.ltb_ge in E.
    assert (Ht : truthy text = true) by (destruct text; [simpl in E; lia | reflexivity]).
    rewrite Ht. simpl.
    destruct (SD.detectSections toLowerCase text st) as [detected st'].
    simpl. split; [lia | auto].
Qed.

(** C6: once the text is extracted, parseResume fails with the
    too-short message exactly when the normalized text has fewer than 50
    code units; from 50 on it succeeds with the normalized detection. *)
Theorem minimum_content_gate toLowerCase host env filePath mimetype options st
  events text :
  TE.extractText host filePath mimetype = (events, inr text) ->
  let r := snd (fst (RP.parseResume toLowerCase host env filePath mimetype
                       options st)) in
  (length text < 50 <-> r = failed RP.tooShort) /\
  (50 <= length text ->
   RP.success r = true /\ RP.error r = None /\
   RP.data r = Some (NZ.createPortfolioSchema toLowerCase
                       (fst (SD.detectSections toLowerCase text st)))).
Proof.
  intros Hx r.
  destruct (parseResume_extracted toLowerCase host env filePath mimetype options
              st events text Hx) as [Hshort Hlong].
  fold r in Hshort, Hlong.
  split; [ | exact Hlong ].
  split; [exact Hshort | ].
  intros Hr. destruct (Nat.lt_ge_cases (length text) 50) as [H | H]; [exact H | ].
  destruct (Hlong H) as [Hs _]. rewrite Hr in Hs. discriminate Hs.
Qed.

Lemma minimum_content_gate_witness :
  (length Sample.resume49 < 50 <->
   snd (fst (RP.parseResume Sample.toLowerCase Sample.host Sample.noKey
               (u "short.txt") (u "text/plain") {| RP.useAI := None |}
               SD.initialState)) = failed RP.tooShort) /\
  RP.success
    (snd (fst (RP.parseResume Sample.toLowerCase Sample.host Sample.noKey
                 (u "resume.txt") (u "text/plain") {| RP.useAI := None |}
                 SD.initialState))) = true.
Proof.
  split.
  - apply (minimum_content_gate Sample.toLowerCase Sample.host Sample.noKey
             (u "short.txt") (u "text/plain") {| RP.useAI := None |}
             SD.initialState [TE.ReadTXT (u "short.txt")] Sample.resume49).
    vm_compute. reflexivity.
  - apply (minimum_content_gate Sample.toLowerCase Sample.host Sample.noKey
             (u "resume.txt") (u "text/plain") {| RP.useAI := None |}
             SD.initialState [TE.ReadTXT (u "resume.txt")] Sample.resume50).
    + vm_compute. reflexivity.
    + vm_compute. lia.
Defined.

(** C9: a MIME type other than the three supported ones makes
    extractText throw before any host call; and when extraction throws or
    the text is below the floor, parseResume returns the failure object:
    one message, [data: null], nothing else. *)
Theorem failures_carry_no_data toLowerCase host env filePath mimetype options st :
  let r := snd (fst (RP.parseResume toLowerCase host env filePath mimetype
                       options st)) in
  (~ supported mimetype ->
   TE.extractText host filePath mimetype
   = ([], inl (u "Unsupported file type: " ++ mimetype))) /\
  (forall events message,
      TE.extractText host filePath mimetype = (events, inl message) ->
      r = failed message) /\
  (forall events text,
      TE.extractText host filePath mimetype = (events, inr text) ->
      length text < 50 -> r = failed RP.tooShort).
Proof.
  split; [ | split ].
  - intros Hn. unfold supported in Hn. unfold TE.extractText.
    rewrite !str_eqb_neq by tauto. reflexivity.
  - intros events message Hx. unfold RP.parseResume. rewrite Hx. reflexivity.
  - intros events text Hx Hlen.
    apply (parseResume_extracted toLowerCase host env filePath mimetype options st
             events text Hx). exact Hlen.
Qed.

Lemma failures_carry_no_data_witness :
  TE.extractText Sample.host (u "photo.png") (u "image/png")
  = ([], inl (u "Unsupported file type: image/png")) /\
  snd (fst (RP.parseResume Sample.toLowerCase Sample.host Sample.noKey
              (u "photo.png") (u "image/png") {| RP.useAI := None |}
              SD.initialState))
  = failed (u "Unsupported file type: image/png") /\
  snd (fst (RP.parseResume Sample.toLowerCase Sample.host Sample.noKey
              (u "short.txt") (u "text/plain") {| RP.useAI := None |}
              SD.initialState))
  = failed RP.tooShort.
Proof.
  pose proof (failures_carry_no_data Sample.toLowerCase Sample.host Sample.noKey
                (u "photo.png") (u "image/png") {| RP.useAI := None |}
                SD.initialState) as [H1 [H2 _]].
  pose proof (failures_carry_no_data Sample.toLowerCase Sample.host Sample.noKey
                (u "short.txt") (u "text/plain") {| RP.useAI := None |}
                SD.initialState) as [_ [_ H3]].
  split; [ | split ].
  - apply H1. unfold supported. intros [H | [H | H]]; discriminate H.
  - apply (H2 []). vm_compute. reflexivity.
  - apply (H3 [TE.ReadTXT (u "short.txt")] Sample.resume49).
    + vm_compute. reflexivity.
    + vm_compute. lia.
Defined.

(** ** findSections *)

Section FindSections.

Import SectionDetector.


Lemma SectionName_eqb_eq a b : SectionName_eqb a b = true <-> a = b.
Proof. destruct a, b; simpl; split; congruence. Qed.

Lemma setSection_same s n v : setSection s n v n = v.
Proof.
  unfold setSection. destruct (SectionName_eqb n n) eqn:E; [reflexivity | ].
  assert (SectionName_eqb n n = true) by (apply SectionName_eqb_eq; reflexivity).
  congruence.
Qed.

Lemma setSection_other s m v n : n <> m -> setSection s m v n = s n.
Proof.
  intros H. unfold setSection. destruct (SectionName_eqb n m) eqn:E; [ | reflexivity ].
  apply SectionName_eqb_eq in E. contradiction.
Qed.

Lemma findSections_loop_app lines a :
  forall b i st,
    findSections_loop lines i (a ++ b) st
    = findSections_loop lines (i + length a) b (findSections_loop lines i a st).
Proof.
  induction a as [ | l a IH ]; intros b i st; simpl.
  - rewrite Nat.add_0_r. reflexivity.
  - rewrite IH. f_equal. lia.
Qed.

(** Lines that are not headers leave the state as it is. *)
Lemma findSections_loop_plain lines todo :
  Forall (fun l => foundSection (trim l) = None) todo ->
  forall i st, findSections_loop lines i todo st = st.
Proof.
  induction 1 as [ | l todo Hl _ IH ]; intros i st; simpl.
  - reflexivity.
  - rewrite IH. unfold findSections_step. rewrite Hl. reflexivity.
Qed.

(** While no line opens the section [name] and it is not the open
    section, its content is not written. *)
Lemma findSections_loop_keeps lines name todo :
  Forall (fun l => foundSection (trim l) <> Some name) todo ->
  forall i st,
    currentSection st <> Some name ->
    sections (findSections_loop lines i todo st) name = sections st name
    /\ currentSection (findSections_loop lines i todo st) <> Some name.
Proof.
  induction 1 as [ | l todo Hl _ IH ]; intros i st Hcur; simpl.
  - auto.
  - assert (Hstep : sections (findSections_step lines i l st) name = sections st name
                    /\ currentSection (findSections_step lines i l st) <> Some name).
    { unfold findSections_step.
      destruct (foundSection (trim l)) as [found | ]; [ | auto ].
      simpl. split; [ | exact Hl ].
      destruct (currentSection st) as [cur | ]; [ | reflexivity ].
      destruct (0 <=? sectionStartIndex st)%Z; [ | reflexivity ].
      apply setSection_other. congruence. }
    destruct Hstep as [Hs Hc].
    destruct (IH (S i) _ Hc) as [Hs' Hc'].
    split; [congruence | exact Hc'].
Qed.

Lemma slice_middle {A} (pre : list A) x mid post :
  slice (S (length pre)) (S (length pre) + length mid) (pre ++ x :: mid ++ post)
  = mid.
Proof.
  unfold slice.
  replace (S (length pre) + length mid - S (length pre)) with (length mid) by lia.
  replace (pre ++ x :: mid ++ post) with ((pre ++ [x]) ++ mid ++ post)
    by (rewrite <- app_assoc; reflexivity).
  rewrite skipn_app.
  replace (S (length pre)) with (length (pre ++ [x]))
    by (rewrite length_app; simpl; lia).
  rewrite skipn_all, Nat.sub_diag. simpl.
  rewrite firstn_app, Nat.sub_diag, firstn_all. simpl. apply app_nil_r.
Qed.

Lemma sliceFrom_tail {A} (pre : list A) x post :
  sliceFrom (S (length pre)) (pre ++ x :: post) = post.
Proof.
  unfold sliceFrom.
  replace (pre ++ x :: post) with ((pre ++ [x]) ++ post)
    by (rewrite <- app_assoc; reflexivity).
  replace (S (length pre)) with (length (pre ++ [x]))
    by (rewrite length_app; simpl; lia).
  rewrite skipn_app, skipn_all, Nat.sub_diag. reflexivity.
Qed.

(** The state right after a header line. *)
Lemma findSections_step_header lines i l st found :
  foundSection (trim l) = Some found ->
  currentSection (findSections_step lines i l st) = Some found
  /\ sectionStartIndex (findSections_step lines i l st) = (Z.of_nat i + 1)%Z.
Proof.
  intros H. unfold findSections_step. rewrite H. simpl. auto.
Qed.

(** When the loop has just gone through the second of two headers with
    no header between them, the section the first one opened holds the
    lines strictly between the two. *)
Lemma findSections_loop_second_header lines pre hi mid hj name name' :
  foundSection (trim hi) = Some name ->
  foundSection (trim hj) = Some name' ->
  Forall (fun l => foundSection (trim l) = None) mid ->
  let st := findSections_loop lines 0 (pre ++ hi :: mid ++ [hj])
              findSections_init in
  sections st name = slice (S (length pre)) (S (length pre) + length mid) lines
  /\ currentSection st = Some name'.
Proof.
  intros Hi Hj Hmid.
  set (st0 := findSections_loop lines 0 pre findSections_init).
  destruct (findSections_step_header lines (length pre) hi st0 name Hi) as [Hc1 Hs1].
  set (st1 := findSections_step lines (length pre) hi st0) in *.
  set (j := S (length pre) + length mid).
  assert (Heq : findSections_loop lines 0 (pre ++ hi :: mid ++ [hj])
                  findSections_init
                = findSections_step lines j hj st1).
  { rewrite findSections_loop_app. cbn [findSections_loop].
    rewrite findSections_loop_app, (findSections_loop_plain lines mid Hmid).
    reflexivity. }
  cbv zeta. rewrite Heq.
  unfold findSections_step. rewrite Hj. simpl. rewrite Hc1, Hs1.
  replace (0 <=? Z.of_nat (length pre) + 1)%Z with true
    by (symmetry; apply Z.leb_le; lia).
  rewrite setSection_same.
  replace (Z.to_nat (Z.of_nat (length pre) + 1)) with (S (length pre)) by lia.
  split; reflexivity.
Qed.

(** Between two headers: the lines strictly between them, as long as the
    first header's section is not opened again from the second header on. *)
Lemma findSections_between pre hi mid hj post name name' :
  foundSection (trim hi) = Some name ->
  foundSection (trim hj) = Some name' ->
  Forall (fun l => foundSection (trim l) = None) mid ->
  Forall (fun l => foundSection (trim l) <> Some name) (hj :: post) ->
  findSections (pre ++ hi :: mid ++ hj :: post) name = mid.
Proof.
  intros Hi Hj Hmid Hlater.
  set (lines := pre ++ hi :: mid ++ hj :: post).
  destruct (findSections_loop_second_header lines pre hi mid hj name name'
              Hi Hj Hmid) as [Hs2 Hc2].
  set (st2 := findSections_loop lines 0 (pre ++ hi :: mid ++ [hj])
                findSections_init) in *.
  unfold lines in Hs2. rewrite slice_middle in Hs2.
  pose proof (Forall_inv Hlater) as Hne. simpl in Hne.
  pose proof (Forall_inv_tail Hlater) as Hpost.
  assert (Hc2' : currentSection st2 <> Some name) by congruence.
  destruct (findSections_loop_keeps lines name post Hpost
              (0 + length (pre ++ hi :: mid ++ [hj])) st2 Hc2') as [Hs3 Hc3].
  unfold st2 in Hs3 at 1, Hc3. rewrite <- findSections_loop_app in Hs3, Hc3.
  replace ((pre ++ hi :: mid ++ [hj]) ++ post) with lines in Hs3, Hc3
    by (unfold lines; rewrite <- !app_assoc; simpl; rewrite <- app_assoc;
        reflexivity).
  unfold findSections.
  destruct (currentSection (findSections_loop lines 0 lines findSections_init))
    as [cur | ]; [ | congruence ].
  destruct (0 <=? sectionStartIndex
                    (findSections_loop lines 0 lines findSections_init))%Z;
    [ | congruence ].
  rewrite setSection_other by congruence. congruence.
Qed.

(** After the last header: the lines to the end. *)
Lemma findSections_last pre hi post name :
  foundSection (trim hi) = Some name ->
  Forall (fun l => foundSection (trim l) = None) post ->
  findSections (pre ++ hi :: post) name = post.
Proof.
  intros Hi Hpost.
  set (lines := pre ++ hi :: post).
  unfold findSections.
  assert (Hst : findSections_loop lines 0 lines findSections_init
                = findSections_step lines (length pre) hi
                    (findSections_loop lines 0 pre findSections_init)).
  { unfold lines at 2. rewrite findSections_loop_app. simpl.
    apply findSections_loop_plain. exact Hpost. }
  rewrite Hst.
  destruct (findSections_step_header lines (length pre) hi
              (findSections_loop lines 0 pre findSections_init) name Hi)
    as [Hc Hs].
  rewrite Hc, Hs.
  replace (0 <=? Z.of_nat (length pre) + 1)%Z with true
    by (symmetry; apply Z.leb_le; lia).
  rewrite setSection_same.
  replace (Z.to_nat (Z.of_nat (length pre) + 1)) with (S (length pre)) by lia.
  apply sliceFrom_tail.
Qed.

End FindSections.

Section Boundaries.

Import SectionDetector.

Lemma Forall_by_index {A} (P : A -> Prop) (xs : list A) :
  (forall m x, nth_error xs m = Some x -> P x) -> Forall P xs.
Proof.
  intros H. apply Forall_forall. intros x Hin.
  apply In_nth_error in Hin. destruct Hin as [m Hm]. eauto.
Qed.

Lemma nth_error_after {A} (pre : list A) x rest m :
  nth_error (pre ++ x :: rest) (S (length pre) + m) = nth_error rest m.
Proof.
  rewrite nth_error_app2 by lia.
  replace (S (length pre) + m - length pre) with (S m) by lia. reflexivity.
Qed.

Lemma firstn_through {A} (pre : list A) x mid y post :
  firstn (S (S (length pre) + length mid)) (pre ++ x :: mid ++ y :: post)
  = pre ++ x :: mid ++ [y].
Proof.
  replace (pre ++ x :: mid ++ y :: post)
    with ((pre ++ x :: mid ++ [y]) ++ post)
    by (rewrite <- !app_assoc; simpl; rewrite <- app_assoc; reflexivity).
  replace (S (S (length pre) + length mid))
    with (length (pre ++ x :: mid ++ [y]) + 0)
    by (rewrite length_app; simpl; rewrite length_app; simpl; lia).
  rewrite firstn_app_2. simpl. apply app_nil_r.
Qed.

(** C7, as the code has it.  Line [i] opens the section [name] and line
    [j > i] is the next header.  When the loop has gone through line [j],
    the content of [name] is exactly the lines [i+1 .. j-1]; it is still
    so in the result when no header from [j] on opens [name] again.  When
    no header follows line [i], the content in the result is the lines
    from [i+1] to the end. *)
Theorem findSections_boundaries lines i name :
  headerAt lines i = Some name ->
  (forall j,
      i < j -> headerAt lines j <> None ->
      (forall k, i < k < j -> headerAt lines k = None) ->
      sections (findSections_after lines (S j)) name = slice (S i) j lines /\
      ((forall k, j <= k -> headerAt lines k <> Some name) ->
       findSections lines name = slice (S i) j lines)) /\
  ((forall k, i < k -> headerAt lines k = None) ->
   findSections lines name = sliceFrom (S i) lines).
Proof.
  unfold headerAt at 1. intros Hi.
  destruct (nth_error lines i) as [hi | ] eqn:Ei; [ | discriminate ].
  destruct (nth_error_split lines i Ei) as (pre & rest & -> & <-).
  split.
  - intros j Hij Hj Hnone.
    unfold headerAt in Hj.
    destruct (nth_error (pre ++ hi :: rest) j) as [hj | ] eqn:Ej; [ | congruence ].
    destruct (foundSection (trim hj)) as [name' | ] eqn:Efj; [ | congruence ].
    replace j with (S (length pre) + (j - S (length pre))) in Ej by lia.
    rewrite nth_error_after in Ej.
    destruct (nth_error_split rest (j - S (length pre)) Ej)
      as (mid & post & -> & Hlen).
    replace j with (S (length pre) + length mid) in * by lia.
    assert (Hmid : Forall (fun l => foundSection (trim l) = None) mid).
    { apply Forall_by_index. intros m x Hm.
      assert (Hlt : m < length mid) by (apply nth_error_Some; congruence).
      specialize (Hnone (S (length pre) + m)).
      unfold headerAt in Hnone. rewrite nth_error_after in Hnone.
      rewrite nth_error_app1 in Hnone by exact Hlt.
      rewrite Hm in Hnone. apply Hnone. lia. }
    split.
    + unfold findSections_after. rewrite firstn_through.
      apply (findSections_loop_second_header _ pre hi mid hj name name');
        assumption.
    + intros Hlater. rewrite slice_middle.
      apply findSections_between with (name' := name'); auto.
      apply Forall_by_index. intros m x Hm.
      specialize (Hlater (S (length pre) + (length mid + m))).
      unfold headerAt in Hlater. rewrite nth_error_after in Hlater.
      rewrite nth_error_app2 in Hlater by lia.
      replace (length mid + m - length mid) with m in Hlater by lia.
      rewrite Hm in Hlater. apply Hlater. lia.
  - intros Hnone.
    rewrite sliceFrom_tail.
    apply findSections_last; auto.
    apply Forall_by_index. intros m x Hm.
    specialize (Hnone (S (length pre) + m)).
    unfold headerAt in Hnone. rewrite nth_error_after, Hm in Hnone.
    apply Hnone. lia.
Qed.

Lemma findSections_boundaries_witness :
  findSections Sample.twoSections Key.skills = slice 1 2 Sample.twoSections /\
  findSections Sample.twoSections Key.education = sliceFrom 3 Sample.twoSections.
Proof.
  split.
  - apply (proj1 (findSections_boundaries Sample.twoSections 0 Key.skills eq_refl) 2).
    + lia.
    + vm_compute. discriminate.
    + intros k Hk. assert (k = 1) as -> by lia. reflexivity.
    + intros k Hk.
      destruct k as [ | [ | [ | [ | k ] ] ] ]; try lia;
        [vm_compute; discriminate | vm_compute; discriminate | ].
      unfold headerAt. simpl. destruct k; discriminate.
  - apply (proj2 (findSections_boundaries Sample.twoSections 2 Key.education eq_refl)).
    intros k Hk.
    destruct k as [ | [ | [ | [ | k ] ] ] ]; try lia; [reflexivity | ].
    unfold headerAt. simpl. destruct k; reflexivity.
Defined.

(** C7 as stated fails when a section is opened again: the headers at
    lines 0 and 2 have no header between them, yet the content of
    [skills] in the result is what follows the second [Skills] header. *)
Lemma findSections_reopened_section :
  headerAt Sample.reopened 0 = Some Key.skills /\
  headerAt Sample.reopened 1 = None /\
  headerAt Sample.reopened 2 = Some Key.education /\
  findSections Sample.reopened Key.skills = [u "Rust"] /\
  findSections Sample.reopened Key.skills <> slice 1 2 Sample.reopened.
Proof.
  vm_compute. repeat split; discriminate.
Qed.

End Boundaries.

(** ** normalizeText *)

Section NormalizeText.

Import TextExtractor.

(** *** trim *)

Lemma trimStart_app x y :
  trimStart (x ++ y)
  = match trimStart x with [] => trimStart y | r => r ++ y end.
Proof.
  induction x as [ | c x IH ]; simpl.
  - reflexivity.
  - destruct (isWhiteSpace c); [exact IH | reflexivity].
Qed.


Lemma trimStart_startsClean s : startsClean (trimStart s).
Proof.
  induction s as [ | c s IH ]; simpl; [exact I | ].
  destruct (isWhiteSpace c) eqn:E; [exact IH | exact E].
Qed.

Lemma trimStart_fixed s : startsClean s -> trimStart s = s.
Proof.
  destruct s as [ | c s ]; simpl; [reflexivity | ].
  intros ->. reflexivity.
Qed.

Lemma trimEnd_cons c s :
  trimEnd (c :: s)
  = match trimEnd s with
    | [] => if isWhiteSpace c then [] else [c]
    | r => c :: r
    end.
Proof.
  unfold trimEnd. simpl. rewrite trimStart_app.
  destruct (trimStart (rev s)) as [ | d r ] eqn:E; simpl.
  - destruct (isWhiteSpace c); reflexivity.
  - rewrite rev_app_distr. simpl.
    destruct (rev r ++ [d]) eqn:E'; [ | reflexivity ].
    apply app_eq_nil in E'. destruct E' as [_ E']. discriminate.
Qed.

Lemma trimEnd_startsClean s : startsClean s -> startsClean (trimEnd s).
Proof.
  destruct s as [ | c s ]; [intros _; exact I | ].
  simpl. intros Hc. rewrite trimEnd_cons.
  destruct (trimEnd s); [rewrite Hc | ]; exact Hc.
Qed.

Lemma trimEnd_idempotent s : trimEnd (trimEnd s) = trimEnd s.
Proof.
  unfold trimEnd. rewrite rev_involutive.
  rewrite (trimStart_fixed (trimStart (rev s))); [reflexivity | ].
  apply trimStart_startsClean.
Qed.

Lemma trim_idempotent s : trim (trim s) = trim s.
Proof.
  unfold trim.
  rewrite (trimStart_fixed (trimEnd (trimStart s))).
  - apply trimEnd_idempotent.
  - apply trimEnd_startsClean, trimStart_startsClean.
Qed.

Lemma trimStart_In x s : In x (trimStart s) -> In x s.
Proof.
  induction s as [ | c s IH ]; simpl; [tauto | ].
  destruct (isWhiteSpace c); simpl; tauto.
Qed.

Lemma trim_In x s : In x (trim s) -> In x s.
Proof.
  unfold trim, trimEnd. intros H.
  apply in_rev, trimStart_In, in_rev, trimStart_In in H. exact H.
Qed.

(** *** split and join on the line break *)


Lemma startsWith_newline c s :
  startsWith newline (c :: s) = (10 =? c)%N.
Proof. simpl. apply andb_true_r. Qed.

Lemma split_go_no_newline s :
  forall cur, ~ In 10%N cur ->
              Forall (fun l => ~ In 10%N l) (split_go newline 0 cur s).
Proof.
  induction s as [ | c s IH ]; intros cur Hcur.
  - simpl. constructor; [ | constructor ]. rewrite <- in_rev. exact Hcur.
  - cbn [split_go]. rewrite startsWith_newline.
    destruct (10 =? c)%N eqn:E.
    + constructor; [rewrite <- in_rev; exact Hcur | ].
      apply IH. simpl. tauto.
    + apply IH. simpl. apply N.eqb_neq in E. intros [H | H]; auto.
Qed.

Lemma split_go_line l :
  forall cur, ~ In 10%N l -> split_go newline 0 cur l = [rev cur ++ l].
Proof.
  induction l as [ | c l IH ]; intros cur Hl.
  - simpl. rewrite app_nil_r. reflexivity.
  - cbn [split_go]. rewrite startsWith_newline.
    destruct (10 =? c)%N eqn:E.
    + apply N.eqb_eq in E. simpl in Hl. exfalso. auto.
    + rewrite IH by (simpl in Hl; tauto).
      simpl. rewrite <- app_assoc. reflexivity.
Qed.

Lemma split_go_line_break l r :
  forall cur, ~ In 10%N l ->
              split_go newline 0 cur (l ++ 10%N :: r)
              = (rev cur ++ l) :: split_go newline 0 [] r.
Proof.
  induction l as [ | c l IH ]; intros cur Hl.
  - simpl. rewrite app_nil_r. reflexivity.
  - cbn [split_go app]. rewrite startsWith_newline.
    destruct (10 =? c)%N eqn:E.
    + apply N.eqb_eq in E. simpl in Hl. exfalso. auto.
    + rewrite IH by (simpl in Hl; tauto).
      simpl. rewrite <- app_assoc. reflexivity.
Qed.

Lemma split_join ls :
  ls <> [] -> Forall (fun l => ~ In 10%N l) ls ->
  split newline (join newline ls) = ls.
Proof.
  unfold split. induction ls as [ | x ls IH ]; [congruence | ].
  intros _ Hall. inversion Hall as [ | ? ? Hx Hls ]; subst.
  destruct ls as [ | y ls ].
  - simpl. apply split_go_line. exact Hx.
  - change (join newline (x :: y :: ls))
      with (x ++ 10%N :: join newline (y :: ls)).
    rewrite split_go_line_break by exact Hx.
    rewrite IH by (congruence || exact Hls). reflexivity.
Qed.

(** *** No run of line breaks in a normalized text *)


Lemma match_at_newlines3 i s e :
  match_at newlines3 i s = Some e ->
  exists r, s = 10%N :: 10%N :: r.
Proof.
  unfold match_at, newlines3.
  destruct s as [ | a [ | b r ] ]; cbn -[N.eqb].
  - discriminate.
  - destruct (10 =? a)%N; discriminate.
  - destruct (10 =? a)%N eqn:Ea; [ | discriminate ].
    destruct (10 =? b)%N eqn:Eb; [ | discriminate ].
    apply N.eqb_eq in Ea. apply N.eqb_eq in Eb. subst. eauto.
Qed.

Lemma search_from_newlines3 s :
  noDoubleBreak s = true -> forall i, search_from newlines3 i s = None.
Proof.
  induction s as [ | a s IH ]; intros Hs i.
  - reflexivity.
  - cbn [search_from].
    destruct (match_at newlines3 i (a :: s)) as [e | ] eqn:E.
    + apply match_at_newlines3 in E. destruct E as [r E].
      inversion E; subst. simpl in Hs. discriminate.
    + apply IH. destruct s as [ | b s ]; [reflexivity | ].
      cbn [noDoubleBreak] in Hs. apply andb_true_iff in Hs. tauto.
Qed.

Lemma replace_g_newlines3 repl s :
  noDoubleBreak s = true -> replace_g newlines3 repl s = s.
Proof.
  intros Hs. unfold replace_g.
  replace (length s + 2) with (S (length s + 1)) by lia.
  cbn [exec_all]. unfold exec. simpl.
  rewrite search_from_newlines3 by exact Hs. reflexivity.
Qed.

Lemma noDoubleBreak_line_break l c r :
  ~ In 10%N l -> c <> 10%N -> noDoubleBreak (c :: r) = true ->
  noDoubleBreak (l ++ 10%N :: c :: r) = true.
Proof.
  intros Hl Hc Hr. induction l as [ | a l IH ].
  - cbn [app noDoubleBreak]. cbn [noDoubleBreak] in Hr. rewrite Hr.
    apply N.eqb_neq in Hc. rewrite Hc. reflexivity.
  - assert (Ha : (a =? 10)%N = false) by (apply N.eqb_neq; simpl in Hl; intuition).
    assert (IH' : noDoubleBreak (l ++ 10%N :: c :: r) = true)
      by (apply IH; simpl in Hl; tauto).
    destruct l as [ | b l ]; cbn [app noDoubleBreak] in *;
      rewrite Ha; simpl; exact IH'.
Qed.

Lemma noDoubleBreak_line l : ~ In 10%N l -> noDoubleBreak l = true.
Proof.
  induction l as [ | a l IH ]; intros Hl; [reflexivity | ].
  assert (Ha : (a =? 10)%N = false) by (apply N.eqb_neq; simpl in Hl; intuition).
  destruct l as [ | b l ]; [reflexivity | ].
  cbn [noDoubleBreak]. rewrite Ha. simpl. apply IH. simpl in Hl. tauto.
Qed.

Lemma noDoubleBreak_join ls :
  Forall cleanLine ls -> noDoubleBreak (join newline ls) = true.
Proof.
  induction 1 as [ | x ls Hx Hls IH ]; [reflexivity | ].
  destruct ls as [ | y ls ].
  - simpl. apply noDoubleBreak_line. apply Hx.
  - change (join newline (x :: y :: ls))
      with (x ++ 10%N :: join newline (y :: ls)).
    inversion Hls as [ | ? ? Hy _ ]; subst.
    destruct Hy as (Hne & Hnl & _).
    destruct y as [ | c y ]; [congruence | ].
    assert (Hc : c <> 10%N) by (intros ->; apply Hnl; left; reflexivity).
    destruct ls as [ | z ls ].
    + apply noDoubleBreak_line_break; [apply Hx | exact Hc | exact IH].
    + change (join newline ((c :: y) :: z :: ls))
        with (c :: y ++ 10%N :: join newline (z :: ls)) in *.
      apply noDoubleBreak_line_break; [apply Hx | exact Hc | exact IH].
Qed.

(** *** The lines of a text *)


Lemma keptLines_clean rawText : Forall cleanLine (keptLines rawText).
Proof.
  unfold keptLines. apply Forall_forall. intros l Hl.
  apply filter_In in Hl. destruct Hl as [Hin Hlen].
  apply in_map_iff in Hin. destruct Hin as (l0 & <- & Hin0).
  pose proof (split_go_no_newline rawText [] (fun H => H)) as Hsplit.
  rewrite Forall_forall in Hsplit. specialize (Hsplit l0 Hin0).
  split; [ | split ].
  - intros H0. rewrite H0 in Hlen. discriminate.
  - intros H. apply Hsplit. apply trim_In. exact H.
  - apply trim_idempotent.
Qed.

Lemma keptLines_join ls :
  Forall cleanLine ls -> keptLines (join newline ls) = ls.
Proof.
  intros Hls. unfold keptLines.
  destruct ls as [ | x ls' ] eqn:Els; [reflexivity | ].
  rewrite <- Els in *.
  rewrite split_join.
  - clear Els. induction Hls as [ | l ls Hl _ IH ]; [reflexivity | ].
    destruct Hl as (Hne & _ & Ht).
    simpl. rewrite Ht, IH.
    destruct l; [congruence | reflexivity].
  - rewrite Els. discriminate.
  - apply Forall_impl with (P := cleanLine); [ | exact Hls ].
    intros l Hl. apply Hl.
Qed.

Lemma normalizeText_join rawText :
  normalizeText rawText = join newline (keptLines rawText).
Proof.
  unfold normalizeText. fold (keptLines rawText).
  apply replace_g_newlines3, noDoubleBreak_join, keptLines_clean.
Qed.

(** C4: normalizing a normalized text changes nothing. *)
Theorem normalizeText_idempotent s :
  normalizeText (normalizeText s) = normalizeText s.
Proof.
  rewrite (normalizeText_join s).
  rewrite (normalizeText_join (join newline (keptLines s))).
  rewrite keptLines_join by apply keptLines_clean.
  reflexivity.
Qed.

End NormalizeText.

(** * Further properties of the pipeline *)

(** ** normalizeText: shape and size of the result *)

Section NormalizedShape.

Import TextExtractor.

Lemma join_cons sep x l :
  l <> [] -> join sep (x :: l) = x ++ sep ++ join sep l.
Proof. destruct l; [congruence | reflexivity]. Qed.

Lemma split_go_nonempty sep s : forall skip cur, split_go sep skip cur s <> [].
Proof.
  induction s as [ | c s IH ]; intros skip cur; simpl; [discriminate | ].
  destruct skip; [ | apply IH ].
  destruct (startsWith sep (c :: s)); [discriminate | apply IH].
Qed.

(** Splitting on the line break and joining again gives the text back. *)
Lemma join_split_go s :
  forall cur, join newline (split_go newline 0 cur s) = rev cur ++ s.
Proof.
  induction s as [ | c s IH ]; intros cur.
  - simpl. rewrite app_nil_r. reflexivity.
  - cbn [split_go]. rewrite startsWith_newline.
    destruct (10 =? c)%N eqn:E.
    + apply N.eqb_eq in E. subst c.
      rewrite join_cons by apply split_go_nonempty.
      rewrite IH. reflexivity.
    + rewrite IH. simpl. rewrite <- app_assoc. reflexivity.
Qed.

Lemma join_split s : join newline (split newline s) = s.
Proof. unfold split. apply join_split_go. Qed.

Lemma length_trimStart s : length (trimStart s) <= length s.
Proof.
  induction s as [ | c s IH ]; simpl; [lia | ].
  destruct (isWhiteSpace c); simpl; lia.
Qed.

Lemma length_trim s : length (trim s) <= length s.
Proof.
  unfold trim, trimEnd. rewrite length_rev.
  etransitivity; [apply length_trimStart | ].
  rewrite length_rev. apply length_trimStart.
Qed.

Lemma length_join_kept ls :
  length (join newline
            (filter (fun line => 0 <? length line) (map trim ls)))
  <= length (join newline ls).
Proof.
  induction ls as [ | x ls IH ]; [reflexivity | ].
  pose proof (length_trim x) as Hx.
  assert (Hjoin : length x <= length (join newline (x :: ls))).
  { destruct ls; [reflexivity | ].
    rewrite join_cons by discriminate. rewrite length_app. lia. }
  assert (Hrest : length (join newline ls) <= length (join newline (x :: ls))).
  { destruct ls; [simpl; lia | ].
    rewrite (join_cons newline x) by discriminate. rewrite !length_app. lia. }
  cbn [map filter].
  destruct (0 <? length (trim x)); [ | lia ].
  destruct (filter (fun line => 0 <? length line) (map trim ls)) as [ | y k ] eqn:E.
  - change (join newline [trim x]) with (trim x). lia.
  - rewrite join_cons by discriminate.
    destruct ls as [ | z ls ]; [discriminate | ].
    rewrite (join_cons newline x) by discriminate.
    rewrite !length_app. lia.
Qed.

(** X1: normalizeText never makes a text longer. *)
Theorem normalizeText_length s : length (normalizeText s) <= length s.
Proof.
  rewrite normalizeText_join. unfold keptLines.
  etransitivity; [apply length_join_kept | ].
  rewrite join_split. reflexivity.
Qed.

Lemma join_clean_nil ls :
  Forall cleanLine ls -> join newline ls = [] -> ls = [].
Proof.
  intros Hls Hj. destruct ls as [ | x ls ]; [reflexivity | ].
  inversion Hls as [ | ? ? (Hne & _) _ ]; subst.
  destruct ls; simpl in Hj; [congruence | ].
  destruct x; [congruence | discriminate].
Qed.

Lemma keptLines_nil s :
  keptLines s = [] <-> Forall (fun l => trim l = []) (split newline s).
Proof.
  unfold keptLines. induction (split newline s) as [ | x ls IH ]; simpl.
  - split; [constructor | reflexivity].
  - destruct (trim x) as [ | c t ] eqn:E; simpl.
    + rewrite IH. split; [intros H; constructor; auto | intros H].
      inversion H; auto.
    + split; [discriminate | intros H]. inversion H; congruence.
Qed.

(** X2: a normalized text has no blank line and no line with white space
    at either end, and it is empty exactly when every line of the input
    is blank. *)
Theorem normalizeText_lines s :
  (normalizeText s <> [] ->
   Forall (fun l => l <> [] /\ trim l = l) (split newline (normalizeText s))) /\
  (normalizeText s = [] <->
   Forall (fun l => trim l = []) (split newline s)).
Proof.
  pose proof (keptLines_clean s) as Hclean.
  rewrite normalizeText_join.
  split.
  - intros Hne.
    assert (Hls : keptLines s <> []) by (intros H; rewrite H in Hne; auto).
    rewrite split_join; [ | exact Hls | ].
    + apply Forall_impl with (P := cleanLine); [ | exact Hclean ].
      intros l (H1 & _ & H3). auto.
    + apply Forall_impl with (P := cleanLine); [ | exact Hclean ].
      intros l (_ & H2 & _). exact H2.
  - rewrite <- keptLines_nil. split.
    + apply join_clean_nil. exact Hclean.
    + intros ->. reflexivity.
Qed.

Lemma normalizeText_lines_witness :
  Forall (fun l => l <> [] /\ trim l = l)
    (split newline (normalizeText Sample.resumeFile)).
Proof.
  apply (proj1 (normalizeText_lines Sample.resumeFile)).
  vm_compute. discriminate.
Defined.

End NormalizedShape.

(** ** findSections: what a section can hold *)

Section SectionContent.

Import SectionDetector.

Lemma In_firstn_index {A} (x : A) xs :
  forall n, In x (firstn n xs) -> exists m, m < n /\ nth_error xs m = Some x.
Proof.
  induction xs as [ | y xs IH ]; intros n H.
  - rewrite firstn_nil in H. destruct H.
  - destruct n as [ | n ]; [destruct H | ].
    simpl in H. destruct H as [-> | H].
    + exists 0. split; [lia | reflexivity].
    + apply IH in H. destruct H as (m & Hm & Hx).
      exists (S m). split; [lia | exact Hx].
Qed.

Lemma In_slice_index {A} (x : A) a b xs :
  In x (slice a b xs) -> exists k, a <= k < b /\ nth_error xs k = Some x.
Proof.
  unfold slice. intros H. apply In_firstn_index in H.
  destruct H as (m & Hm & Hx). rewrite nth_error_skipn in Hx.
  exists (a + m). split; [lia | exact Hx].
Qed.

Lemma In_sliceFrom_index {A} (x : A) a xs :
  In x (sliceFrom a xs) -> exists k, a <= k /\ nth_error xs k = Some x.
Proof.
  unfold sliceFrom. intros H. apply In_nth_error in H.
  destruct H as (m & Hx). rewrite nth_error_skipn in Hx.
  exists (a + m). split; [lia | exact Hx].
Qed.

Lemma contentInvariant_step lines i l st :
  nth_error lines i = Some l ->
  contentInvariant lines i st ->
  contentInvariant lines (S i) (findSections_step lines i l st).
Proof.
  intros Hl [Hsec Hcur]. unfold findSections_step.
  destruct (foundSection (trim l)) as [found | ] eqn:Ef.
  - split; simpl.
    + intros name x Hx.
      destruct (currentSection st) as [cur | ]; [ | apply (Hsec name x Hx) ].
      destruct (Hcur cur eq_refl) as (start & Hs & Hle & Hnone).
      rewrite Hs in Hx.
      replace (0 <=? Z.of_nat start)%Z with true in Hx
        by (symmetry; apply Z.leb_le; lia).
      rewrite Nat2Z.id in Hx.
      unfold setSection in Hx.
      destruct (SectionName_eqb name cur); [ | apply (Hsec name x Hx) ].
      apply In_slice_index in Hx. destruct Hx as (k & Hk & Hnth).
      split; [eapply nth_error_In; eauto | ].
      specialize (Hnone k Hk). unfold headerAt in Hnone.
      rewrite Hnth in Hnone. exact Hnone.
    + intros cur _. exists (S i). split; [lia | split; [lia | intros k Hk; lia]].
  - split; [exact Hsec | ].
    intros cur Hc. destruct (Hcur cur Hc) as (start & Hs & Hle & Hnone).
    exists start. split; [exact Hs | split; [lia | ] ].
    intros k Hk. destruct (Nat.eq_dec k i) as [-> | Hne].
    + unfold headerAt. rewrite Hl. exact Ef.
    + apply Hnone. lia.
Qed.

Lemma contentInvariant_loop lines todo :
  forall i st,
    (forall m l, nth_error todo m = Some l -> nth_error lines (i + m) = Some l) ->
    contentInvariant lines i st ->
    contentInvariant lines (i + length todo) (findSections_loop lines i todo st).
Proof.
  induction todo as [ | l todo IH ]; intros i st Hnth Hinv; simpl.
  - rewrite Nat.add_0_r. exact Hinv.
  - replace (i + S (length todo)) with (S i + length todo) by lia.
    apply IH.
    + intros m x Hx. replace (S i + m) with (i + S m) by lia.
      apply Hnth. exact Hx.
    + apply contentInvariant_step; [ | exact Hinv ].
      rewrite <- (Nat.add_0_r i). apply Hnth. reflexivity.
Qed.

(** X3: whatever findSections returns for a section, each of its lines
    is a line of the input, and none of them is a header line. *)
Theorem findSections_content lines name l :
  In l (findSections lines name) ->
  In l lines /\ foundSection (trim l) = None.
Proof.
  assert (Hinit : contentInvariant lines 0 findSections_init).
  { split; [intros n x [] | intros cur H; discriminate H]. }
  pose proof (contentInvariant_loop lines lines 0 findSections_init
                (fun m x H => H) Hinit) as [Hsec Hcur].
  unfold findSections. simpl in Hsec, Hcur.
  destruct (currentSection (findSections_loop lines 0 lines findSections_init))
    as [cur | ]; [ | apply Hsec ].
  destruct (Hcur cur eq_refl) as (start & Hs & _ & Hnone).
  rewrite Hs.
  replace (0 <=? Z.of_nat start)%Z with true by (symmetry; apply Z.leb_le; lia).
  rewrite Nat2Z.id. unfold setSection.
  destruct (SectionName_eqb name cur); [ | apply Hsec ].
  intros Hx. apply In_sliceFrom_index in Hx. destruct Hx as (k & Hk & Hnth).
  split; [eapply nth_error_In; eauto | ].
  assert (Hlt : k < length lines) by (apply nth_error_Some; congruence).
  specialize (Hnone k (conj Hk Hlt)). unfold headerAt in Hnone.
  rewrite Hnth in Hnone. exact Hnone.
Qed.

Lemma findSections_content_witness :
  In (u "Python, Rust") Sample.twoSections /\
  foundSection (trim (u "Python, Rust")) = None.
Proof.
  apply (findSections_content Sample.twoSections Key.skills).
  vm_compute. auto.
Defined.

(** X4: a section that no line opens stays empty. *)
Theorem findSections_unopened lines name :
  (forall k, headerAt lines k <> Some name) ->
  findSections lines name = [].
Proof.
  intros Hno.
  assert (Hall : Forall (fun l => foundSection (trim l) <> Some name) lines).
  { apply Forall_by_index. intros m x Hx.
    specialize (Hno m). unfold headerAt in Hno. rewrite Hx in Hno. exact Hno. }
  destruct (findSections_loop_keeps lines name lines Hall 0 findSections_init)
    as [Hs Hc]; [discriminate | ].
  unfold findSections.
  destruct (currentSection (findSections_loop lines 0 lines findSections_init))
    as [cur | ]; [ | exact Hs ].
  destruct (0 <=? sectionStartIndex
                    (findSections_loop lines 0 lines findSections_init))%Z;
    [ | exact Hs ].
  rewrite setSection_other by congruence. exact Hs.
Qed.

Lemma findSections_unopened_witness :
  findSections Sample.twoSections Key.projects = [].
Proof.
  apply findSections_unopened. intros k.
  destruct k as [ | [ | [ | [ | k ] ] ] ]; try (vm_compute; discriminate).
  unfold headerAt. simpl. destruct k; discriminate.
Defined.

End SectionContent.

(** ** Section headers are prefixes, and no line is the header of two sections *)

Section HeaderPrefixes.

Import SectionDetector.

Lemma chi_foldCase a x :
  isUpper (code a) = false ->
  ((x =? code a) || (isLower (code a) && (x =? code a - 32))
   || (isUpper (code a) && (x =? code a + 32)))%N
  = (code a =? foldCase x)%N.
Proof.
  intros Hup. rewrite Hup. simpl. rewrite orb_false_r.
  unfold foldCase, isLower, isUpper, inRange in *.
  apply eq_true_iff_eq.
  destruct ((65 <=? x) && (x <=? 90))%N eqn:Ex;
    rewrite ?andb_true_iff, ?andb_false_iff, ?orb_true_iff, ?andb_true_iff,
      ?N.eqb_eq, ?N.leb_le, ?N.leb_gt in *; lia.
Qed.

Lemma rmatch_liti cs :
  Forall (fun a => isUpper (code a) = false) cs ->
  forall i line k,
    rmatch (seqs (map chi cs)) i line k
    = if startsWith (map code cs) (map foldCase line)
      then k (i + length cs) (skipn (length cs) line)
      else None.
Proof.
  induction 1 as [ | a cs Ha _ IH ]; intros i line k.
  - simpl. rewrite Nat.add_0_r. reflexivity.
  - cbn [map seqs fold_right rmatch chi].
    fold (seqs (map chi cs)).
    destruct line as [ | c line ]; [reflexivity | ].
    cbn [map startsWith length skipn].
    rewrite (chi_foldCase a c Ha).
    destruct (code a =? foldCase c)%N; [ | reflexivity ].
    simpl. rewrite IH. replace (S i + length cs) with (i + S (length cs)) by lia.
    reflexivity.
Qed.

Lemma matchesAtStart_alts rs line :
  matchesAtStart (alts rs) line = existsb (fun r => matchesAtStart r line) rs.
Proof.
  unfold matchesAtStart, match_at.
  induction rs as [ | r rs IH ]; [destruct line; reflexivity | ].
  destruct rs as [ | r' rs ].
  - simpl. rewrite orb_false_r. reflexivity.
  - change (alts (r :: r' :: rs)) with (Alt r (alts (r' :: rs))).
    cbn [rmatch existsb].
    destruct (rmatch r 0 line (fun e _ => Some e)); [reflexivity | ].
    rewrite IH. reflexivity.
Qed.

Lemma search_from_Bol r s :
  forall i, search_from (Seq Bol r) (S i) s = None.
Proof.
  induction s as [ | c s IH ]; intros i; simpl; [reflexivity | apply IH].
Qed.

Lemma test_Bol r line : test (Seq Bol r) line = matchesAtStart r line.
Proof.
  unfold test, exec, matchesAtStart.
  change (length line <? 0) with false. change (skipn 0 line) with line.
  assert (Hm : match_at (Seq Bol r) 0 line = match_at r 0 line) by reflexivity.
  destruct line as [ | c line ]; cbn [search_from]; rewrite Hm;
    destruct (match_at r 0 _); try reflexivity.
  rewrite search_from_Bol. reflexivity.
Qed.

Lemma words_lower name :
  Forall (fun w => Forall (fun a => isUpper (code a) = false)
                     (list_ascii_of_string w)) (headerWords name).
Proof. destruct name; repeat constructor. Qed.

Lemma matchesAtStart_liti w line :
  Forall (fun a => isUpper (code a) = false) (list_ascii_of_string w) ->
  matchesAtStart (liti w) line = startsWith (u w) (map foldCase line).
Proof.
  intros Hw. unfold matchesAtStart, match_at, liti.
  rewrite (rmatch_liti _ Hw). unfold u, code.
  destruct (startsWith _ _); reflexivity.
Qed.

Lemma SECTION_PATTERNS_words :
  SECTION_PATTERNS
  = map (fun name => (name, Seq Bol (alts (map liti (headerWords name)))))
        sectionNames.
Proof. reflexivity. Qed.

Lemma test_header_pattern name line :
  test (Seq Bol (alts (map liti (headerWords name)))) line
  = beginsWithHeader name line.
Proof.
  rewrite test_Bol, matchesAtStart_alts. unfold beginsWithHeader.
  pose proof (words_lower name) as Hw.
  induction Hw as [ | w ws Hw _ IH ]; [reflexivity | ].
  simpl. rewrite IH. rewrite (matchesAtStart_liti w line Hw). reflexivity.
Qed.

(** Two strings that begin the same string: one begins the other. *)
Lemma startsWith_comparable a :
  forall b s, startsWith a s = true -> startsWith b s = true ->
              startsWith a b = true \/ startsWith b a = true.
Proof.
  induction a as [ | x a IH ]; intros b s Ha Hb; [left; reflexivity | ].
  destruct b as [ | y b ]; [right; reflexivity | ].
  destruct s as [ | c s ]; [discriminate | ].
  simpl in *. apply andb_true_iff in Ha. apply andb_true_iff in Hb.
  destruct Ha as [Hx Ha]. destruct Hb as [Hy Hb].
  apply N.eqb_eq in Hx. apply N.eqb_eq in Hy. subst.
  rewrite N.eqb_refl. simpl. eapply IH; eauto.
Qed.

Lemma wordsApart_all n m : n <> m -> wordsApart n m = true.
Proof. destruct n, m; intros H; try congruence; vm_compute; reflexivity. Qed.

Lemma beginsWithHeader_exclusive n m line :
  beginsWithHeader n line = true -> beginsWithHeader m line = true -> n = m.
Proof.
  intros Hn Hm.
  destruct (SectionName_eqb n m) eqn:E; [apply SectionName_eqb_eq; exact E | ].
  assert (Hne : n <> m) by (intros ->; destruct m; discriminate).
  pose proof (wordsApart_all n m Hne) as Hap.
  unfold beginsWithHeader in *.
  apply existsb_exists in Hn. destruct Hn as (a & Ha & Hsa).
  apply existsb_exists in Hm. destruct Hm as (b & Hb & Hsb).
  unfold wordsApart in Hap. rewrite forallb_forall in Hap.
  specialize (Hap a Ha). rewrite forallb_forall in Hap. specialize (Hap b Hb).
  apply andb_true_iff in Hap. destruct Hap as [H1 H2].
  destruct (startsWith_comparable _ _ _ Hsa Hsb) as [H | H];
    rewrite H in *; discriminate.
Qed.

(** X5: a line is a header of a section exactly when it begins, letter
    case apart, with one of the section's header words; no line is a
    header of two sections, so which section a header line opens does
    not depend on the order of the patterns. *)
Theorem foundSection_prefix line name :
  foundSection line = Some name <-> beginsWithHeader name line = true.
Proof.
  unfold foundSection. rewrite SECTION_PATTERNS_words.
  assert (Hfind : forall names,
             match find (fun p => test (snd p) line)
                     (map (fun n => (n, Seq Bol (alts (map liti (headerWords n)))))
                          names) with
             | Some p => In (fst p) names /\ beginsWithHeader (fst p) line = true
             | None => forall n, In n names -> beginsWithHeader n line = false
             end).
  { induction names as [ | n names IH ]; simpl; [tauto | ].
    rewrite test_header_pattern.
    destruct (beginsWithHeader n line) eqn:En; simpl; [auto | ].
    destruct (find _ _) as [p | ].
    - tauto.
    - intros m [<- | Hm]; auto. }
  specialize (Hfind sectionNames).
  destruct (find _ _) as [p | ]; simpl.
  - destruct Hfind as [_ Hp]. split.
    + intros H. inversion H; subst. exact Hp.
    + intros H. f_equal. eapply beginsWithHeader_exclusive; eauto.
  - split; [discriminate | ].
    intros H. rewrite Hfind in H; [discriminate | ].
    destruct name; simpl; auto 6.
Qed.

Lemma foundSection_prefix_witness :
  foundSection (u "Experienced in many things") = Some Key.experience.
Proof.
  apply (proj2 (foundSection_prefix (u "Experienced in many things")
                  Key.experience)).
  vm_compute. reflexivity.
Defined.

End HeaderPrefixes.

(** ** detectSkills: what a skill can be *)

Section SkillsShape.

Import SectionDetector.

Lemma includes_single s c : includes s [c] = false -> ~ In c s.
Proof.
  induction s as [ | x s IH ]; simpl; [tauto | ].
  rewrite andb_true_r. intros H. apply orb_false_iff in H.
  destruct H as [Hx Hs]. apply N.eqb_neq in Hx.
  intros [-> | Hin]; [congruence | apply IH; assumption].
Qed.

Lemma split_go_no_separator d s :
  forall cur, ~ In d cur ->
              Forall (fun l => ~ In d l) (split_go [d] 0 cur s).
Proof.
  induction s as [ | c s IH ]; intros cur Hcur.
  - simpl. constructor; [ | constructor ]. rewrite <- in_rev. exact Hcur.
  - cbn [split_go startsWith length Nat.sub]. rewrite andb_true_r.
    destruct (d =? c)%N eqn:E.
    + constructor; [rewrite <- in_rev; exact Hcur | ].
      apply IH. simpl. tauto.
    + apply IH. simpl. apply N.eqb_neq in E. intros [H | H]; auto.
Qed.

Lemma In_join x sep l ls : In l ls -> In x l -> In x (join sep ls).
Proof.
  induction ls as [ | y ls IH ]; intros Hl Hx; [destruct Hl | ].
  destruct ls as [ | z ls ].
  - destruct Hl as [-> | []]. exact Hx.
  - rewrite join_cons by discriminate.
    destruct Hl as [-> | Hl].
    + apply in_or_app. left. exact Hx.
    + apply in_or_app. right. apply in_or_app. right. apply IH; assumption.
Qed.

Lemma replace1_empty_In r x s : In x (replace1 r [] s) -> In x s.
Proof.
  unfold replace1. destruct (exec r 0 s) as [ [b e] | ]; [ | auto ].
  simpl. intros H. apply in_app_or in H.
  destruct H as [H | H].
  - rewrite <- (firstn_skipn b s). apply in_or_app. left. exact H.
  - rewrite <- (firstn_skipn e s). apply in_or_app. right. exact H.
Qed.

(** X6: detectSkills never returns an empty skill, nor one that
    contains a comma. *)
Theorem detectSkills_no_comma sectionLines skill :
  In skill (detectSkills sectionLines) ->
  skill <> [] /\ ~ In 44%N skill.
Proof.
  unfold detectSkills.
  destruct sectionLines as [ | l0 ls ]; [intros [] | ].
  set (lines := l0 :: ls).
  destruct (includes (join (u " ") lines) (u ",")) eqn:Ec; intros H;
    apply filter_In in H; destruct H as [H Hlen];
    (split; [intros ->; discriminate Hlen | ]);
    apply in_map_iff in H; destruct H as (p & <- & Hp).
  - pose proof (split_go_no_separator 44%N (join (u " ") lines) []
                  (fun F => F)) as Hs.
    rewrite Forall_forall in Hs. specialize (Hs p Hp).
    intros Hin. apply Hs. apply trim_In. exact Hin.
  - apply includes_single in Ec.
    intros Hin. apply Ec.
    apply (In_join _ _ p lines Hp).
    apply trim_In. eapply replace1_empty_In. exact Hin.
Qed.

Lemma detectSkills_no_comma_witness :
  u "React" <> [] /\ ~ In 44%N (u "React").
Proof.
  apply (detectSkills_no_comma [u "Python, React, Docker"]).
  vm_compute. auto.
Defined.

End SkillsShape.

(** ** The entry detectors: one entry per header line *)

Section EntryCounts.

Import SectionDetector.

Variable toLowerCase : jsstring -> jsstring.

Lemma length_pushOpt {A} (l : list A) x :
  length (pushOpt l x) = length l + match x with Some _ => 1 | None => 0 end.
Proof. destruct x; simpl; [rewrite length_app; simpl | ]; lia. Qed.

Lemma detectExperience_loop_count todo :
  forall experiences currentExp,
    length (pushOpt (fst (detectExperience_loop toLowerCase todo experiences
                            currentExp))
                    (snd (detectExperience_loop toLowerCase todo experiences
                            currentExp)))
    = length (pushOpt experiences currentExp)
      + length (filter opensExperience todo).
Proof.
  induction todo as [ | line todo IH ]; intros experiences currentExp;
    cbn [detectExperience_loop filter]; [simpl; lia | ].
  change (opensExperience line)
    with (truthy (trim line) && test datePattern (trim line)).
  destruct (truthy (trim line)); cbn [negb andb]; [ | apply IH ].
  destruct (test datePattern (trim line)).
  - rewrite IH. rewrite !length_pushOpt. cbn [length]. lia.
  - destruct currentExp as [e | ]; rewrite IH; rewrite !length_pushOpt; lia.
Qed.

Lemma detectProjects_loop_count todo :
  forall projects currentProject,
    length (pushOpt (fst (detectProjects_loop toLowerCase todo projects
                            currentProject))
                    (snd (detectProjects_loop toLowerCase todo projects
                            currentProject)))
    = length (pushOpt projects currentProject)
      + length (filter opensProject todo).
Proof.
  induction todo as [ | line todo IH ]; intros projects currentProject;
    cbn [detectProjects_loop filter]; [simpl; lia | ].
  change (opensProject line)
    with (truthy (trim line) && negb (test bulletStart (trim line))
          && (5 <? length (trim line)) && negb (includes (trim line) (u ":"))).
  destruct (truthy (trim line)); cbn [negb andb]; [ | apply IH ].
  destruct (negb (test bulletStart (trim line)) && (5 <? length (trim line))
            && negb (includes (trim line) (u ":"))).
  - rewrite IH. rewrite !length_pushOpt. cbn [length]. lia.
  - destruct currentProject as [p | ]; rewrite IH; rewrite !length_pushOpt; lia.
Qed.

Lemma detectEducation_loop_count todo :
  forall education currentEdu,
    length (pushOpt (fst (detectEducation_loop todo education currentEdu))
                    (snd (detectEducation_loop todo education currentEdu)))
    = length (pushOpt education currentEdu)
      + length (filter opensEducation todo).
Proof.
  induction todo as [ | line todo IH ]; intros education currentEdu;
    cbn [detectEducation_loop filter]; [simpl; lia | ].
  change (opensEducation line)
    with (truthy (trim line) && test degreePattern (trim line)).
  destruct (truthy (trim line)); cbn [negb andb]; [ | apply IH ].
  destruct (test degreePattern (trim line)).
  - rewrite IH. rewrite !length_pushOpt. cbn [length]. lia.
  - destruct currentEdu as [e | ]; [ | rewrite IH; rewrite !length_pushOpt; lia ].
    destruct (negb (truthy (Edu.institution e)) && (5 <? length (trim line)));
      rewrite IH; rewrite !length_pushOpt; lia.
Qed.

(** X7: each of the three entry detectors returns exactly one entry per
    line that opens one: a dated line for experience, an unbulleted line
    of more than five code units without a colon for projects, a line
    with a degree keyword for education. *)
Theorem entries_per_header sectionLines :
  length (detectExperience toLowerCase sectionLines)
  = length (filter opensExperience sectionLines) /\
  length (detectProjects toLowerCase sectionLines)
  = length (filter opensProject sectionLines) /\
  length (detectEducation sectionLines)
  = length (filter opensEducation sectionLines).
Proof.
  destruct sectionLines as [ | l ls ]; [repeat split | ].
  set (lines := l :: ls).
  unfold detectExperience, detectProjects, detectEducation. fold lines.
  pose proof (detectExperience_loop_count lines [] None) as He.
  pose proof (detectProjects_loop_count lines [] None) as Hp.
  pose proof (detectEducation_loop_count lines [] None) as Hd.
  destruct (detectExperience_loop toLowerCase lines [] None) as [e1 e2].
  destruct (detectProjects_loop toLowerCase lines [] None) as [p1 p2].
  destruct (detectEducation_loop lines [] None) as [d1 d2].
  cbn [fst snd pushOpt length Nat.add] in He, Hp, Hd.
  unfold lines at 1 3 5. cbv beta iota. rewrite length_map.
  repeat split; assumption.
Qed.

End EntryCounts.

(** ** The entry detectors: nothing before the first header *)

Section BeforeFirstHeader.

Import SectionDetector.

Variable toLowerCase : jsstring -> jsstring.

Lemma detectExperience_loop_skip pre :
  Forall (fun l => opensExperience l = false) pre ->
  forall todo,
    detectExperience_loop toLowerCase (pre ++ todo) [] None
    = detectExperience_loop toLowerCase todo [] None.
Proof.
  induction 1 as [ | l pre Hl _ IH ]; intros todo; [reflexivity | ].
  cbn [app detectExperience_loop].
  unfold opensExperience in Hl.
  destruct (truthy (trim l)); cbn [negb]; [ | apply IH ].
  simpl in Hl. rewrite Hl. apply IH.
Qed.

Lemma detectProjects_loop_skip pre :
  Forall (fun l => opensProject l = false) pre ->
  forall todo,
    detectProjects_loop toLowerCase (pre ++ todo) [] None
    = detectProjects_loop toLowerCase todo [] None.
Proof.
  induction 1 as [ | l pre Hl _ IH ]; intros todo; [reflexivity | ].
  cbn [app detectProjects_loop].
  unfold opensProject in Hl.
  destruct (truthy (trim l)); cbn [negb]; [ | apply IH ].
  cbn [andb] in Hl. rewrite Hl. apply IH.
Qed.

Lemma detectEducation_loop_skip pre :
  Forall (fun l => opensEducation l = false) pre ->
  forall todo,
    detectEducation_loop (pre ++ todo) [] None
    = detectEducation_loop todo [] None.
Proof.
  induction 1 as [ | l pre Hl _ IH ]; intros todo; [reflexivity | ].
  cbn [app detectEducation_loop].
  unfold opensEducation in Hl.
  destruct (truthy (trim l)); cbn [negb]; [ | apply IH ].
  simpl in Hl. rewrite Hl. apply IH.
Qed.

(** X8: the lines of a section that come before its first entry header
    are dropped: they change nothing in what the three entry detectors
    return. *)
Theorem lines_before_first_header_dropped pre sectionLines :
  (Forall (fun l => opensExperience l = false) pre ->
   detectExperience toLowerCase (pre ++ sectionLines)
   = detectExperience toLowerCase sectionLines) /\
  (Forall (fun l => opensProject l = false) pre ->
   detectProjects toLowerCase (pre ++ sectionLines)
   = detectProjects toLowerCase sectionLines) /\
  (Forall (fun l => opensEducation l = false) pre ->
   detectEducation (pre ++ sectionLines) = detectEducation sectionLines).
Proof.
  split; [ | split ]; intros Hpre.
  - unfold detectExperience.
    rewrite (detectExperience_loop_skip pre Hpre).
    destruct (pre ++ sectionLines) eqn:E1; destruct sectionLines eqn:E2;
      try reflexivity.
    apply app_eq_nil in E1. destruct E1; discriminate.
  - unfold detectProjects.
    rewrite (detectProjects_loop_skip pre Hpre).
    destruct (pre ++ sectionLines) eqn:E1; destruct sectionLines eqn:E2;
      try reflexivity.
    apply app_eq_nil in E1. destruct E1; discriminate.
  - unfold detectEducation.
    rewrite (detectEducation_loop_skip pre Hpre).
    destruct (pre ++ sectionLines) eqn:E1; destruct sectionLines eqn:E2;
      try reflexivity.
    apply app_eq_nil in E1. destruct E1; discriminate.
Qed.

End BeforeFirstHeader.

Lemma lines_before_first_header_dropped_witness :
  SD.detectExperience Sample.toLowerCase
    ([u "Worked on many things"] ++ [u "Engineer | 2020 - 2023"; u "- Built it"])
  = SD.detectExperience Sample.toLowerCase
      [u "Engineer | 2020 - 2023"; u "- Built it"] /\
  SD.detectProjects Sample.toLowerCase
    ([u "- a bullet first"] ++ [u "Portfolio site"; u "- Built it"])
  = SD.detectProjects Sample.toLowerCase [u "Portfolio site"; u "- Built it"] /\
  SD.detectEducation ([u "Top of the class"] ++ [u "B.S. Physics 2018"])
  = SD.detectEducation [u "B.S. Physics 2018"].
Proof.
  pose proof (lines_before_first_header_dropped Sample.toLowerCase
                [u "Worked on many things"]
                [u "Engineer | 2020 - 2023"; u "- Built it"]) as [H1 _].
  pose proof (lines_before_first_header_dropped Sample.toLowerCase
                [u "- a bullet first"]
                [u "Portfolio site"; u "- Built it"]) as [_ [H2 _]].
  pose proof (lines_before_first_header_dropped Sample.toLowerCase
                [u "Top of the class"] [u "B.S. Physics 2018"]) as [_ [_ H3]].
  split; [ | split ].
  - apply H1. repeat constructor.
  - apply H2. repeat constructor.
  - apply H3. repeat constructor.
Defined.

(** ** normalizeSkills: the groups are the raw skills, sorted by category *)

Section SkillGroups.

Variable toLowerCase : jsstring -> jsstring.

Lemma str_eqb_sym a b : str_eqb a b = str_eqb b a.
Proof.
  destruct (str_eqb a b) eqn:E1; destruct (str_eqb b a) eqn:E2; auto.
  - apply str_eqb_eq in E1. subst. rewrite (proj2 (str_eqb_eq b b) eq_refl) in E2.
    discriminate.
  - apply str_eqb_eq in E2. subst. rewrite (proj2 (str_eqb_eq a a) eq_refl) in E1.
    discriminate.
Qed.

Lemma categorize_categoryOf c skill :
  NZ.categorize toLowerCase c skill = NZ.pushSkill (categoryOf toLowerCase skill) skill c.
Proof.
  unfold NZ.categorize, categoryOf. destruct (find _ _); reflexivity.
Qed.

Lemma fold_categorize (names : list jsstring) rawSkills :
  forall f : jsstring -> list jsstring,
    fold_left (NZ.categorize toLowerCase) rawSkills
      (map (fun c => (c, f c)) names)
    = map (fun c => (c, f c ++ skillsOf toLowerCase c rawSkills)) names.
Proof.
  induction rawSkills as [ | skill raw IH ]; intros f.
  - cbn [fold_left]. apply map_ext. intros c. unfold skillsOf. cbn [filter].
    rewrite app_nil_r. reflexivity.
  - cbn [fold_left]. rewrite categorize_categoryOf. unfold NZ.pushSkill.
    rewrite map_map. cbn [fst snd].
    rewrite (map_ext _ (fun c => (c, f c ++ (if str_eqb (categoryOf toLowerCase skill) c
                                             then [skill] else [])))).
    + rewrite IH. apply map_ext. intros c. unfold skillsOf. cbn [filter].
      rewrite <- app_assoc. destruct (str_eqb (categoryOf toLowerCase skill) c); reflexivity.
    + intros c. rewrite (str_eqb_sym c).
      destruct (str_eqb (categoryOf toLowerCase skill) c); [reflexivity | ].
      rewrite app_nil_r. reflexivity.
Qed.

Lemma map_filter_map {A B C} (g : B -> C) (p : B -> bool) (h : A -> B) l :
  map g (filter p (map h l))
  = map (fun a => g (h a)) (filter (fun a => p (h a)) l).
Proof.
  induction l as [ | a l IH ]; [reflexivity | ].
  simpl. destruct (p (h a)); simpl; rewrite IH; reflexivity.
Qed.

Lemma normalizeSkills_by_category rawSkills :
  NZ.normalizeSkills toLowerCase rawSkills
  = map (fun c => NZ.SkillGroup.mk c (skillsOf toLowerCase c rawSkills))
        (filter (fun c => 0 <? length (skillsOf toLowerCase c rawSkills)) categoryNames).
Proof.
  destruct rawSkills as [ | s raw ]; [reflexivity | ].
  unfold NZ.normalizeSkills.
  change NZ.categorized0 with (map (fun c => (c, @nil jsstring)) categoryNames).
  rewrite (fold_categorize categoryNames (s :: raw) (fun _ => [])).
  rewrite map_filter_map. reflexivity.
Qed.

(** X9: normalizeSkills returns, for each category in the fixed order
    Languages, Frontend, Backend, Database, DevOps, Tools, Other, the raw
    skills of that category in their input order, and leaves out the
    categories that have none. *)
Theorem normalizeSkills_groups rawSkills :
  NZ.normalizeSkills toLowerCase rawSkills
  = map (fun c => NZ.SkillGroup.mk c (skillsOf toLowerCase c rawSkills))
        (filter (fun c => 0 <? length (skillsOf toLowerCase c rawSkills)) categoryNames).
Proof.
  destruct rawSkills as [ | s raw ]; [reflexivity | ].
  unfold NZ.normalizeSkills.
  change NZ.categorized0 with (map (fun c => (c, @nil jsstring)) categoryNames).
  rewrite (fold_categorize categoryNames (s :: raw) (fun _ => [])).
  rewrite map_filter_map. reflexivity.
Qed.

Lemma categoryOf_named skill : In (categoryOf toLowerCase skill) categoryNames.
Proof.
  unfold categoryOf.
  destruct (find _ NZ.categories) as [e | ] eqn:E.
  - apply find_some in E. destruct E as [Hin _].
    simpl in Hin.
    repeat (destruct Hin as [<- | Hin]; [simpl; auto 8 | ]). destruct Hin.
  - simpl. auto 8.
Qed.

Lemma categoryNames_NoDup : NoDup categoryNames.
Proof.
  unfold categoryNames.
  repeat (constructor; [vm_compute; intuition discriminate | ]).
  constructor.
Qed.

Lemma concat_skillsOf_none (skill : jsstring) raw names :
  ~ In (categoryOf toLowerCase skill) names ->
  concat (map (fun c => skillsOf toLowerCase c (skill :: raw)) names)
  = concat (map (fun c => skillsOf toLowerCase c raw) names).
Proof.
  intros Hn. f_equal. apply map_ext_in. intros c Hc.
  unfold skillsOf. cbn [filter].
  destruct (str_eqb (categoryOf toLowerCase skill) c) eqn:E; [ | reflexivity ].
  apply str_eqb_eq in E. subst. contradiction.
Qed.

Lemma concat_skillsOf_perm raw :
  Permutation (concat (map (fun c => skillsOf toLowerCase c raw) categoryNames)) raw.
Proof.
  pose proof categoryNames_NoDup as Hnd.
  induction raw as [ | skill raw IH ].
  - replace (concat (map (fun c => skillsOf toLowerCase c []) categoryNames))
      with (@nil jsstring) by reflexivity.
    constructor.
  - destruct (in_split _ _ (categoryOf_named skill)) as (n1 & n2 & Hsplit).
    rewrite Hsplit in *.
    apply NoDup_remove_2 in Hnd.
    assert (H1 : ~ In (categoryOf toLowerCase skill) n1) by (intros H; apply Hnd, in_or_app; auto).
    assert (H2 : ~ In (categoryOf toLowerCase skill) n2) by (intros H; apply Hnd, in_or_app; auto).
    rewrite map_app, concat_app in *. cbn [map concat] in *.
    rewrite (concat_skillsOf_none skill raw n1 H1).
    rewrite (concat_skillsOf_none skill raw n2 H2).
    unfold skillsOf at 2. cbn [filter].
    rewrite (proj2 (str_eqb_eq _ _) eq_refl).
    fold (skillsOf toLowerCase (categoryOf toLowerCase skill) raw).
    cbn [app]. symmetry. apply Permutation_cons_app. symmetry. exact IH.
Qed.

Lemma concat_drop_empty {A B} (f : A -> list B) l :
  concat (map f (filter (fun a => 0 <? length (f a)) l)) = concat (map f l).
Proof.
  induction l as [ | a l IH ]; [reflexivity | ].
  simpl. destruct (f a) eqn:E; simpl; rewrite ?E; simpl; rewrite IH; reflexivity.
Qed.

Lemma normalizeSkills_items rawSkills :
  Permutation
    (concat (map NZ.SkillGroup.items (NZ.normalizeSkills toLowerCase rawSkills)))
    rawSkills.
Proof.
  rewrite normalizeSkills_by_category.
  rewrite map_map. cbn [NZ.SkillGroup.items].
  rewrite (concat_drop_empty (fun c => skillsOf toLowerCase c rawSkills)).
  apply concat_skillsOf_perm.
Qed.

(** X10: normalizeSkills loses no skill and repeats none: the items of
    its groups, taken together, are the raw skills in another order; no
    group is empty, and no category comes twice. *)
Theorem normalizeSkills_partition rawSkills :
  let groups := NZ.normalizeSkills toLowerCase rawSkills in
  Permutation (concat (map NZ.SkillGroup.items groups)) rawSkills /\
  Forall (fun g => NZ.SkillGroup.items g <> []) groups /\
  NoDup (map NZ.SkillGroup.category groups).
Proof.
  cbv zeta. split; [apply normalizeSkills_items | ].
  rewrite normalizeSkills_by_category. split.
  - apply Forall_forall. intros g Hg.
    apply in_map_iff in Hg. destruct Hg as (c & <- & Hc).
    apply filter_In in Hc. destruct Hc as [_ Hlen]. simpl.
    destruct (skillsOf toLowerCase c rawSkills); [discriminate | discriminate].
  - rewrite map_map. cbn [NZ.SkillGroup.category]. rewrite map_id.
    apply NoDup_filter. apply categoryNames_NoDup.
Qed.

End SkillGroups.

(** ** What a parse result looks like *)

Section ParseResults.

Variable toLowerCase : jsstring -> jsstring.
Variable host : TE.Host.
Variable env : RP.Env.

Lemma nonBlank_trim l : SD.nonBlank l = true -> trim l <> [].
Proof.
  unfold SD.nonBlank. destruct (trim l); [discriminate | discriminate].
Qed.

(** The name detectSections returns is not blank. *)
Lemma detectSections_name_not_blank text st :
  exists n, SD.name (fst (SD.detectSections toLowerCase text st)) = Some n
            /\ trim n <> [].
Proof.
  unfold SD.detectSections, SD.bind.
  set (lines := filter SD.nonBlank (split [10%N] text)).
  pose proof (detectName_cases lines st) as Hcases.
  destruct (SD.detectName lines st) as [n st1].
  destruct (SD.detectContact text st1) as [contact st2].
  destruct (SD.detectLinks text st2) as [links st3].
  cbv zeta in Hcases. cbn [fst] in Hcases.
  exists n. split; [reflexivity | ].
  destruct Hcases as [(l & _ & Hn & Hw) | [[Hf _] | [Hu _]]].
  - assert (Hne : n <> [])
      by (intros H0; rewrite H0, wordsOf_empty in Hw; simpl in Hw; lia).
    rewrite Hn, trim_idempotent, <- Hn. exact Hne.
  - apply nth_error_In in Hf. apply filter_In in Hf.
    apply nonBlank_trim. apply Hf.
  - rewrite Hu. vm_compute. discriminate.
Qed.

Lemma normalizeName_not_blank n :
  trim n <> [] ->
  NZ.normalizeName (Some n) <> []
  /\ trim (NZ.normalizeName (Some n)) = NZ.normalizeName (Some n).
Proof.
  intros Hn. unfold NZ.normalizeName.
  destruct (negb (truthy n) || str_eqb n (u "Unknown")).
  - split; [discriminate | reflexivity].
  - split; [exact Hn | apply trim_idempotent].
Qed.

(** X11: the name of every portfolio record a parse returns is neither
    empty nor padded with white space. *)
Theorem parsed_name_present filePath mimetype options st d :
  RP.data (snd (fst (RP.parseResume toLowerCase host env filePath mimetype
                       options st))) = Some d ->
  NZ.name d <> [] /\ trim (NZ.name d) = NZ.name d.
Proof.
  unfold RP.parseResume.
  destruct (TE.extractText host filePath mimetype) as [ev [msg | rawText]];
    [discriminate | ].
  destruct (negb (truthy rawText) || (length rawText <? 50)); [discriminate | ].
  destruct (detectSections_name_not_blank rawText st) as (n & Hn & Hne).
  destruct (SD.detectSections toLowerCase rawText st) as [detected st'].
  simpl in *. intros H. inversion H; subst d. clear H.
  unfold NZ.createPortfolioSchema. cbn [NZ.name]. rewrite Hn.
  apply normalizeName_not_blank. exact Hne.
Qed.

(** Every message extractText throws begins with ["Failed"] or
    ["Unsupported"]. *)
Lemma extractText_message filePath mimetype events message :
  TE.extractText host filePath mimetype = (events, inl message) ->
  exists c rest, message = c :: rest /\ (c = 70%N \/ c = 85%N).
Proof.
  unfold TE.extractText, TE.extractFromPDF, TE.extractFromDOCX, TE.extractFromTXT.
  destruct (str_eqb mimetype (u "application/pdf")).
  { destruct (TE.pdfText host filePath); intros H; inversion H.
    eexists _, _. split; [reflexivity | auto]. }
  destruct (str_eqb mimetype _).
  { destruct (TE.docxText host filePath); intros H; inversion H.
    eexists _, _. split; [reflexivity | auto]. }
  destruct (str_eqb mimetype (u "text/plain")).
  { destruct (TE.readUtf8 host filePath); intros H; inversion H.
    eexists _, _. split; [reflexivity | auto]. }
  intros H; inversion H. eexists _, _. split; [reflexivity | auto].
Qed.

(** X12: a parse result is of one of two shapes.  Success: data and
    metadata, no error, and a text length of at least 50.  Failure: a
    non-empty message, no data, no metadata. *)
Theorem parseResume_result_shape filePath mimetype options st :
  let r := snd (fst (RP.parseResume toLowerCase host env filePath mimetype
                       options st)) in
  (RP.success r = true /\ RP.error r = None /\
   exists d m, RP.data r = Some d /\ RP.metadata r = Some m
               /\ 50 <= RP.textLength m)
  \/ (RP.success r = false /\ RP.data r = None /\ RP.metadata r = None /\
      exists message, RP.error r = Some message /\ message <> []).
Proof.
  unfold RP.parseResume.
  destruct (TE.extractText host filePath mimetype) as [ev [msg | rawText]] eqn:Ex.
  - right. simpl. repeat split. exists msg. split; [reflexivity | ].
    apply extractText_message in Ex. destruct Ex as (c & rest & -> & _).
    discriminate.
  - destruct (length rawText <? 50) eqn:El.
    + rewrite orb_true_r. right. simpl. repeat split.
      exists RP.tooShort. split; [reflexivity | discriminate].
    + apply Nat.ltb_ge in El.
      assert (Ht : truthy rawText = true)
        by (destruct rawText; [simpl in El; lia | reflexivity]).
      rewrite Ht. simpl.
      destruct (SD.detectSections toLowerCase rawText st) as [detected st'].
      left. simpl. repeat split. eexists _, _. repeat split. exact El.
Qed.

(** X13: the too-short message is returned for a text that was
    extracted and is shorter than 50 code units, and for nothing else:
    an extraction failure never carries it. *)
Theorem tooShort_only_for_short_text filePath mimetype options st :
  RP.error (snd (fst (RP.parseResume toLowerCase host env filePath mimetype
                        options st))) = Some RP.tooShort
  <-> exists events text,
        TE.extractText host filePath mimetype = (events, inr text)
        /\ length text < 50.
Proof.
  split.
  - unfold RP.parseResume.
    destruct (TE.extractText host filePath mimetype) as [ev [msg | rawText]] eqn:Ex.
    + simpl. intros H. inversion H; subst msg.
      apply extractText_message in Ex.
      destruct Ex as (c & rest & Hm & [-> | ->]); discriminate Hm.
    + destruct (length rawText <? 50) eqn:El.
      * intros _. exists ev, rawText. split; [reflexivity | ].
        apply Nat.ltb_lt. exact El.
      * apply Nat.ltb_ge in El.
        assert (Ht : truthy rawText = true)
          by (destruct rawText; [simpl in El; lia | reflexivity]).
        rewrite Ht. simpl.
        destruct (SD.detectSections toLowerCase rawText st) as [detected st'].
        simpl. discriminate.
  - intros (events & text & Hx & Hlen).
    destruct (parseResume_extracted toLowerCase host env filePath mimetype
                options st events text Hx) as [Hshort _].
    rewrite (Hshort Hlen). reflexivity.
Qed.

Lemma normalizeSkills_nil rawSkills :
  NZ.normalizeSkills toLowerCase rawSkills = [] <-> rawSkills = [].
Proof.
  split; [ | intros ->; reflexivity ].
  intros H.
  pose proof (normalizeSkills_items toLowerCase rawSkills) as Hperm.
  rewrite H in Hperm. simpl in Hperm. apply Permutation_nil in Hperm. exact Hperm.
Qed.

Lemma map_guard_nil {A B} (f : A -> B) (l : list A) :
  match l with [] => [] | _ => map f l end = [] <-> l = [].
Proof. destruct l; simpl; split; congruence. Qed.

Lemma orNull_present x : orNull x <> None <-> RP.truthyOpt x = true.
Proof.
  unfold orNull, RP.truthyOpt. destruct x as [s | ]; [ | split; congruence ].
  destruct (truthy s); split; congruence.
Qed.

Lemma length_pos_nonempty {A} (l : list A) : (0 <? length l) = true <-> l <> [].
Proof.
  destruct l; simpl; split; intros H; try discriminate; try reflexivity.
  contradiction H. reflexivity.
Qed.

(** X14: the metadata flags, computed from what was detected, say the
    same as the normalized record: a section is reported as found
    exactly when its list in the record is not empty, and contact
    exactly when the record has an email or a phone. *)
Theorem metadata_agrees_with_data filePath mimetype options st d m :
  let r := snd (fst (RP.parseResume toLowerCase host env filePath mimetype
                       options st)) in
  RP.data r = Some d -> RP.metadata r = Some m ->
  let found := RP.sectionsFound m in
  (RP.hasSkills found = true <-> NZ.skills d <> []) /\
  (RP.hasExperience found = true <-> NZ.experience d <> []) /\
  (RP.hasProjects found = true <-> NZ.projects d <> []) /\
  (RP.hasEducation found = true <-> NZ.education d <> []) /\
  (RP.hasContact found = true <->
   NZ.email (NZ.links d) <> None \/ NZ.phone (NZ.links d) <> None).
Proof.
  unfold RP.parseResume.
  destruct (TE.extractText host filePath mimetype) as [ev [msg | rawText]];
    [discriminate | ].
  destruct (negb (truthy rawText) || (length rawText <? 50)); [discriminate | ].
  destruct (SD.detectSections toLowerCase rawText st) as [detected st'].
  cbv zeta. simpl. intros Hd Hm. inversion Hd; subst d. inversion Hm; subst m.
  clear Hd Hm. simpl.
  unfold NZ.normalizeExperience, NZ.normalizeProjects, NZ.normalizeEducation.
  rewrite !length_pos_nonempty.
  split; [ | split; [ | split; [ | split ] ] ].
  - rewrite <- normalizeSkills_nil. tauto.
  - rewrite map_guard_nil. tauto.
  - rewrite map_guard_nil. tauto.
  - rewrite map_guard_nil. tauto.
  - rewrite orb_true_iff, <- !orNull_present. reflexivity.
Qed.

End ParseResults.

Lemma parsed_name_present_witness :
  let d :=
    NZ.createPortfolioSchema Sample.toLowerCase
      (fst (SD.detectSections Sample.toLowerCase Sample.resume50 SD.initialState)) in
  NZ.name d <> [] /\ trim (NZ.name d) = NZ.name d.
Proof.
  intros d.
  apply (parsed_name_present Sample.toLowerCase Sample.host Sample.noKey
           (u "resume.txt") (u "text/plain") {| RP.useAI := None |}
           SD.initialState d).
  vm_compute. reflexivity.
Defined.

Lemma tooShort_only_for_short_text_witness :
  RP.error (snd (fst (RP.parseResume Sample.toLowerCase Sample.host Sample.noKey
                        (u "short.txt") (u "text/plain") {| RP.useAI := None |}
                        SD.initialState)))
  = Some RP.tooShort.
Proof.
  apply (proj2 (tooShort_only_for_short_text Sample.toLowerCase Sample.host
                  Sample.noKey (u "short.txt") (u "text/plain")
                  {| RP.useAI := None |} SD.initialState)).
  exists (fst (TE.extractText Sample.host (u "short.txt") (u "text/plain"))),
         Sample.resume49.
  split; [vm_compute; reflexivity | vm_compute; lia].
Defined.

Lemma metadata_agrees_with_data_witness :
  let r :=
    snd (fst (RP.parseResume Sample.toLowerCase Sample.host Sample.noKey
                (u "resume.txt") (u "text/plain") {| RP.useAI := None |}
                SD.initialState)) in
  exists d m,
    RP.data r = Some d /\ RP.metadata r = Some m
    /\ RP.hasExperience (RP.sectionsFound m) = true /\ NZ.experience d <> []
    /\ RP.hasSkills (RP.sectionsFound m) = false /\ ~ NZ.skills d <> [].
Proof.
  intros r.
  set (d := NZ.createPortfolioSchema Sample.toLowerCase
              (fst (SD.detectSections Sample.toLowerCase Sample.resume50
                      SD.initialState))).
  set (m := {| RP.textLength := 50;
               RP.sectionsFound :=
                 {| RP.hasName := true; RP.hasContact := false;
                    RP.hasSkills := false; RP.hasExperience := true;
                    RP.hasProjects := false; RP.hasEducation := false |} |}).
  assert (Hd : RP.data r = Some d) by (vm_compute; reflexivity).
  assert (Hm : RP.metadata r = Some m) by (vm_compute; reflexivity).
  destruct (metadata_agrees_with_data Sample.toLowerCase Sample.host Sample.noKey
              (u "resume.txt") (u "text/plain") {| RP.useAI := None |}
              SD.initialState d m Hd Hm) as (Hskills & Hexperience & _).
  exists d, m.
  split; [exact Hd | split; [exact Hm | split; [reflexivity | split; [ | split ] ] ] ].
  - apply Hexperience. reflexivity.
  - reflexivity.
  - intros H. apply Hskills in H. discriminate H.
Defined.

(** ** What a match is made of *)

Section MatcherSound.

Lemma rmatch_sound (r : regex) :
  forall i s k e, rmatch r i s k = Some e -> matchedBy r i s k e.
Proof.
  unfold matchedBy.
  induction r as [ | p | | r1 IH1 r2 IH2 | r1 IH1 r2 IH2 | mn mx r IH ];
    intros i s k e; simpl.
  - intros H. exists [], s. rewrite Nat.add_0_r. auto.
  - destruct s as [ | c s' ]; [discriminate | ].
    destruct (p c) eqn:Ep; [ | discriminate ].
    intros H. exists [c], s'. simpl. replace (i + 1) with (S i) by lia.
    split; [reflexivity | split; [eauto | exact H]].
  - destruct (i =? 0) eqn:E; [ | discriminate ].
    apply Nat.eqb_eq in E. intros H. exists [], s. rewrite Nat.add_0_r. auto.
  - intros H. apply IH1 in H. destruct H as (s1 & s' & -> & H1 & H).
    apply IH2 in H. destruct H as (s2 & s3 & -> & H2 & H).
    exists (s1 ++ s2), s3. rewrite length_app, <- app_assoc, Nat.add_assoc.
    split; [reflexivity | split; [ | exact H ]].
    exists s1, s2. auto.
  - destruct (rmatch r1 i s k) eqn:E1.
    + intros H; injection H as <-. apply IH1 in E1.
      destruct E1 as (s1 & s2 & -> & H1 & H). exists s1, s2. auto.
    + intros H. apply IH2 in H.
      destruct H as (s1 & s2 & -> & H1 & H). exists s1, s2. auto.
  - generalize (mn + length s + 1) as fuel. intros fuel.
    revert mn mx i s e.
    induction fuel as [ | fuel IHf ]; intros mn mx i s e; [discriminate | ].
    assert (Hiter : forall x rest e',
               lang r i x ->
               (if (mn =? 0) && (i + length x =? i) then None
                else (fix loop (fuel mn : nat) (mx : option nat) (i : nat)
                        (s : jsstring) {struct fuel} : option nat :=
                        match fuel with
                        | O => None
                        | S fuel' =>
                            match mx with
                            | Some O => k i s
                            | _ =>
                                let d := fun i' s' =>
                                  if (mn =? 0) && (i' =? i) then None
                                  else loop fuel' (pred mn) (option_map pred mx) i' s' in
                                match mn with
                                | S _ => rmatch r i s d
                                | O =>
                                    match rmatch r i s d with
                                    | Some e => Some e
                                    | None => k i s
                                    end
                                end
                            end
                        end) fuel (pred mn) (option_map pred mx)
                       (i + length x) rest) = Some e' ->
               mx <> Some 0 ->
               exists s1 s2,
                 x ++ rest = s1 ++ s2 /\
                 lang (Rep mn mx r) i s1 /\ k (i + length s1) s2 = Some e').
    { intros x rest e' Hx Hd Hmx.
      destruct ((mn =? 0) && (i + length x =? i)); [discriminate | ].
      apply IHf in Hd.
      destruct Hd as (s1 & s2 & -> & (pieces & -> & Hmin & Hmax & Heach) & Hk).
      exists (x ++ concat pieces), s2. rewrite <- app_assoc.
      split; [reflexivity | ].
      rewrite length_app, Nat.add_assoc. split; [ | exact Hk ].
      exists (x :: pieces). cbn [concat length].
      split; [reflexivity | split; [ | split; [ | split; assumption ] ] ].
      - destruct Hmin as [Hmin | Hmin]; [left; lia | ].
        destruct mx as [ [ | m ] | ]; [congruence | | discriminate].
        simpl in Hmin. injection Hmin as ->. right. reflexivity.
      - intros m Hm. subst mx. destruct m as [ | m ]; [congruence | ].
        specialize (Hmax m eq_refl). lia. }
    assert (Hnone : forall e',
               mn = 0 -> k i s = Some e' ->
               exists s1 s2,
                 s = s1 ++ s2 /\ lang (Rep mn mx r) i s1
                 /\ k (i + length s1) s2 = Some e').
    { intros e' -> Hk. exists [], s. rewrite Nat.add_0_r.
      split; [reflexivity | split; [ | exact Hk ]].
      exists []. simpl. repeat split; auto. intros m _. lia. }
    destruct mx as [ [ | m ] | ]; simpl.
    + intros Hk. exists [], s. rewrite Nat.add_0_r.
      split; [reflexivity | split; [ | exact Hk ]].
      exists []. simpl. repeat split; auto. intros m Hm. lia.
    + destruct mn as [ | mn' ].
      * match goal with |- match ?X with _ => _ end = _ -> _ => destruct X eqn:E1 end.
        -- intros H; injection H as <-. apply IH in E1.
           destruct E1 as (x & rest & -> & Hx & Hd).
           apply (Hiter x rest _ Hx Hd). discriminate.
        -- intros Hk. apply Hnone; auto.
      * intros H. apply IH in H. destruct H as (x & rest & -> & Hx & Hd).
        apply (Hiter x rest _ Hx Hd). discriminate.
    + destruct mn as [ | mn' ].
      * match goal with |- match ?X with _ => _ end = _ -> _ => destruct X eqn:E1 end.
        -- intros H; injection H as <-. apply IH in E1.
           destruct E1 as (x & rest & -> & Hx & Hd).
           apply (Hiter x rest _ Hx Hd). discriminate.
        -- intros Hk. apply Hnone; auto.
      * intros H. apply IH in H. destruct H as (x & rest & -> & Hx & Hd).
        apply (Hiter x rest _ Hx Hd). discriminate.
Qed.

Lemma match_at_sound r i s e :
  match_at r i s = Some e ->
  exists m rest, s = m ++ rest /\ lang r i m /\ e = i + length m.
Proof.
  unfold match_at. intros H. apply rmatch_sound in H.
  destruct H as (m & rest & -> & Hm & Hk). injection Hk as <-.
  exists m, rest. auto.
Qed.

Lemma search_from_sound r s :
  forall i b e,
    search_from r i s = Some (b, e) ->
    exists pre m rest,
      s = pre ++ m ++ rest /\ lang r b m /\ b = i + length pre
      /\ e = b + length m.
Proof.
  induction s as [ | c s IH ]; intros i b e; cbn [search_from].
  - destruct (match_at r i []) eqn:E; [ | discriminate ].
    intros H; injection H as <- <-. apply match_at_sound in E.
    destruct E as (m & rest & Hs & Hm & ->).
    exists [], m, rest. simpl. rewrite Nat.add_0_r. auto.
  - destruct (match_at r i (c :: s)) eqn:E.
    + intros H; injection H as <- <-. apply match_at_sound in E.
      destruct E as (m & rest & Hs & Hm & ->).
      exists [], m, rest. simpl. rewrite Nat.add_0_r. auto.
    + intros H. apply IH in H.
      destruct H as (pre & m & rest & -> & Hm & -> & ->).
      exists (c :: pre), m, rest. simpl. repeat split; auto; lia.
Qed.

(** The text of the first match of a pattern in [s] is a piece of [s]
    that the pattern can match. *)
Lemma match1_sound r s b m :
  match1 r s = Some (b, m) ->
  lang r b m /\ exists pre rest, s = pre ++ m ++ rest /\ b = length pre.
Proof.
  unfold match1, exec. change (length s <? 0) with false.
  change (skipn 0 s) with s.
  destruct (search_from r 0 s) as [ [b' e] | ] eqn:E; [ | discriminate ].
  intros H; injection H as <- <-.
  apply search_from_sound in E.
  destruct E as (pre & m & rest & -> & Hm & -> & ->).
  simpl. unfold substring.
  replace (length pre + length m - length pre) with (length m) by lia.
  rewrite skipn_app, skipn_all, Nat.sub_diag. simpl.
  rewrite firstn_app, firstn_all, Nat.sub_diag. simpl. rewrite app_nil_r.
  split; [exact Hm | ]. exists pre, rest. auto.
Qed.

End MatcherSound.

(** ** What the detected links and contact details look like *)

Section MatchShapes.

Import SectionDetector.

Lemma lang_liti cs :
  Forall (fun a => isUpper (code a) = false) cs ->
  forall i s, lang (seqs (map chi cs)) i s -> map foldCase s = map code cs.
Proof.
  induction 1 as [ | a cs Ha _ IH ]; intros i s; cbn [map seqs fold_right lang].
  - intros ->. reflexivity.
  - fold (seqs (map chi cs)).
    intros (s1 & s2 & -> & (c & -> & Hc) & H2).
    apply IH in H2. cbn [app map]. rewrite H2. f_equal.
    rewrite (chi_foldCase a c Ha) in Hc. apply N.eqb_eq in Hc. auto.
Qed.

Lemma lang_lit cs :
  forall i s, lang (seqs (map ch cs)) i s -> s = map code cs.
Proof.
  induction cs as [ | a cs IH ]; intros i s; cbn [map seqs fold_right lang].
  - auto.
  - fold (seqs (map ch cs)).
    intros (s1 & s2 & -> & (c & -> & Hc) & H2).
    apply IH in H2. cbn [app]. rewrite H2. f_equal.
    apply N.eqb_eq in Hc. auto.
Qed.

(** A quantifier over a single code unit matches a run of such code
    units, as many as its bounds allow. *)
Lemma lang_Rep_Chr mn mx p i s :
  lang (Rep mn mx (Chr p)) i s ->
  Forall (fun c => p c = true) s
  /\ (mn <= length s \/ mx = Some (length s))
  /\ (forall m, mx = Some m -> length s <= m).
Proof.
  cbn [lang]. intros (pieces & -> & Hmin & Hmax & Heach).
  assert (H : Forall (fun c => p c = true) (concat pieces)
              /\ length (concat pieces) = length pieces).
  { clear Hmin Hmax. revert i Heach.
    induction pieces as [ | x pieces IH ]; intros i Heach.
    - split; [constructor | reflexivity].
    - destruct Heach as [(c & -> & Hc) Heach]. apply IH in Heach.
      destruct Heach as [Hall Hlen]. cbn [concat app length].
      split; [constructor; assumption | congruence]. }
  destruct H as [Hall Hlen]. rewrite Hlen. auto.
Qed.

Lemma lang_plus_Chr p i s :
  lang (plus (Chr p)) i s -> s <> [] /\ Forall (fun c => p c = true) s.
Proof.
  intros H. apply lang_Rep_Chr in H. destruct H as (Hall & [Hmin | Hmin] & _).
  - split; [ | exact Hall ]. intros ->. simpl in Hmin. lia.
  - discriminate Hmin.
Qed.

Lemma lang_times_Chr n p i s :
  lang (times n (Chr p)) i s -> length s = n /\ Forall (fun c => p c = true) s.
Proof.
  intros H. apply lang_Rep_Chr in H. destruct H as (Hall & Hmin & Hmax).
  specialize (Hmax n eq_refl). split; [ | exact Hall ].
  destruct Hmin as [Hmin | Hmin]; [lia | congruence].
Qed.

Lemma lang_opt_Chr p i s :
  lang (opt (Chr p)) i s -> s = [] \/ exists c, s = [c] /\ p c = true.
Proof.
  intros H. apply lang_Rep_Chr in H. destruct H as (Hall & _ & Hmax).
  specialize (Hmax 1 eq_refl).
  destruct s as [ | c [ | d s ] ]; [auto | | simpl in Hmax; lia].
  right. exists c. split; [reflexivity | ]. inversion Hall; assumption.
Qed.

(** What exec returns. *)
Lemma substring_middle {A} (pre m rest : list A) :
  firstn (length pre + length m - length pre) (skipn (length pre) (pre ++ m ++ rest))
  = m.
Proof.
  replace (length pre + length m - length pre) with (length m) by lia.
  rewrite skipn_app, skipn_all, Nat.sub_diag. simpl.
  rewrite firstn_app, firstn_all, Nat.sub_diag. simpl. apply app_nil_r.
Qed.

Lemma substring_span {A} (pre m rest : list A) :
  firstn (length pre + length m - length pre) (skipn (length pre) (pre ++ m ++ rest))
  = m.
Proof. apply substring_middle. Qed.

Lemma exec_sound r lastIndex s b e :
  exec r lastIndex s = Some (b, e) ->
  lang r b (substring b e s) /\ occursIn (substring b e s) s
  /\ e = b + length (substring b e s).
Proof.
  unfold exec. destruct (length s <? lastIndex) eqn:El; [discriminate | ].
  apply Nat.ltb_ge in El. intros H. apply search_from_sound in H.
  destruct H as (pre & m & rest & Hs & Hm & -> & ->).
  assert (Es : s = (firstn lastIndex s ++ pre) ++ m ++ rest)
    by (rewrite <- app_assoc, <- Hs, firstn_skipn; reflexivity).
  assert (El' : lastIndex + length pre = length (firstn lastIndex s ++ pre))
    by (rewrite length_app, firstn_length_le by exact El; reflexivity).
  rewrite El' in *. clear El' Hs El.
  remember (firstn lastIndex s ++ pre) as P eqn:EP. clear EP.
  subst s. unfold substring. rewrite substring_middle.
  split; [exact Hm | split; [ | reflexivity ] ].
  exists P, rest. reflexivity.
Qed.

Lemma exec_all_sound r s :
  forall fuel lastIndex be,
    In be (fst (exec_all r fuel lastIndex s)) ->
    lang r (fst be) (substring (fst be) (snd be) s)
    /\ occursIn (substring (fst be) (snd be) s) s.
Proof.
  induction fuel as [ | fuel IH ]; intros lastIndex be; cbn [exec_all].
  - intros [].
  - destruct (exec r lastIndex s) as [ [b e] | ] eqn:E; [ | intros [] ].
    specialize (IH (if e =? b then S e else e) be).
    destruct (exec_all r fuel (if e =? b then S e else e) s) as [l final].
    cbn [fst In] in *. intros [<- | Hin]; [ | apply IH; exact Hin ].
    apply exec_sound in E. cbn [fst snd]. tauto.
Qed.

(** Every text that [match] with the [g] flag returns is a piece of the
    input that the pattern can match. *)
Lemma match_g_sound r s l m :
  fst (match_g r s) = Some l -> In m l ->
  occursIn m s /\ exists b, lang r b m.
Proof.
  unfold match_g.
  pose proof (exec_all_sound r s (length s + 2) 0) as Hall.
  destruct (exec_all r (length s + 2) 0 s) as [spans final].
  cbn [fst] in *. intros H Hin.
  assert (Hl : l = map (fun be => substring (fst be) (snd be) s) spans)
    by (destruct spans; [discriminate | injection H as <-; reflexivity]).
  subst l. apply in_map_iff in Hin. destruct Hin as (be' & <- & Hbe).
  destruct (Hall be' Hbe) as [Hl Ho]. split; [exact Ho | eauto].
Qed.

Lemma match1_occurs r s b m :
  match1 r s = Some (b, m) -> lang r b m /\ occursIn m s.
Proof.
  intros H. apply match1_sound in H. destruct H as (Hm & pre & rest & Hs & _).
  split; [exact Hm | ]. exists pre, rest. exact Hs.
Qed.

(** *** Profile links *)

Lemma liti_words w : u w = map code (list_ascii_of_string w).
Proof. reflexivity. Qed.

Lemma profile_sound w s b m :
  Forall (fun a => isUpper (code a) = false) (list_ascii_of_string w) ->
  match1 (Seq (liti w) (plus handle)) s = Some (b, m) ->
  exists h user,
    m = h ++ user /\ occursIn (h ++ user) s /\ map foldCase h = u w
    /\ user <> [] /\ Forall (fun c => handleChar c = true) user
    /\ skipn (String.length w) m = user.
Proof.
  intros Hw H. apply match1_occurs in H. destruct H as [Hm Ho].
  cbn [lang] in Hm. destruct Hm as (h & user & -> & Hh & Huser).
  apply (lang_liti _ Hw) in Hh.
  apply lang_plus_Chr in Huser. destruct Huser as [Hne Hall].
  exists h, user. repeat split; try assumption.
  assert (Hlen : length h = String.length w).
  { rewrite <- (length_map foldCase), Hh, length_map.
    clear. induction w; simpl; congruence. }
  rewrite <- Hlen, skipn_app, skipn_all, Nat.sub_diag. reflexivity.
Qed.

Lemma search_from_none r s :
  forall i, search_from r i s = None ->
            forall pre rest, s = pre ++ rest ->
                             match_at r (i + length pre) rest = None.
Proof.
  induction s as [ | c s IH ]; intros i; cbn [search_from].
  - destruct (match_at r i []) eqn:E; [discriminate | ].
    intros _ pre rest Hs. symmetry in Hs. apply app_eq_nil in Hs.
    destruct Hs as [-> ->]. rewrite Nat.add_0_r. exact E.
  - destruct (match_at r i (c :: s)) eqn:E; [discriminate | ].
    intros H pre rest Hs. destruct pre as [ | x pre ].
    + simpl in Hs. subst rest. rewrite Nat.add_0_r. exact E.
    + injection Hs as <- Hs. cbn [length].
      replace (i + S (length pre)) with (S i + length pre) by lia.
      apply (IH (S i) H pre rest Hs).
Qed.

Lemma plus_Chr_first p i c s :
  p c = true ->
  exists e, rmatch (plus (Chr p)) i (c :: s) (fun e _ => Some e) = Some e.
Proof.
  intros Hc. unfold plus. cbn [rmatch].
  replace (1 + length (c :: s) + 1) with (S (S (length s + 1)))
    by (cbn [length]; lia).
  rewrite Hc. cbn [Nat.eqb andb pred option_map].
  match goal with |- exists e, match ?X with _ => _ end = _ => destruct X end;
    eauto.
Qed.

Lemma startsWith_app (s rest : jsstring) : startsWith s (s ++ rest) = true.
Proof.
  induction s as [ | c s IH ]; [destruct rest; reflexivity | ].
  simpl. rewrite N.eqb_refl. exact IH.
Qed.

Lemma profile_complete w s :
  Forall (fun a => isUpper (code a) = false) (list_ascii_of_string w) ->
  match1 (Seq (liti w) (plus handle)) s = None ->
  ~ hasProfile w s.
Proof.
  intros Hw H (pre & h & c & post & Hs & Hh & Hc).
  unfold match1, exec in H. change (length s <? 0) with false in H.
  change (skipn 0 s) with s in H.
  destruct (search_from _ 0 s) as [ [b e] | ] eqn:E; [discriminate | ].
  pose proof (search_from_none _ _ 0 E pre (h ++ c :: post) Hs) as Hnone.
  unfold match_at, liti in Hnone. cbn [rmatch] in Hnone.
  rewrite (rmatch_liti _ Hw) in Hnone.
  rewrite map_app, Hh, liti_words, startsWith_app in Hnone.
  assert (Hlen : length (list_ascii_of_string w) = length h)
    by (rewrite <- (length_map foldCase h), Hh, liti_words, length_map; reflexivity).
  rewrite Hlen, skipn_app, skipn_all, Nat.sub_diag in Hnone.
  cbn [skipn app] in Hnone.
  destruct (plus_Chr_first (fun c => isAlnum c || oneOf [95; 45]%N c)
              (0 + length pre + length h) c post Hc) as (e & He).
  change (Chr (fun c => isAlnum c || oneOf [95; 45]%N c)) with handle in He.
  rewrite He in Hnone. discriminate Hnone.
Qed.

(** X15: the github link that detectLinks returns is
    [https://github.com/] followed by a handle (letters, digits, [_] and
    [-], at least one) that follows [github.com/], in any letter case,
    somewhere in the text; there is no link exactly when the text has no
    [github.com/] followed by a code unit of a handle.  The same holds of
    the linkedin link, with [linkedin.com/in/]. *)
Theorem detectLinks_profiles text st :
  let links := fst (detectLinks text st) in
  (forall link, github links = Some link ->
                profileLink "https://github.com/" "github.com/" text link) /\
  (github links = None <-> ~ hasProfile "github.com/" text) /\
  (forall link, linkedin links = Some link ->
                profileLink "https://linkedin.com/in/" "linkedin.com/in/" text link) /\
  (linkedin links = None <-> ~ hasProfile "linkedin.com/in/" text).
Proof.
  assert (Hg : Forall (fun a => isUpper (code a) = false)
                 (list_ascii_of_string "github.com/")) by (repeat constructor).
  assert (Hl : Forall (fun a => isUpper (code a) = false)
                 (list_ascii_of_string "linkedin.com/in/")) by (repeat constructor).
  unfold detectLinks, bind, ret.
  destruct (website_match text st) as [websiteMatches st']. cbn [fst github linkedin].
  unfold URL_github, URL_linkedin.
  split; [ | split; [ | split ] ].
  - intros link.
    destruct (match1 _ text) as [ [b m] | ] eqn:E; [ | discriminate ].
    intros H.
    destruct (profile_sound _ _ _ _ Hg E) as (h & user & _ & Ho & Hh & Hne & Hall & Hskip).
    cbn [String.length] in Hskip.
    exists h, user. repeat (split; [assumption | ]).
    rewrite <- Hskip. congruence.
  - destruct (match1 _ text) as [ [b m] | ] eqn:E.
    + split; [discriminate | ]. intros Hno. exfalso. apply Hno.
      destruct (profile_sound _ _ _ _ Hg E)
        as (h & user & _ & (pre & post & Ho) & Hh & Hne & Hall & _).
      destruct user as [ | c user ]; [congruence | ].
      exists pre, h, c, (user ++ post). rewrite Ho, <- app_assoc.
      inversion Hall; subst. auto.
    + split; [intros _ | reflexivity]. apply (profile_complete _ _ Hg E).
  - intros link.
    destruct (match1 (Seq (liti "linkedin.com/in/") _) text) as [ [b m] | ] eqn:E;
      [ | discriminate ].
    intros H.
    destruct (profile_sound _ _ _ _ Hl E) as (h & user & _ & Ho & Hh & Hne & Hall & Hskip).
    cbn [String.length] in Hskip.
    exists h, user. repeat (split; [assumption | ]).
    rewrite <- Hskip. congruence.
  - destruct (match1 (Seq (liti "linkedin.com/in/") _) text) as [ [b m] | ] eqn:E.
    + split; [discriminate | ]. intros Hno. exfalso. apply Hno.
      destruct (profile_sound _ _ _ _ Hl E)
        as (h & user & _ & (pre & post & Ho) & Hh & Hne & Hall & _).
      destruct user as [ | c user ]; [congruence | ].
      exists pre, h, c, (user ++ post). rewrite Ho, <- app_assoc.
      inversion Hall; subst. auto.
    + split; [intros _ | reflexivity]. apply (profile_complete _ _ Hl E).
Qed.

End MatchShapes.

Lemma detectLinks_profiles_witness :
  let text := u "code at GitHub.com/octo-cat, see it" in
  profileLink "https://github.com/" "github.com/" text (u "https://github.com/octo-cat")
  /\ ~ hasProfile "linkedin.com/in/" text.
Proof.
  intros text.
  destruct (detectLinks_profiles text SD.initialState) as (Hgithub & _ & _ & Hlinkedin).
  split.
  - apply Hgithub. vm_compute. reflexivity.
  - apply Hlinkedin. vm_compute. reflexivity.
Defined.

Section ContactShapes.

Import SectionDetector.

Lemma lang_URL_website i url : lang URL_website i url -> webUrl url.
Proof.
  unfold URL_website. cbn [seqs fold_right lang].
  intros (a & r1 & -> & Ha & b & r2 & -> & Hb & c & r3 & -> & Hc
          & d & r4 & -> & Hd & ->).
  apply (lang_liti (list_ascii_of_string "http")) in Ha; [ | repeat constructor ].
  apply lang_opt_Chr in Hb. apply lang_lit in Hc.
  apply lang_plus_Chr in Hd. destruct Hd as [Hne Hall].
  exists (a ++ b ++ c), d. rewrite app_nil_r, <- !app_assoc.
  split; [reflexivity | split; [ | split; [exact Hne | ] ] ].
  - rewrite !map_app, Ha, Hc.
    destruct Hb as [-> | (x & -> & Hx)]; [left; reflexivity | right].
    rewrite (chi_foldCase "s" x eq_refl) in Hx. apply N.eqb_eq in Hx.
    cbn [map]. rewrite <- Hx. reflexivity.
  - apply Forall_impl with (2 := Hall). intros x Hx.
    apply negb_true_iff in Hx. exact Hx.
Qed.

Lemma lang_EMAIL_PATTERN i e : lang EMAIL_PATTERN i e -> emailShape e.
Proof.
  unfold EMAIL_PATTERN. cbn [seqs fold_right lang].
  intros (a & r1 & -> & Ha & b & r2 & -> & (x & -> & Hx) & c & r3 & -> & Hc
          & d & r4 & -> & (y & -> & Hy) & t & r5 & -> & Ht & ->).
  apply lang_plus_Chr in Ha. apply lang_plus_Chr in Hc. apply lang_plus_Chr in Ht.
  apply N.eqb_eq in Hx. apply N.eqb_eq in Hy. subst x y.
  exists a, c, t. rewrite app_nil_r.
  split; [reflexivity | tauto].
Qed.

(** X16: the website that detectLinks returns is a piece of the text
    that starts with [http://] or [https://] (in any letter case), goes
    on with at least one code unit, has no white space after the scheme,
    and includes neither [github.com] nor [linkedin.com]. *)
Theorem detectLinks_website text st url :
  website (fst (detectLinks text st)) = Some url ->
  occursIn url text /\ webUrl url
  /\ includes url (u "github.com") = false
  /\ includes url (u "linkedin.com") = false.
Proof.
  unfold detectLinks, bind, ret, website_match.
  pose proof (match_g_sound URL_website text) as Hsound.
  destruct (match_g URL_website text) as [ [l | ] final ]; cbn [fst website];
    [ | discriminate ].
  intros H. apply nth_error_In in H. apply filter_In in H.
  destruct H as [Hin Hkeep].
  destruct (Hsound l url eq_refl Hin) as [Ho (b & Hb)].
  apply andb_true_iff in Hkeep. destruct Hkeep as [Hg Hl].
  apply negb_true_iff in Hg. apply negb_true_iff in Hl.
  split; [exact Ho | split; [ | split; assumption ] ].
  apply (lang_URL_website b). exact Hb.
Qed.

(** X17: the email that detectContact returns is a piece of the text of
    the shape [local@domain.tld]: three non-empty runs of letters,
    digits, [_] and [-] (and [.] in the first two), with [@] and [.]
    between them. *)
Theorem detectContact_email text st e :
  email (fst (detectContact text st)) = Some e ->
  occursIn e text /\ emailShape e.
Proof.
  unfold detectContact, bind, ret, EMAIL_match, PHONE_match.
  pose proof (match_g_sound EMAIL_PATTERN text) as Hsound.
  destruct (match_g EMAIL_PATTERN text) as [ [l | ] final ];
    destruct (match_g PHONE_PATTERN text) as [phones final'];
    cbn [fst email]; [ | discriminate ].
  intros H. apply nth_error_In in H.
  destruct (Hsound l e eq_refl H) as [Ho (b & Hb)].
  split; [exact Ho | ]. apply (lang_EMAIL_PATTERN b). exact Hb.
Qed.

End ContactShapes.

Lemma detectLinks_website_witness :
  occursIn (u "https://jane.dev") (u "see https://github.com/jane and https://jane.dev")
  /\ webUrl (u "https://jane.dev")
  /\ includes (u "https://jane.dev") (u "github.com") = false
  /\ includes (u "https://jane.dev") (u "linkedin.com") = false.
Proof.
  apply (detectLinks_website
           (u "see https://github.com/jane and https://jane.dev") SD.initialState).
  vm_compute. reflexivity.
Defined.

Lemma detectContact_email_witness :
  occursIn (u "jane@doe.io") (u "Jane Doe, jane@doe.io, 555-123-4567")
  /\ emailShape (u "jane@doe.io").
Proof.
  apply (detectContact_email (u "Jane Doe, jane@doe.io, 555-123-4567")
           SD.initialState).
  vm_compute. reflexivity.
Defined.

Section PhoneShape.

Import SectionDetector.

Lemma lang_opt r i s : lang (opt r) i s -> s = [] \/ lang r i s.
Proof.
  unfold opt. cbn [lang]. intros (pieces & -> & _ & Hmax & Heach).
  specialize (Hmax 1 eq_refl).
  destruct pieces as [ | x [ | y pieces ] ]; [left; reflexivity | | simpl in Hmax; lia].
  right. cbn [concat]. rewrite app_nil_r. apply Heach.
Qed.

Lemma separator_no_digit c :
  (oneOf [45; 46]%N c || isWhiteSpace c) = true ->
  isDigit c = false /\ phoneChar c = true.
Proof.
  unfold phoneChar, oneOf, isWhiteSpace, isDigit, inRange. cbn [existsb].
  intros H. split.
  - apply not_true_is_false. intros Hd.
    rewrite ?orb_true_iff, ?andb_true_iff, ?N.eqb_eq, ?N.leb_le in *. lia.
  - rewrite ?orb_true_iff, ?andb_true_iff, ?N.eqb_eq, ?N.leb_le in *. lia.
Qed.

Lemma piece_app a b c d s t :
  piece a b s -> piece c d t -> piece (a + c) (b + d) (s ++ t).
Proof.
  unfold piece, digitsOf. intros [Hs Hn] [Ht Hm].
  rewrite filter_app, length_app. split; [apply Forall_app; auto | lia].
Qed.

Lemma piece_digits n s :
  length s = n -> Forall (fun c => isDigit c = true) s -> piece n n s.
Proof.
  intros Hn Hall. unfold piece, digitsOf. split.
  - apply Forall_impl with (2 := Hall). intros c Hc.
    unfold phoneChar. rewrite Hc. reflexivity.
  - assert (E : filter isDigit s = s).
    { clear Hn. induction Hall as [ | c s Hc _ IH ]; [reflexivity | ].
      simpl. rewrite Hc, IH. reflexivity. }
    rewrite E. lia.
Qed.

Lemma piece_nil : piece 0 0 [].
Proof. split; [constructor | simpl; lia]. Qed.

Lemma piece_weaken a b a' b' s : piece a b s -> a' <= a -> b <= b' -> piece a' b' s.
Proof. unfold piece. intros [H1 H2] Ha Hb. split; [exact H1 | lia]. Qed.

Lemma piece_opt_char p i s :
  (forall c, p c = true -> isDigit c = false /\ phoneChar c = true) ->
  lang (opt (Chr p)) i s -> piece 0 0 s.
Proof.
  intros Hp H. apply lang_opt_Chr in H.
  destruct H as [-> | (c & -> & Hc)]; [apply piece_nil | ].
  destruct (Hp c Hc) as [Hd Hc']. unfold piece, digitsOf. simpl. rewrite Hd.
  split; [constructor; [exact Hc' | constructor] | simpl; lia].
Qed.

Lemma literal_no_digit a :
  isDigit (code a) = false -> phoneChar (code a) = true ->
  forall c, (code a =? c)%N = true -> isDigit c = false /\ phoneChar c = true.
Proof. intros Hd Hp c Hc. apply N.eqb_eq in Hc. subst c. auto. Qed.

Lemma lang_PHONE_PATTERN i s : lang PHONE_PATTERN i s -> piece 10 13 s.
Proof.
  unfold PHONE_PATTERN. cbn [seqs fold_right lang].
  intros (a & r1 & -> & Ha & b & r2 & -> & Hb & c & r3 & -> & Hc
          & d & r4 & -> & Hd & e & r5 & -> & He & f & r6 & -> & Hf
          & g & r7 & -> & Hg & h & r8 & -> & Hh & ->).
  assert (Pa : piece 0 3 a).
  { apply lang_opt in Ha. destruct Ha as [-> | Ha].
    - apply piece_weaken with (1 := piece_nil); lia.
    - cbn [lang] in Ha.
      destruct Ha as (x & q1 & -> & Hx & y & q2 & -> & Hy & z & q3 & -> & Hz & ->).
      apply (piece_opt_char _ _ _ (literal_no_digit "+" eq_refl eq_refl)) in Hx.
      apply lang_Rep_Chr in Hy. destruct Hy as (Hall & _ & Hmax).
      specialize (Hmax 3 eq_refl).
      apply (piece_opt_char _ _ _ separator_no_digit) in Hz.
      pose proof (piece_digits (length y) y eq_refl Hall) as Py.
      rewrite app_nil_r.
      apply piece_weaken
        with (1 := piece_app _ _ _ _ _ _ Hx (piece_app _ _ _ _ _ _ Py Hz)); lia. }
  apply (piece_opt_char _ _ _ (literal_no_digit "(" eq_refl eq_refl)) in Hb.
  apply lang_times_Chr in Hc. destruct Hc as [Lc Hc].
  apply (piece_opt_char _ _ _ (literal_no_digit ")" eq_refl eq_refl)) in Hd.
  apply (piece_opt_char _ _ _ separator_no_digit) in He.
  apply lang_times_Chr in Hf. destruct Hf as [Lf Hf].
  apply (piece_opt_char _ _ _ separator_no_digit) in Hg.
  apply lang_times_Chr in Hh. destruct Hh as [Lh Hh].
  pose proof (piece_digits 3 c Lc Hc) as Pc.
  pose proof (piece_digits 3 f Lf Hf) as Pf.
  pose proof (piece_digits 4 h Lh Hh) as Ph.
  rewrite app_nil_r.
  apply piece_weaken
    with (1 := piece_app _ _ _ _ _ _ Pa
                (piece_app _ _ _ _ _ _ Hb
                   (piece_app _ _ _ _ _ _ Pc
                      (piece_app _ _ _ _ _ _ Hd
                         (piece_app _ _ _ _ _ _ He
                            (piece_app _ _ _ _ _ _ Pf
                               (piece_app _ _ _ _ _ _ Hg Ph))))))); lia.
Qed.

(** X18: the phone number that detectContact returns is a piece of the
    text made of digits, [+], [(], [)], [-], [.] and white space only,
    with at least 10 and at most 13 digits. *)
Theorem detectContact_phone text st p :
  phone (fst (detectContact text st)) = Some p ->
  occursIn p text
  /\ Forall (fun c => phoneChar c = true) p
  /\ 10 <= length (digitsOf p) <= 13.
Proof.
  unfold detectContact, bind, ret, EMAIL_match, PHONE_match.
  pose proof (match_g_sound PHONE_PATTERN text) as Hsound.
  destruct (match_g EMAIL_PATTERN text) as [emails final].
  destruct (match_g PHONE_PATTERN text) as [ [l | ] final' ];
    cbn [fst phone]; [ | discriminate ].
  intros H. apply nth_error_In in H.
  destruct (Hsound l p eq_refl H) as [Ho (b & Hb)].
  split; [exact Ho | ]. apply (lang_PHONE_PATTERN b). exact Hb.
Qed.

End PhoneShape.

Lemma detectContact_phone_witness :
  occursIn (u "+1 (555) 123-4567") (u "Jane Doe, jane@doe.io, +1 (555) 123-4567")
  /\ Forall (fun c => phoneChar c = true) (u "+1 (555) 123-4567")
  /\ 10 <= length (digitsOf (u "+1 (555) 123-4567")) <= 13.
Proof.
  apply (detectContact_phone (u "Jane Doe, jane@doe.io, +1 (555) 123-4567")
           SD.initialState).
  vm_compute. reflexivity.
Defined.

(** ** What the entries of a section are made of *)

Section EntryShapes.

Import SectionDetector.

Variable toLowerCase : jsstring -> jsstring.

Lemma Forall_pushOpt {A} (P : A -> Prop) l x :
  Forall P (pushOpt l x) <-> Forall P l /\ (forall a, x = Some a -> P a).
Proof.
  destruct x as [a | ]; simpl.
  - rewrite Forall_app. split.
    + intros [Hl Ha]. split; [exact Hl | ]. intros b Hb. injection Hb as <-.
      inversion Ha; assumption.
    + intros [Hl Ha]. split; [exact Hl | ]. constructor; [auto | constructor].
  - split; [intros H; split; [exact H | discriminate] | tauto].
Qed.

Lemma opens_test (p : bool) line :
  truthy (trim line) = true -> p = true -> truthy (trim line) && p = true.
Proof. intros -> ->. reflexivity. Qed.

(** *** Education *)

Lemma yearPattern_match trimmed b m :
  match1 yearPattern trimmed = Some (b, m) ->
  length m = 4 /\ Forall (fun c => isDigit c = true) m /\ occursIn m trimmed.
Proof.
  intros H. apply match1_occurs in H. destruct H as [Hm Ho].
  apply lang_times_Chr in Hm. tauto.
Qed.

Lemma detectEducation_loop_entries L todo :
  forall education currentEdu,
    incl todo L ->
    Forall (educationEntry L) (pushOpt education currentEdu) ->
    Forall (educationEntry L)
      (pushOpt (fst (detectEducation_loop todo education currentEdu))
               (snd (detectEducation_loop todo education currentEdu))).
Proof.
  induction todo as [ | line todo IH ]; intros education currentEdu Hincl Hinv;
    cbn [detectEducation_loop]; [exact Hinv | ].
  assert (Hline : In line L) by (apply Hincl; left; reflexivity).
  assert (Htodo : incl todo L) by (intros x Hx; apply Hincl; right; exact Hx).
  destruct (truthy (trim line)) eqn:Et; cbn [negb]; [ | apply IH; assumption ].
  destruct (test degreePattern (trim line)) eqn:Ed.
  - apply IH; [exact Htodo | ].
    apply Forall_pushOpt. split; [exact Hinv | ].
    intros e He. injection He as <-. cbn [Edu.degree Edu.year Edu.institution].
    split; [ | split; [ | left; reflexivity ] ].
    + exists line. unfold opensEducation. rewrite Et, Ed. auto.
    + destruct (match1 yearPattern (trim line)) as [ [b m] | ] eqn:Ey;
        [right | left; reflexivity].
      apply yearPattern_match in Ey. exact Ey.
  - destruct currentEdu as [e | ]; [ | apply IH; assumption ].
    apply Forall_pushOpt in Hinv. destruct Hinv as [Hedu He].
    destruct (He e eq_refl) as (Hdeg & Hyear & Hinst).
    destruct (negb (truthy (Edu.institution e)) && (5 <? length (trim line))) eqn:Ei;
      (apply IH; [exact Htodo | ]); apply Forall_pushOpt;
      (split; [exact Hedu | ]); intros e' He'; injection He' as <-;
      cbn [Edu.degree Edu.year Edu.institution];
      (split; [exact Hdeg | split; [exact Hyear | ] ]); [ | exact Hinst ].
    right. exists line. apply andb_true_iff in Ei. destruct Ei as [_ Ei].
    apply Nat.ltb_lt in Ei. unfold opensEducation. rewrite Et, Ed. auto.
Qed.

(** X19: every entry detectEducation returns has for degree a trimmed
    line of the section with a degree keyword; its year is empty or four
    digits found in the degree; its institution is empty or a trimmed
    line of the section, longer than five code units, without a degree
    keyword. *)
Theorem detectEducation_entries sectionLines :
  Forall (educationEntry sectionLines) (detectEducation sectionLines).
Proof.
  unfold detectEducation. destruct sectionLines as [ | l ls ]; [constructor | ].
  pose proof (detectEducation_loop_entries (l :: ls) (l :: ls) [] None
                (incl_refl _)) as H.
  destruct (detectEducation_loop (l :: ls) [] None) as [education currentEdu].
  apply H. constructor.
Qed.

(** *** Experience *)

Lemma experienceHeader_duration trimmed :
  Exp.duration (experienceHeader toLowerCase trimmed) = []
  \/ occursIn (Exp.duration (experienceHeader toLowerCase trimmed)) trimmed.
Proof.
  unfold experienceHeader.
  destruct (match map trim (split_re partSeparator trimmed) with
            | [] => _ | _ => _ end) as [role company].
  cbn [Exp.duration].
  destruct (match1 durationPattern trimmed) as [ [b m] | ] eqn:E; [right | left; auto].
  apply match1_occurs in E. tauto.
Qed.

Lemma experienceHeader_highlights trimmed :
  Exp.highlights (experienceHeader toLowerCase trimmed) = [].
Proof.
  unfold experienceHeader.
  destruct (match map trim (split_re partSeparator trimmed) with
            | [] => _ | _ => _ end) as [role company].
  reflexivity.
Qed.

Lemma detectExperience_loop_entries L todo :
  forall experiences currentExp,
    incl todo L ->
    Forall (experienceEntry L) (pushOpt experiences currentExp) ->
    Forall (experienceEntry L)
      (pushOpt (fst (detectExperience_loop toLowerCase todo experiences currentExp))
               (snd (detectExperience_loop toLowerCase todo experiences currentExp))).
Proof.
  induction todo as [ | line todo IH ]; intros experiences currentExp Hincl Hinv;
    cbn [detectExperience_loop]; [exact Hinv | ].
  assert (Hline : In line L) by (apply Hincl; left; reflexivity).
  assert (Htodo : incl todo L) by (intros x Hx; apply Hincl; right; exact Hx).
  destruct (truthy (trim line)) eqn:Et; cbn [negb]; [ | apply IH; assumption ].
  destruct (test datePattern (trim line)) eqn:Ed.
  - apply IH; [exact Htodo | ].
    apply Forall_pushOpt. split; [exact Hinv | ].
    intros e He. injection He as <-. split.
    + exists line. unfold opensExperience. rewrite Et, Ed.
      split; [exact Hline | split; [reflexivity | ] ].
      apply experienceHeader_duration.
    + rewrite experienceHeader_highlights. constructor.
  - destruct currentExp as [e | ]; [ | apply IH; assumption ].
    apply Forall_pushOpt in Hinv. destruct Hinv as [Hexp He].
    destruct (He e eq_refl) as (Hdur & Hhigh).
    apply IH; [exact Htodo | ]. apply Forall_pushOpt.
    split; [exact Hexp | ]. intros e' He'. injection He' as <-.
    destruct (0 <? length (stripBullet (trim line))) eqn:Ec;
      [ | split; assumption ].
    cbn [Exp.duration Exp.highlights]. split; [exact Hdur | ].
    apply Forall_app. split; [exact Hhigh | ].
    constructor; [ | constructor ]. split.
    + intros H0. rewrite H0 in Ec. discriminate Ec.
    + exists line. unfold opensExperience. rewrite Et, Ed. auto.
Qed.

(** X20: every entry detectExperience returns comes from a dated line of
    the section; its duration is empty or a piece of that line; its
    highlights are lines of the section that are not dated, taken
    without their bullet, none of them empty; and its description is the
    highlights joined by single spaces. *)
Theorem detectExperience_entries sectionLines :
  Forall (fun e => experienceEntry sectionLines e
                   /\ Exp.description e = join (u " ") (Exp.highlights e))
         (detectExperience toLowerCase sectionLines).
Proof.
  unfold detectExperience. destruct sectionLines as [ | l ls ]; [constructor | ].
  pose proof (detectExperience_loop_entries (l :: ls) (l :: ls) [] None
                (incl_refl _)) as H.
  destruct (detectExperience_loop toLowerCase (l :: ls) [] None)
    as [experiences currentExp].
  cbn [fst snd] in H. specialize (H (Forall_nil _)).
  apply Forall_forall. intros e He. apply in_map_iff in He.
  destruct He as (e0 & <- & He0).
  rewrite Forall_forall in H. specialize (H e0 He0).
  split; [exact H | reflexivity].
Qed.

(** *** Projects *)

Lemma urlPattern_match cleaned b m :
  match1 urlPattern cleaned = Some (b, m) ->
  (exists rest, rest <> []
                /\ (m = u "http://" ++ rest \/ m = u "https://" ++ rest))
  /\ Forall (fun c => isWhiteSpace c = false) m.
Proof.
  intros H. apply match1_occurs in H. destruct H as [Hm _].
  unfold urlPattern in Hm. cbn [seqs fold_right lang] in Hm.
  destruct Hm as (a & r1 & -> & Ha & s & r2 & -> & Hs & c & r3 & -> & Hc
                  & d & r4 & -> & Hd & ->).
  apply lang_lit in Ha. apply lang_opt_Chr in Hs. apply lang_lit in Hc.
  apply lang_plus_Chr in Hd. destruct Hd as [Hne Hall]. subst a c.
  rewrite app_nil_r.
  assert (Hd : Forall (fun c => isWhiteSpace c = false) d).
  { apply Forall_impl with (2 := Hall). intros x Hx.
    apply negb_true_iff in Hx. exact Hx. }
  destruct Hs as [-> | (x & -> & Hx)].
  - split; [exists d; split; [exact Hne | left; reflexivity] | ].
    repeat (apply Forall_cons; [reflexivity | ]). exact Hd.
  - apply N.eqb_eq in Hx. subst x.
    split; [exists d; split; [exact Hne | right; reflexivity] | ].
    repeat (apply Forall_cons; [reflexivity | ]). exact Hd.
Qed.

Lemma projectLine_title cleaned p :
  Proj.title (projectLine toLowerCase cleaned p) = Proj.title p.
Proof.
  unfold projectLine.
  destruct (includes _ _ || includes _ _ || includes _ _).
  - destruct (nth_error _ 1) as [techPart | ];
      [destruct (truthy techPart) | ];
      destruct (match1 urlPattern cleaned) as [ [b m] | ]; reflexivity.
  - destruct (match1 urlPattern cleaned) as [ [b m] | ]; reflexivity.
Qed.

Lemma projectLine_link cleaned p link :
  Proj.link (projectLine toLowerCase cleaned p) = Some link ->
  Proj.link p = Some link
  \/ exists b, match1 urlPattern cleaned = Some (b, link).
Proof.
  unfold projectLine.
  destruct (match1 urlPattern cleaned) as [ [b m] | ].
  - cbn [Proj.link]. intros H; injection H as <-. right. eauto.
  - destruct (includes _ _ || includes _ _ || includes _ _).
    + destruct (nth_error _ 1) as [techPart | ];
        [destruct (truthy techPart) | ]; auto.
    + auto.
Qed.

Lemma detectProjects_loop_entries L todo :
  forall projects currentProject,
    incl todo L ->
    Forall (projectEntry L) (pushOpt projects currentProject) ->
    Forall (projectEntry L)
      (pushOpt (fst (detectProjects_loop toLowerCase todo projects currentProject))
               (snd (detectProjects_loop toLowerCase todo projects currentProject))).
Proof.
  induction todo as [ | line todo IH ]; intros projects currentProject Hincl Hinv;
    cbn [detectProjects_loop]; [exact Hinv | ].
  assert (Hline : In line L) by (apply Hincl; left; reflexivity).
  assert (Htodo : incl todo L) by (intros x Hx; apply Hincl; right; exact Hx).
  destruct (truthy (trim line)) eqn:Et; cbn [negb]; [ | apply IH; assumption ].
  destruct (negb (test bulletStart (trim line)) && (5 <? length (trim line))
            && negb (includes (trim line) (u ":"))) eqn:Eo.
  - apply IH; [exact Htodo | ].
    apply Forall_pushOpt. split; [exact Hinv | ].
    intros p Hp. injection Hp as <-. split.
    + exists line. unfold opensProject. rewrite Et. cbn [andb].
      cbn [Proj.title]. auto.
    + cbn [Proj.link]. discriminate.
  - destruct currentProject as [p | ]; [ | apply IH; assumption ].
    apply Forall_pushOpt in Hinv. destruct Hinv as [Hproj Hp].
    destruct (Hp p eq_refl) as (Htitle & Hlink).
    apply IH; [exact Htodo | ]. apply Forall_pushOpt.
    split; [exact Hproj | ]. intros p' Hp'. injection Hp' as <-. split.
    + rewrite projectLine_title. exact Htitle.
    + intros link H. apply projectLine_link in H.
      destruct H as [H | (b & H)]; [apply Hlink; exact H | ].
      apply urlPattern_match in H. exact H.
Qed.

(** X21: every entry detectProjects returns has for title a trimmed line
    of the section that opens a project; its link, when there is one,
    starts with [http://] or [https://], goes on with at least one code
    unit and has no white space. *)
Theorem detectProjects_entries sectionLines :
  Forall (projectEntry sectionLines) (detectProjects toLowerCase sectionLines).
Proof.
  unfold detectProjects. destruct sectionLines as [ | l ls ]; [constructor | ].
  pose proof (detectProjects_loop_entries (l :: ls) (l :: ls) [] None
                (incl_refl _)) as H.
  destruct (detectProjects_loop toLowerCase (l :: ls) [] None)
    as [projects currentProject].
  apply H. constructor.
Qed.

End EntryShapes.

(** ** The text that extractText passes on *)

Section ExtractedText.

Import TextExtractor.

Variable host : Host.

(** X24: a text that extractText returns is normalized: normalizeText
    leaves it as it is, it has no two line breaks in a row, and the lines
    detectSections reads from it are non-empty and trimmed. *)
Theorem extractText_normalized filePath mimetype events text :
  extractText host filePath mimetype = (events, inr text) ->
  normalizeText text = text
  /\ noDoubleBreak text = true
  /\ Forall (fun l => l <> [] /\ trim l = l)
            (filter SD.nonBlank (split newline text)).
Proof.
  unfold extractText.
  destruct (if str_eqb mimetype _ then _ else _) as [ev [message | raw]];
    intros H; [discriminate | ].
  assert (E : text = normalizeText raw) by congruence. subst text.
  rewrite (normalizeText_join raw).
  pose proof (keptLines_clean raw) as Hclean.
  split; [ | split ].
  - rewrite (normalizeText_join (join newline (keptLines raw))).
    rewrite keptLines_join by exact Hclean. reflexivity.
  - apply noDoubleBreak_join. exact Hclean.
  - destruct (keptLines raw) as [ | l ls ] eqn:Ek; [constructor | ].
    rewrite <- Ek in *. rewrite split_join.
    + apply Forall_forall. intros x Hx. apply filter_In in Hx.
      destruct Hx as [Hx _]. rewrite Forall_forall in Hclean.
      destruct (Hclean x Hx) as (Hne & _ & Ht). auto.
    + rewrite Ek. discriminate.
    + apply Forall_impl with (2 := Hclean). intros x (_ & Hx & _). exact Hx.
Qed.

End ExtractedText.

Lemma extractText_normalized_witness :
  TE.normalizeText Sample.resume50 = Sample.resume50
  /\ noDoubleBreak Sample.resume50 = true
  /\ Forall (fun l => l <> [] /\ trim l = l)
            (filter SD.nonBlank (split TE.newline Sample.resume50)).
Proof.
  apply (extractText_normalized Sample.host (u "resume.txt") (u "text/plain")
           [TE.ReadTXT (u "resume.txt")]).
  vm_compute. reflexivity.
Defined.

(** ** The error-handling middleware *)

Section ErrorResponses.

Import ErrorHandler.

(** X22: whatever the error and the environment, the handler logs the
    error and answers with [success: false] and a status that is not 0;
    the stack is in the answer only in development, and [details] only
    for a validation error, with status 400. *)
Theorem errorHandler_response NODE_ENV err :
  let r := errorHandler NODE_ENV err in
  consoleError r = err
  /\ Body.success (body r) = false
  /\ 0 < status r
  /\ (Body.stack (body r) <> None ->
      NODE_ENV = Some (u "development") /\ Body.stack (body r) = Err.stack err)
  /\ (Body.details (body r) <> None ->
      Err.name err = Some (u "ValidationError") /\ status r = 400).
Proof.
  assert (Hfixed : forall (b : Body.t),
             Body.success b = false -> Body.stack b = None ->
             Body.details b = None ->
             let r := Build_Outcome err 400 b in
             consoleError r = err /\ Body.success (body r) = false
             /\ 0 < status r
             /\ (Body.stack (body r) <> None ->
                 NODE_ENV = Some (u "development")
                 /\ Body.stack (body r) = Err.stack err)
             /\ (Body.details (body r) <> None ->
                 Err.name err = Some (u "ValidationError") /\ status r = 400)).
  { intros b Hs Hk Hd. cbn. rewrite Hs, Hk, Hd.
    split; [reflexivity | split; [reflexivity | split; [lia | ] ] ].
    split; intros H; contradiction H; reflexivity. }
  unfold errorHandler.
  destruct (strictEq (Err.code err) _); [apply Hfixed; reflexivity | ].
  destruct (includes (Err.message err) _); [apply Hfixed; reflexivity | ].
  destruct (strictEq (Err.name err) (u "ValidationError")) eqn:Ev.
  { cbn. split; [reflexivity | split; [reflexivity | split; [lia | ] ] ].
    split; intros H; [contradiction H; reflexivity | ].
    split; [ | reflexivity ].
    unfold strictEq in Ev. destruct (Err.name err) as [n | ]; [ | discriminate ].
    apply str_eqb_eq in Ev. rewrite Ev. reflexivity. }
  destruct (strictEq (Err.name err) (u "CastError")); [apply Hfixed; reflexivity | ].
  cbn [consoleError body status Body.success Body.stack Body.details].
  split; [reflexivity | split; [reflexivity | split ] ].
  - destruct (Err.statusCode err) as [ [ | n ] | ]; lia.
  - split; intros H; [ | contradiction H; reflexivity ].
    unfold strictEq in *. destruct NODE_ENV as [v | ]; [ | congruence ].
    destruct (str_eqb v (u "development")) eqn:E; [ | congruence ].
    apply str_eqb_eq in E. rewrite E. split; reflexivity.
Qed.

(** X23: in production the answer to an error says nothing of its
    message or stack, unless the error is one whose message is meant
    for the client (a rejected file type or a validation error): two
    such errors with the same code, name and status code get the same
    status and the same body. *)
Theorem production_hides_unexpected_errors err1 err2 :
  Err.code err1 = Err.code err2 ->
  Err.name err1 = Err.name err2 ->
  Err.statusCode err1 = Err.statusCode err2 ->
  messageForClient err1 = false ->
  messageForClient err2 = false ->
  status (errorHandler (Some (u "production")) err1)
  = status (errorHandler (Some (u "production")) err2)
  /\ body (errorHandler (Some (u "production")) err1)
     = body (errorHandler (Some (u "production")) err2).
Proof.
  unfold messageForClient, errorHandler.
  intros Hc Hn Hs H1 H2.
  apply orb_false_iff in H1. apply orb_false_iff in H2.
  destruct H1 as [Hi1 Hv1]. destruct H2 as [Hi2 Hv2].
  rewrite Hi1, Hi2, Hv1, Hv2, <- Hc, <- Hn, <- Hs.
  destruct (strictEq (Err.code err1) (u "LIMIT_FILE_SIZE")); [split; reflexivity | ].
  destruct (strictEq (Err.name err1) (u "CastError")); split; reflexivity.
Qed.

End ErrorResponses.

Lemma production_hides_unexpected_errors_witness :
  let err1 :=
    EH.Err.mk None (u "connect ECONNREFUSED 10.0.0.5:27017") (Some (u "MongoNetworkError"))
      None (Some (u "MongoNetworkError: connect ECONNREFUSED at db.js:12")) in
  let err2 := EH.Err.mk None (u "boom") (Some (u "MongoNetworkError")) None None in
  EH.status (EH.errorHandler (Some (u "production")) err1)
  = EH.status (EH.errorHandler (Some (u "production")) err2)
  /\ EH.body (EH.errorHandler (Some (u "production")) err1)
     = EH.body (EH.errorHandler (Some (u "production")) err2).
Proof.
  intros err1 err2.
  apply (production_hides_unexpected_errors err1 err2); reflexivity.
Defined.
